(** * The LTO plugin bridge of the linker (elf/lto.cc)

    A shallow embedding of [elf/lto.cc]: the file-scope statics become one
    [State] record threaded through every function, the compiler backend
    (the dlopen'ed plugin) is an oracle that answers every hook invocation
    with the sequence of callbacks it makes, and the three ways the C++ code
    can stop (Fatal, a failed assert, undefined behaviour) are the three
    [Failure]s of the result type. *)

From stdpp Require Import gmap strings list.

Local Open Scope Z_scope.

(** ** Results *)

Inductive Failure :=
  | Fatal (msg : string)   (* Fatal(ctx) << ...: the link ends with a diagnostic *)
  | AssertFail             (* assert(...) failed, or unreachable() was reached *)
  | Undefined.             (* out-of-range index, null or dangling pointer *)

Inductive Res (A : Type) :=
  | Ok (a : A)
  | Err (e : Failure).

Arguments Ok {A} a.
Arguments Err {A} e.

Definition bind {A B} (m : Res A) (k : A → Res B) : Res B :=
  match m with
  | Ok a => k a
  | Err e => Err e
  end.

Notation "'do' x <- m ; k" := (bind m (fun x => k))
  (at level 10, x name, m at level 100, k at level 200).
Notation "'do' ' pat <- m ; k" := (bind m (fun x => match x with pat => k end))
  (at level 10, pat pattern, m at level 100, k at level 200).

Definition assert (b : bool) : Res unit :=
  if b then Ok tt else Err AssertFail.

Definition is_ok {A} (m : Res A) : bool :=
  match m with Ok _ => true | Err _ => false end.

(** ** The plugin API records (lto.h) *)

(** Modelled from the spec: the header lto.h is not part of the file; the
    definition kinds of a Plugin Symbol Record are "defined, weak-defined,
    undefined, weak-undefined, common", named as the switch of [to_elf_sym]
    names them. *)
Inductive PluginSymbolKind :=
  | LDPK_DEF | LDPK_WEAKDEF | LDPK_UNDEF | LDPK_WEAKUNDEF | LDPK_COMMON.

(** Modelled from the spec: symbol type "unknown, function, variable" (lto.h). *)
Inductive PluginSymbolType :=
  | LDST_UNKNOWN | LDST_FUNCTION | LDST_VARIABLE.

(** Modelled from the spec: visibility "default, protected, internal, hidden"
    (lto.h). *)
Inductive PluginSymbolVisibility :=
  | LDPV_DEFAULT | LDPV_PROTECTED | LDPV_INTERNAL | LDPV_HIDDEN.

(** Modelled from the spec: the resolution values of lto.h; [get_symbols]
    writes six of them. *)
Inductive PluginSymbolResolution :=
  | LDPR_UNKNOWN
  | LDPR_UNDEF
  | LDPR_PREVAILING_DEF
  | LDPR_PREVAILING_DEF_IRONLY
  | LDPR_PREEMPTED_REG
  | LDPR_PREEMPTED_IR
  | LDPR_RESOLVED_IR
  | LDPR_RESOLVED_EXEC
  | LDPR_RESOLVED_DYN
  | LDPR_PREVAILING_DEF_IRONLY_EXP.

(** Modelled from the spec: the status values of lto.h: ordinary success,
    the distinct "no symbols" status, and the two error statuses. *)
Inductive PluginStatus :=
  | LDPS_OK | LDPS_NO_SYMS | LDPS_BAD_HANDLE | LDPS_ERR.

Global Instance PluginStatus_eq_dec : EqDecision PluginStatus.
Proof. solve_decision. Defined.

Global Instance PluginSymbolResolution_eq_dec : EqDecision PluginSymbolResolution.
Proof. solve_decision. Defined.

(** Modelled from the spec: struct PluginSymbol of lto.h, with the fields
    this file reads or writes: name, definition kind, symbol type,
    visibility, size (a u64) and the resolution slot. *)
Record PluginSymbol := {
  name : string;
  def : PluginSymbolKind;
  symbol_type : PluginSymbolType;
  visibility : PluginSymbolVisibility;
  size : Z;
  resolution : PluginSymbolResolution;
}.

(** [psym.resolution = r] *)
Definition set_resolution (r : PluginSymbolResolution) (psym : PluginSymbol)
  : PluginSymbol :=
  {| name := name psym; def := def psym; symbol_type := symbol_type psym;
     visibility := visibility psym; size := size psym; resolution := r |}.

(** ** ELF symbols (elf.h) *)

(** The constants are those of the ELF gABI; elf.h declares them. *)
Definition SHN_UNDEF : Z := 0.
Definition SHN_ABS : Z := 0xfff1.
Definition SHN_COMMON : Z := 0xfff2.

Definition STB_LOCAL : Z := 0.
Definition STB_GLOBAL : Z := 1.
Definition STB_WEAK : Z := 2.

Definition STT_NOTYPE : Z := 0.
Definition STT_OBJECT : Z := 1.
Definition STT_FUNC : Z := 2.

Definition STV_DEFAULT : Z := 0.
Definition STV_INTERNAL : Z := 1.
Definition STV_HIDDEN : Z := 2.
Definition STV_PROTECTED : Z := 3.

(** The targets [E] for which the templates of the file are instantiated
    (the INSTANTIATE lines at its end). *)
Inductive Target := X86_64 | I386 | ARM64 | RISCV64.

(** The width in bits of [st_size] in ElfSym<E> (elf.h): I386 has the ELF32
    symbol, whose size is a 32-bit word; the three 64-bit targets have the
    ELF64 symbol, whose size is a 64-bit word. *)
Definition st_size_bits (E : Target) : Z :=
  match E with
  | I386 => 32
  | X86_64 | ARM64 | RISCV64 => 64
  end.

(** Modelled from the spec: struct ElfSym<E> of elf.h, "an ELF-shaped symbol
    record"; the fields are unsigned integers, [st_size] of
    [st_size_bits E] bits. *)
Record ElfSym := {
  st_name : Z;
  st_type : Z;
  st_bind : Z;
  st_visibility : Z;
  st_shndx : Z;
  st_value : Z;
  st_size : Z;
}.

(** [ElfSym<E> esym = {}]: every field zero. *)
Definition esym_zero : ElfSym :=
  {| st_name := 0; st_type := 0; st_bind := 0; st_visibility := 0;
     st_shndx := 0; st_value := 0; st_size := 0 |}.

Definition set_st_shndx (v : Z) (e : ElfSym) : ElfSym :=
  {| st_name := st_name e; st_type := st_type e; st_bind := st_bind e;
     st_visibility := st_visibility e; st_shndx := v; st_value := st_value e;
     st_size := st_size e |}.

Definition set_st_bind (v : Z) (e : ElfSym) : ElfSym :=
  {| st_name := st_name e; st_type := st_type e; st_bind := v;
     st_visibility := st_visibility e; st_shndx := st_shndx e;
     st_value := st_value e; st_size := st_size e |}.

Definition set_st_type (v : Z) (e : ElfSym) : ElfSym :=
  {| st_name := st_name e; st_type := v; st_bind := st_bind e;
     st_visibility := st_visibility e; st_shndx := st_shndx e;
     st_value := st_value e; st_size := st_size e |}.

Definition set_st_visibility (v : Z) (e : ElfSym) : ElfSym :=
  {| st_name := st_name e; st_type := st_type e; st_bind := st_bind e;
     st_visibility := v; st_shndx := st_shndx e; st_value := st_value e;
     st_size := st_size e |}.

Definition set_st_size (v : Z) (e : ElfSym) : ElfSym :=
  {| st_name := st_name e; st_type := st_type e; st_bind := st_bind e;
     st_visibility := st_visibility e; st_shndx := st_shndx e;
     st_value := st_value e; st_size := v |}.

(** [to_elf_sym<E>]: three switches over the record, then the size. The
    assignment [esym.st_size = psym.size] converts the u64 of the plugin
    record to the type of the field, which keeps the low [st_size_bits E]
    bits. *)
Definition to_elf_sym (E : Target) (psym : PluginSymbol) : ElfSym :=
  let esym := esym_zero in
  let esym :=
    match def psym with
    | LDPK_DEF => set_st_shndx SHN_ABS esym
    | LDPK_WEAKDEF => set_st_bind STB_WEAK (set_st_shndx SHN_ABS esym)
    | LDPK_UNDEF => set_st_shndx SHN_UNDEF esym
    | LDPK_WEAKUNDEF => set_st_bind STB_WEAK (set_st_shndx SHN_UNDEF esym)
    | LDPK_COMMON => set_st_shndx SHN_COMMON esym
    end in
  let esym :=
    match symbol_type psym with
    | LDST_UNKNOWN => esym
    | LDST_FUNCTION => set_st_type STT_FUNC esym
    | LDST_VARIABLE => set_st_type STT_OBJECT esym
    end in
  let esym :=
    match visibility psym with
    | LDPV_DEFAULT => esym
    | LDPV_PROTECTED => set_st_visibility STV_PROTECTED esym
    | LDPV_INTERNAL => set_st_visibility STV_INTERNAL esym
    | LDPV_HIDDEN => set_st_visibility STV_HIDDEN esym
    end in
  set_st_size (size psym mod 2 ^ st_size_bits E) esym.

(** ** The linker's objects, as far as this file touches them (mold.h) *)

(** Addresses of [InputFile] objects. *)
Definition ptr := nat.

(** Modelled from the spec: class MappedFile of mold.h, "a mapped file
    region (path + offset + length)", with the name of the enclosing archive
    when the region is an archive member; [mf_offset] is what get_offset()
    returns. *)
Record MappedFile := {
  mf_name : string;
  mf_parent : option string;
  mf_offset : Z;
  mf_size : Z;
}.

(** Modelled from the spec: class Symbol of mold.h; this file reads only its
    owner, [sym.file], the "current owning file" of the link-wide symbol
    table (null when the symbol has no owner). *)
Record Symbol := {
  file : option ptr;
}.

(** A [Symbol<E> *]: either the object made by [new Symbol<E>], whose owner
    is null, or the symbol interned under a name by get_symbol(). *)
Inductive SymPtr :=
  | SymNew
  | SymNamed (n : string).

(** Modelled from the spec: class ObjectFile of mold.h, the "IR Object
    Descriptor" and the regular object alike, with the members this file
    uses. *)
Record ObjectFile := {
  symbols : list SymPtr;
  first_global : Z;
  is_lto_obj : bool;
  mf : option MappedFile;
  elf_syms : list ElfSym;
  sym_fragments : list (option nat * Z);
  symvers : list (option string);
  priority : Z;
  is_alive : bool;
}.

(** An [InputFile] is an object file or a shared object; [is_dso()] tells
    which. *)
Inductive InputFile :=
  | InputObject (o : ObjectFile)
  | InputShared (soname : string).

Definition is_dso (f : InputFile) : bool :=
  match f with InputShared _ => true | InputObject _ => false end.

Definition set_is_alive (b : bool) (o : ObjectFile) : ObjectFile :=
  {| symbols := symbols o; first_global := first_global o;
     is_lto_obj := is_lto_obj o; mf := mf o; elf_syms := elf_syms o;
     sym_fragments := sym_fragments o; symvers := symvers o;
     priority := priority o; is_alive := b |}.

Definition set_priority (v : Z) (o : ObjectFile) : ObjectFile :=
  {| symbols := symbols o; first_global := first_global o;
     is_lto_obj := is_lto_obj o; mf := mf o; elf_syms := elf_syms o;
     sym_fragments := sym_fragments o; symvers := symvers o;
     priority := v; is_alive := is_alive o |}.

(** The link configuration [ctx.arg]. *)
Record Args := {
  plugin : string;
  shared : bool;
  pie : bool;
  plugin_opt : list string;
  output : string;
}.

(** [Context<E>]: configuration, the active object set [objs], the owning
    pool, the link-wide symbol table, and the memory holding the
    [InputFile] objects that the pointers above refer to. *)
Record Context := {
  arg : Args;
  objs : list ptr;
  obj_pool : list ptr;
  symbol_map : gmap string Symbol;
  files : gmap ptr InputFile;
}.

Definition set_objs (v : list ptr) (c : Context) : Context :=
  {| arg := arg c; objs := v; obj_pool := obj_pool c;
     symbol_map := symbol_map c; files := files c |}.

Definition set_obj_pool (v : list ptr) (c : Context) : Context :=
  {| arg := arg c; objs := objs c; obj_pool := v;
     symbol_map := symbol_map c; files := files c |}.

Definition set_symbol_map (v : gmap string Symbol) (c : Context) : Context :=
  {| arg := arg c; objs := objs c; obj_pool := obj_pool c;
     symbol_map := v; files := files c |}.

Definition set_files (v : gmap ptr InputFile) (c : Context) : Context :=
  {| arg := arg c; objs := objs c; obj_pool := obj_pool c;
     symbol_map := symbol_map c; files := v |}.

(** Dereference of [p] as a pointer to ObjectFile. *)
Definition lookup_obj (c : Context) (p : ptr) : Res ObjectFile :=
  match files c !! p with
  | Some (InputObject o) => Ok o
  | _ => Err Undefined
  end.

(** Dereference of a symbol pointer. *)
Definition deref_sym (c : Context) (sp : SymPtr) : Res Symbol :=
  match sp with
  | SymNew => Ok {| file := None |}
  | SymNamed n =>
      match symbol_map c !! n with
      | Some sym => Ok sym
      | None => Err Undefined
      end
  end.

(** ** The symbol resolution bridge *)

(** [get_symbols_v1]: unreachable(). *)
Definition get_symbols_v1 (c : Context) (handle : ptr) (nsyms : Z)
    (psyms : list PluginSymbol) : Res (list PluginSymbol * PluginStatus) :=
  Err AssertFail.

(** The lambda [get_resolution] of [get_symbols]; [handle] is [&file]. *)
Definition get_resolution (c : Context) (handle : ptr) (psym : PluginSymbol)
    (sym : Symbol) : Res PluginSymbolResolution :=
  match file sym with
  | None => Ok LDPR_UNDEF
  | Some q =>
      if decide (q = handle) then Ok LDPR_PREVAILING_DEF
      else match files c !! q with
           | None => Err Undefined
           | Some (InputShared _) => Ok LDPR_RESOLVED_DYN
           | Some (InputObject o) =>
               if is_lto_obj o then Ok LDPR_RESOLVED_IR
               else Ok LDPR_RESOLVED_EXEC
           end
  end.

(** [for (int i = 0; i < nsyms; i++) psyms[i].resolution = LDPR_PREEMPTED_REG;]
    with [n] iterations left and the index at [i]. *)
Fixpoint preempt_loop (n i : nat) (psyms : list PluginSymbol)
  : Res (list PluginSymbol) :=
  match n with
  | O => Ok psyms
  | S n' =>
      match psyms !! i with
      | Some psym =>
          preempt_loop n' (S i)
            (<[i := set_resolution LDPR_PREEMPTED_REG psym]> psyms)
      | None => Err Undefined
      end
  end.

(** The second loop of [get_symbols]: [psyms[i]] is paired with
    [file.symbols[i + 1]]. *)
Fixpoint resolve_loop (c : Context) (handle : ptr) (syms : list SymPtr)
    (n i : nat) (psyms : list PluginSymbol) : Res (list PluginSymbol) :=
  match n with
  | O => Ok psyms
  | S n' =>
      match psyms !! i, syms !! (i + 1)%nat with
      | Some psym, Some sp =>
          do sym <- deref_sym c sp;
          do r <- get_resolution c handle psym sym;
          resolve_loop c handle syms n' (S i) (<[i := set_resolution r psym]> psyms)
      | _, _ => Err Undefined
      end
  end.

Definition get_symbols (c : Context) (handle : ptr) (nsyms : Z)
    (psyms : list PluginSymbol) : Res (list PluginSymbol * PluginStatus) :=
  do file <- lookup_obj c handle;
  if negb (is_alive file) then
    do psyms' <- preempt_loop (Z.to_nat nsyms) 0 psyms;
    Ok (psyms', LDPS_NO_SYMS)
  else
    do psyms' <- resolve_loop c handle (symbols file) (Z.to_nat nsyms) 0 psyms;
    Ok (psyms', LDPS_OK).

Definition get_symbols_v2 (c : Context) (handle : ptr) (nsyms : Z)
    (psyms : list PluginSymbol) : Res (list PluginSymbol * PluginStatus) :=
  do '(psyms', st) <- get_symbols c handle nsyms psyms;
  Ok (psyms', if decide (st = LDPS_NO_SYMS) then LDPS_OK else st).

Definition get_symbols_v3 (c : Context) (handle : ptr) (nsyms : Z)
    (psyms : list PluginSymbol) : Res (list PluginSymbol * PluginStatus) :=
  get_symbols c handle nsyms psyms.

(** A symbol whose owner can be classified: the pointer leads to a symbol,
    and the owner, when there is one, is an object in memory. *)
Definition owner_known (c : Context) (sp : SymPtr) : Prop :=
  ∃ sym, deref_sym c sp = Ok sym ∧
    ∀ q, file sym = Some q → is_Some (files c !! q).

(** ** The capability table handed to the backend *)

(** Modelled from the spec: the capability tags of lto.h that [load_plugin]
    puts into the table. *)
Inductive PluginTag :=
  | LDPT_NULL
  | LDPT_MESSAGE
  | LDPT_LINKER_OUTPUT
  | LDPT_OPTION
  | LDPT_REGISTER_CLAIM_FILE_HOOK
  | LDPT_REGISTER_ALL_SYMBOLS_READ_HOOK
  | LDPT_REGISTER_CLEANUP_HOOK
  | LDPT_ADD_SYMBOLS
  | LDPT_GET_SYMBOLS
  | LDPT_ADD_INPUT_FILE
  | LDPT_GET_INPUT_FILE
  | LDPT_RELEASE_INPUT_FILE
  | LDPT_ADD_INPUT_LIBRARY
  | LDPT_OUTPUT_NAME
  | LDPT_SET_EXTRA_LIBRARY_PATH
  | LDPT_GET_VIEW
  | LDPT_GET_INPUT_SECTION_COUNT
  | LDPT_GET_INPUT_SECTION_TYPE
  | LDPT_GET_INPUT_SECTION_NAME
  | LDPT_GET_INPUT_SECTION_CONTENTS
  | LDPT_UPDATE_SECTION_ORDER
  | LDPT_ALLOW_SECTION_ORDERING
  | LDPT_GET_SYMBOLS_V2
  | LDPT_ALLOW_UNIQUE_SEGMENT_FOR_SECTIONS
  | LDPT_UNIQUE_SEGMENT_FOR_SECTIONS
  | LDPT_GET_SYMBOLS_V3
  | LDPT_GET_INPUT_SECTION_ALIGNMENT
  | LDPT_GET_INPUT_SECTION_SIZE
  | LDPT_REGISTER_NEW_INPUT_HOOK
  | LDPT_GET_WRAP_SYMBOLS.

(** Modelled from the spec: the linker-output kinds of lto.h, "shared /
    position-independent-executable / executable". *)
Inductive PluginOutputFileType :=
  | LDPO_EXEC | LDPO_DYN | LDPO_PIE.

(** The functions of this file that only log and return LDPS_OK. *)
Inductive InertFn :=
  | get_input_file
  | release_input_file
  | add_input_library
  | set_extra_library_path
  | get_input_section_count
  | get_input_section_type
  | get_input_section_name
  | get_input_section_contents
  | update_section_order
  | allow_section_ordering
  | allow_unique_segment_for_sections
  | unique_segment_for_sections
  | get_input_section_alignment
  | get_input_section_size
  | register_new_input_hook
  | get_wrap_symbols.

(** The functions of this file whose addresses the table carries. *)
Inductive LinkerFn :=
  | FnMessage
  | FnRegisterClaimFileHook
  | FnRegisterAllSymbolsReadHook
  | FnRegisterCleanupHook
  | FnAddSymbols
  | FnGetSymbolsV1
  | FnAddInputFile
  | FnGetView
  | FnGetSymbolsV2
  | FnGetSymbolsV3
  | FnInert (f : InertFn).

Inductive TagPayload :=
  | TvFn (f : LinkerFn)
  | TvOutput (o : PluginOutputFileType)
  | TvString (s : string)
  | TvInt (v : Z).

Definition PluginTagValue : Type := PluginTag * TagPayload.

(** The vector [tv] that [load_plugin] builds, in its order. *)
Definition plugin_table (a : Args) : list PluginTagValue :=
  [(LDPT_MESSAGE, TvFn FnMessage)]
  ++ [(LDPT_LINKER_OUTPUT,
       TvOutput (if shared a then LDPO_DYN
                 else if pie a then LDPO_PIE else LDPO_EXEC))]
  ++ map (fun opt => (LDPT_OPTION, TvString opt)) (plugin_opt a)
  ++ [(LDPT_REGISTER_CLAIM_FILE_HOOK, TvFn FnRegisterClaimFileHook);
      (LDPT_REGISTER_ALL_SYMBOLS_READ_HOOK, TvFn FnRegisterAllSymbolsReadHook);
      (LDPT_REGISTER_CLEANUP_HOOK, TvFn FnRegisterCleanupHook);
      (LDPT_ADD_SYMBOLS, TvFn FnAddSymbols);
      (LDPT_GET_SYMBOLS, TvFn FnGetSymbolsV1);
      (LDPT_ADD_INPUT_FILE, TvFn FnAddInputFile);
      (LDPT_GET_INPUT_FILE, TvFn (FnInert get_input_file));
      (LDPT_RELEASE_INPUT_FILE, TvFn (FnInert release_input_file));
      (LDPT_ADD_INPUT_LIBRARY, TvFn (FnInert add_input_library));
      (LDPT_OUTPUT_NAME, TvString (output a));
      (LDPT_SET_EXTRA_LIBRARY_PATH, TvFn (FnInert set_extra_library_path));
      (LDPT_GET_VIEW, TvFn FnGetView);
      (LDPT_GET_INPUT_SECTION_COUNT, TvFn (FnInert get_input_section_count));
      (LDPT_GET_INPUT_SECTION_TYPE, TvFn (FnInert get_input_section_type));
      (LDPT_GET_INPUT_SECTION_NAME, TvFn (FnInert get_input_section_name));
      (LDPT_GET_INPUT_SECTION_CONTENTS, TvFn (FnInert get_input_section_contents));
      (LDPT_UPDATE_SECTION_ORDER, TvFn (FnInert update_section_order));
      (LDPT_ALLOW_SECTION_ORDERING, TvFn (FnInert allow_section_ordering));
      (LDPT_GET_SYMBOLS_V2, TvFn FnGetSymbolsV2);
      (LDPT_ALLOW_UNIQUE_SEGMENT_FOR_SECTIONS,
       TvFn (FnInert allow_unique_segment_for_sections));
      (LDPT_UNIQUE_SEGMENT_FOR_SECTIONS, TvFn (FnInert unique_segment_for_sections));
      (LDPT_GET_SYMBOLS_V3, TvFn FnGetSymbolsV3);
      (LDPT_GET_INPUT_SECTION_ALIGNMENT, TvFn (FnInert get_input_section_alignment));
      (LDPT_GET_INPUT_SECTION_SIZE, TvFn (FnInert get_input_section_size));
      (LDPT_REGISTER_NEW_INPUT_HOOK, TvFn (FnInert register_new_input_hook));
      (LDPT_GET_WRAP_SYMBOLS, TvFn (FnInert get_wrap_symbols));
      (LDPT_NULL, TvInt 0)].

(** ** The backend and the operating system *)

(** Address of a function inside the plugin. *)
Definition fnptr := nat.

(** One call from the backend into this file, with its arguments. *)
Inductive Callback :=
  | CbMessage (level : Z) (text : string)
  | CbRegisterClaimFileHook (fn : fnptr)
  | CbRegisterAllSymbolsReadHook (fn : fnptr)
  | CbRegisterCleanupHook (fn : fnptr)
  | CbAddSymbols (handle : ptr) (nsyms : Z) (psyms : list PluginSymbol)
  | CbAddInputFile (path : string)
  | CbGetView (handle : ptr)
  | CbGetSymbolsV1 (handle : ptr) (nsyms : Z) (psyms : list PluginSymbol)
  | CbGetSymbolsV2 (handle : ptr) (nsyms : Z) (psyms : list PluginSymbol)
  | CbGetSymbolsV3 (handle : ptr) (nsyms : Z) (psyms : list PluginSymbol)
  | CbInert (f : InertFn).

(** struct PluginInputFile, as [read_lto_object] fills it. *)
Record PluginInputFile := {
  pif_name : string;
  pif_fd : Z;
  pif_offset : Z;
  pif_filesize : Z;
  pif_handle : ptr;
}.

(** The plugin: what each of its entry points does is the list of calls it
    makes back into this file before it returns. The claim hook also sets
    [*claimed] and returns a status. *)
Record Backend := {
  onload : list PluginTagValue → list Callback;
  claim_file : fnptr → PluginInputFile → list Callback * bool * PluginStatus;
  all_symbols_read : fnptr → list Callback;
  cleanup : fnptr → list Callback;
}.

(** What lies outside this file: the dynamic loader, the file system, and
    the parts of the linker declared in mold.h. [create_object] is the joint
    result of MappedFile::must_open, ObjectFile::create and parse for a path
    (None when the file cannot be opened); [resolve_symbols] is the ordinary
    resolution of the symbols of one object against the link-wide table;
    [new_priority] and [new_is_alive] are what the default constructor of
    ObjectFile leaves in the two members that [read_lto_object] never
    writes; [target] is the [E] at which the linker calls the functions of
    this file. *)
Record System := {
  target : Target;
  dlopen : string → option nat;
  dlsym_onload : nat → bool;
  open_file : string → option Z;
  create_object : string → option ObjectFile;
  resolve_symbols : ptr → ObjectFile → gmap string Symbol → gmap string Symbol;
  new_priority : Z;
  new_is_alive : bool;
}.

(** What the loader does to the outside world, in order. *)
Inductive LoaderEvent :=
  | EvDlopen (path : string)
  | EvDlsym (symbol : string)
  | EvOnload (tv : list PluginTagValue).

(** ** The session: the statics of this file, and the context *)

Record State := {
  ctx : Context;
  gctx : bool;                            (* gctx<E> points to ctx *)
  phase : Z;
  dlopen_handle : option nat;
  plugin_symbols : list PluginSymbol;
  claim_file_hook : option fnptr;
  all_symbols_read_hook : option fnptr;
  cleanup_hook : option fnptr;
  flag : bool;                            (* the once_flag of read_lto_object;
                                             a link instantiates one target E *)
  file_priority : Z;                      (* the static of add_input_file *)
  loader_log : list LoaderEvent;
}.

Definition set_ctx (v : Context) (s : State) : State :=
  {| ctx := v; gctx := gctx s; phase := phase s;
     dlopen_handle := dlopen_handle s; plugin_symbols := plugin_symbols s;
     claim_file_hook := claim_file_hook s;
     all_symbols_read_hook := all_symbols_read_hook s;
     cleanup_hook := cleanup_hook s; flag := flag s;
     file_priority := file_priority s; loader_log := loader_log s |}.

Definition set_gctx (v : bool) (s : State) : State :=
  {| ctx := ctx s; gctx := v; phase := phase s;
     dlopen_handle := dlopen_handle s; plugin_symbols := plugin_symbols s;
     claim_file_hook := claim_file_hook s;
     all_symbols_read_hook := all_symbols_read_hook s;
     cleanup_hook := cleanup_hook s; flag := flag s;
     file_priority := file_priority s; loader_log := loader_log s |}.

Definition set_phase (v : Z) (s : State) : State :=
  {| ctx := ctx s; gctx := gctx s; phase := v;
     dlopen_handle := dlopen_handle s; plugin_symbols := plugin_symbols s;
     claim_file_hook := claim_file_hook s;
     all_symbols_read_hook := all_symbols_read_hook s;
     cleanup_hook := cleanup_hook s; flag := flag s;
     file_priority := file_priority s; loader_log := loader_log s |}.

Definition set_dlopen_handle (v : option nat) (s : State) : State :=
  {| ctx := ctx s; gctx := gctx s; phase := phase s;
     dlopen_handle := v; plugin_symbols := plugin_symbols s;
     claim_file_hook := claim_file_hook s;
     all_symbols_read_hook := all_symbols_read_hook s;
     cleanup_hook := cleanup_hook s; flag := flag s;
     file_priority := file_priority s; loader_log := loader_log s |}.

Definition set_plugin_symbols (v : list PluginSymbol) (s : State) : State :=
  {| ctx := ctx s; gctx := gctx s; phase := phase s;
     dlopen_handle := dlopen_handle s; plugin_symbols := v;
     claim_file_hook := claim_file_hook s;
     all_symbols_read_hook := all_symbols_read_hook s;
     cleanup_hook := cleanup_hook s; flag := flag s;
     file_priority := file_priority s; loader_log := loader_log s |}.

Definition set_claim_file_hook (v : option fnptr) (s : State) : State :=
  {| ctx := ctx s; gctx := gctx s; phase := phase s;
     dlopen_handle := dlopen_handle s; plugin_symbols := plugin_symbols s;
     claim_file_hook := v;
     all_symbols_read_hook := all_symbols_read_hook s;
     cleanup_hook := cleanup_hook s; flag := flag s;
     file_priority := file_priority s; loader_log := loader_log s |}.

Definition set_all_symbols_read_hook (v : option fnptr) (s : State) : State :=
  {| ctx := ctx s; gctx := gctx s; phase := phase s;
     dlopen_handle := dlopen_handle s; plugin_symbols := plugin_symbols s;
     claim_file_hook := claim_file_hook s;
     all_symbols_read_hook := v;
     cleanup_hook := cleanup_hook s; flag := flag s;
     file_priority := file_priority s; loader_log := loader_log s |}.

Definition set_cleanup_hook (v : option fnptr) (s : State) : State :=
  {| ctx := ctx s; gctx := gctx s; phase := phase s;
     dlopen_handle := dlopen_handle s; plugin_symbols := plugin_symbols s;
     claim_file_hook := claim_file_hook s;
     all_symbols_read_hook := all_symbols_read_hook s;
     cleanup_hook := v; flag := flag s;
     file_priority := file_priority s; loader_log := loader_log s |}.

Definition set_flag (v : bool) (s : State) : State :=
  {| ctx := ctx s; gctx := gctx s; phase := phase s;
     dlopen_handle := dlopen_handle s; plugin_symbols := plugin_symbols s;
     claim_file_hook := claim_file_hook s;
     all_symbols_read_hook := all_symbols_read_hook s;
     cleanup_hook := cleanup_hook s; flag := v;
     file_priority := file_priority s; loader_log := loader_log s |}.

Definition set_file_priority (v : Z) (s : State) : State :=
  {| ctx := ctx s; gctx := gctx s; phase := phase s;
     dlopen_handle := dlopen_handle s; plugin_symbols := plugin_symbols s;
     claim_file_hook := claim_file_hook s;
     all_symbols_read_hook := all_symbols_read_hook s;
     cleanup_hook := cleanup_hook s; flag := flag s;
     file_priority := v; loader_log := loader_log s |}.

Definition log_event (e : LoaderEvent) (s : State) : State :=
  {| ctx := ctx s; gctx := gctx s; phase := phase s;
     dlopen_handle := dlopen_handle s; plugin_symbols := plugin_symbols s;
     claim_file_hook := claim_file_hook s;
     all_symbols_read_hook := all_symbols_read_hook s;
     cleanup_hook := cleanup_hook s; flag := flag s;
     file_priority := file_priority s; loader_log := loader_log s ++ [e] |}.

(** The statics as the file initialises them, around a given context. *)
Definition initial_state (c : Context) : State :=
  {| ctx := c; gctx := false; phase := 0; dlopen_handle := None;
     plugin_symbols := []; claim_file_hook := None;
     all_symbols_read_hook := None; cleanup_hook := None; flag := false;
     file_priority := 100; loader_log := [] |}.

(** Modelled from the spec: get_symbol() of mold.h, the symbol "interned with
    process-lifetime storage and registered into the link-wide symbol table":
    the entry under the name, made without an owner when the name is new. *)
Definition get_symbol (n : string) (c : Context) : Context * SymPtr :=
  match symbol_map c !! n with
  | Some _ => (c, SymNamed n)
  | None => (set_symbol_map (<[n := {| file := None |}]> (symbol_map c)) c,
             SymNamed n)
  end.

(** The loop of [read_lto_object] over [plugin_symbols]: one ELF symbol and
    one interned symbol pushed per record. *)
Fixpoint read_symbols (E : Target) (psyms : list PluginSymbol) (c : Context)
    (esyms : list ElfSym) (syms : list SymPtr)
  : Context * list ElfSym * list SymPtr :=
  match psyms with
  | [] => (c, esyms, syms)
  | psym :: rest =>
      let esyms := esyms ++ [to_elf_sym E psym] in
      let '(c, sp) := get_symbol (name psym) c in
      read_symbols E rest c esyms (syms ++ [sp])
  end.

(** The first loop of [do_lto]: [if (file->is_lto_obj) file->is_alive = false]
    for every pointer of [ctx.objs]. *)
Fixpoint mark_ir_dead (l : list ptr) (c : Context) : Res Context :=
  match l with
  | [] => Ok c
  | p :: rest =>
      do o <- lookup_obj c p;
      mark_ir_dead rest
        (if is_lto_obj o
         then set_files (<[p := InputObject (set_is_alive false o)]> (files c)) c
         else c)
  end.

(** [std::erase_if(ctx.objs, is_lto_obj)]: the pointers whose object is not
    flagged, in their order. *)
Fixpoint erase_if_lto_obj (c : Context) (l : list ptr) : Res (list ptr) :=
  match l with
  | [] => Ok []
  | p :: rest =>
      do o <- lookup_obj c p;
      do rest' <- erase_if_lto_obj c rest;
      Ok (if is_lto_obj o then rest' else p :: rest')
  end.

(** The top-level calls the linker makes into this file, and its own work
    on the context between them (which cannot reach the statics). *)
Inductive Op :=
  | OpReadLtoObject (mf : MappedFile)
  | OpDoLto
  | OpLtoCleanup
  | OpLinker (f : Context → Context).

Section Session.

Variable sys : System.
Variable backend : Backend.

(** *** Event handlers *)

Definition message (level : Z) (fmt : string) (s : State)
  : Res (State * PluginStatus) :=
  Ok (s, LDPS_OK).

Definition register_claim_file_hook (fn : fnptr) (s : State)
  : Res (State * PluginStatus) :=
  Ok (set_claim_file_hook (Some fn) s, LDPS_OK).

Definition register_all_symbols_read_hook (fn : fnptr) (s : State)
  : Res (State * PluginStatus) :=
  Ok (set_all_symbols_read_hook (Some fn) s, LDPS_OK).

Definition register_cleanup_hook (fn : fnptr) (s : State)
  : Res (State * PluginStatus) :=
  Ok (set_cleanup_hook (Some fn) s, LDPS_OK).

(** [plugin_symbols = {psyms, psyms + nsyms}]: the first [nsyms] records of
    the caller's array. *)
Definition add_symbols (handle : ptr) (nsyms : Z) (psyms : list PluginSymbol)
    (s : State) : Res (State * PluginStatus) :=
  do _ <- assert (phase s =? 1);
  if (0 <=? nsyms) && (nsyms <=? Z.of_nat (length psyms))
  then Ok (set_plugin_symbols (take (Z.to_nat nsyms) psyms) s, LDPS_OK)
  else Err Undefined.

(** [file_priority] is an i64: incrementing its largest value is undefined. *)
Definition add_input_file (path : string) (s : State)
  : Res (State * PluginStatus) :=
  do _ <- (if gctx s then Ok tt else Err Undefined);
  do file <- match create_object sys path with
             | Some o => Ok o
             | None => Err (Fatal ("cannot open " +:+ path))
             end;
  let c := ctx s in
  let p := fresh (dom (files c)) in
  let c := set_obj_pool (obj_pool c ++ [p]) c in
  let c := set_objs (objs c ++ [p]) c in
  let file := set_priority (file_priority s) file in
  do _ <- (if file_priority s <? 2 ^ 63 - 1 then Ok tt else Err Undefined);
  let s := set_file_priority (file_priority s + 1) s in
  let file := set_is_alive true file in
  let c := set_files (<[p := InputObject file]> (files c)) c in
  let c := set_symbol_map (resolve_symbols sys p file (symbol_map c)) c in
  Ok (set_ctx c s, LDPS_OK).

(** The functions that only log. *)
Definition inert (f : InertFn) (s : State) : Res (State * PluginStatus) :=
  Ok (s, LDPS_OK).

(** [*view = file.mf->data] *)
Definition get_view (handle : ptr) (s : State) : Res (State * PluginStatus) :=
  do file <- lookup_obj (ctx s) handle;
  match mf file with
  | Some _ => Ok (s, LDPS_OK)
  | None => Err Undefined
  end.

(** One callback: the function of this file behind it runs on the session;
    what it writes into the caller's own arrays stays with the caller. *)
Definition run_callback (cb : Callback) (s : State) : Res State :=
  match cb with
  | CbMessage level fmt => do '(s', _) <- message level fmt s; Ok s'
  | CbRegisterClaimFileHook fn =>
      do '(s', _) <- register_claim_file_hook fn s; Ok s'
  | CbRegisterAllSymbolsReadHook fn =>
      do '(s', _) <- register_all_symbols_read_hook fn s; Ok s'
  | CbRegisterCleanupHook fn =>
      do '(s', _) <- register_cleanup_hook fn s; Ok s'
  | CbAddSymbols handle nsyms psyms =>
      do '(s', _) <- add_symbols handle nsyms psyms s; Ok s'
  | CbAddInputFile path => do '(s', _) <- add_input_file path s; Ok s'
  | CbGetView handle => do '(s', _) <- get_view handle s; Ok s'
  | CbGetSymbolsV1 handle nsyms psyms =>
      do _ <- get_symbols_v1 (ctx s) handle nsyms psyms; Ok s
  | CbGetSymbolsV2 handle nsyms psyms =>
      do _ <- get_symbols_v2 (ctx s) handle nsyms psyms; Ok s
  | CbGetSymbolsV3 handle nsyms psyms =>
      do _ <- get_symbols_v3 (ctx s) handle nsyms psyms; Ok s
  | CbInert f => do '(s', _) <- inert f s; Ok s'
  end.

Fixpoint run_callbacks (cbs : list Callback) (s : State) : Res State :=
  match cbs with
  | [] => Ok s
  | cb :: rest => do s' <- run_callback cb s; run_callbacks rest s'
  end.

(** *** The loader *)

Definition load_plugin (s : State) : Res State :=
  do _ <- assert (phase s =? 0);
  let s := set_phase 1 s in
  let s := set_gctx true s in
  let path := plugin (arg (ctx s)) in
  let s := log_event (EvDlopen path) s in
  match dlopen sys path with
  | None => Err (Fatal "could not open plugin file")
  | Some h =>
      let s := set_dlopen_handle (Some h) s in
      let s := log_event (EvDlsym "onload") s in
      if negb (dlsym_onload sys h)
      then Err (Fatal ("failed to load plugin " +:+ path))
      else
        let tv := plugin_table (arg (ctx s)) in
        let s := log_event (EvOnload tv) s in
        run_callbacks (onload backend tv) s
  end.

(** [std::call_once(flag, [&] { load_plugin(ctx); })] *)
Definition call_once_load_plugin (s : State) : Res State :=
  if flag s then Ok s
  else do s' <- load_plugin s; Ok (set_flag true s').

(** *** Ingestion *)

(** [new ObjectFile<E>]: empty vectors, a null [mf], and whatever the
    constructor leaves in the other members. *)
Definition new_ObjectFile : ObjectFile :=
  {| symbols := []; first_global := 0; is_lto_obj := false; mf := None;
     elf_syms := []; sym_fragments := []; symvers := [];
     priority := new_priority sys; is_alive := new_is_alive sys |}.

(** The first half of [read_lto_object], up to [assert(claimed)]: the
    loader runs if it has not, the object and the plugin's view of the file
    are made, and the claim hook is called. The result is the session as
    the hook leaves it, and the new object's address. *)
Definition read_lto_object_claim (mf0 : MappedFile) (s : State)
  : Res (State * ptr) :=
  if decide (plugin (arg (ctx s)) = "")
  then Err (Fatal (mf_name mf0 +:+ ": don't know how to handle this LTO object file"))
  else
    (* dlopen the linker plugin file *)
    do s <- call_once_load_plugin s;
    (* Create mold's object instance *)
    let p := fresh (dom (files (ctx s))) in
    let obj :=
      {| symbols := symbols new_ObjectFile ++ [SymNew]; first_global := 1;
         is_lto_obj := true; mf := Some mf0;
         elf_syms := elf_syms new_ObjectFile;
         sym_fragments := sym_fragments new_ObjectFile;
         symvers := symvers new_ObjectFile;
         priority := priority new_ObjectFile;
         is_alive := is_alive new_ObjectFile |} in
    let s := set_ctx (set_files (<[p := InputObject obj]> (files (ctx s))) (ctx s)) s in
    (* Create plugin's object instance *)
    let fname := default (mf_name mf0) (mf_parent mf0) in
    do fd <- match open_file sys fname with
             | Some fd => Ok fd
             | None => Err (Fatal ("cannot open " +:+ fname))
             end;
    let file :=
      {| pif_name := fname; pif_fd := fd; pif_offset := mf_offset mf0;
         pif_filesize := mf_size mf0; pif_handle := p |} in
    (* claim_file_hook() calls add_symbols() which initializes plugin_symbols *)
    do hook <- match claim_file_hook s with
               | Some fn => Ok fn
               | None => Err Undefined
               end;
    let '(cbs, claimed, st) := claim_file backend hook file in
    do s <- run_callbacks cbs s;
    do _ <- assert claimed;
    Ok (s, p).

(** The second half: the object's symbols are made from [plugin_symbols],
    and the list is cleared. *)
Definition read_lto_object_symbols (p : ptr) (s : State) : Res (State * ptr) :=
  do obj <- lookup_obj (ctx s) p;
  let '(c, esyms, syms) :=
    read_symbols (target sys) (plugin_symbols s) (ctx s) [esym_zero]
      (symbols obj) in
  let obj :=
    {| symbols := syms; first_global := first_global obj;
       is_lto_obj := is_lto_obj obj; mf := mf obj;
       elf_syms := esyms;
       sym_fragments := resize (length esyms) (None, 0) (sym_fragments obj);
       symvers := resize (length esyms) None (symvers obj);
       priority := priority obj; is_alive := is_alive obj |} in
  let c := set_files (<[p := InputObject obj]> (files c)) c in
  Ok (set_plugin_symbols [] (set_ctx c s), p).

Definition read_lto_object (mf0 : MappedFile) (s : State) : Res (State * ptr) :=
  do '(s, p) <- read_lto_object_claim mf0 s;
  read_lto_object_symbols p s.

(** *** The compilation driver *)

Definition do_lto (s : State) : Res State :=
  do _ <- assert (phase s =? 1);
  let s := set_phase 2 s in
  (* all_symbols_read_hook() calls add_input_file() and add_input_library() *)
  do hook <- match all_symbols_read_hook s with
             | Some fn => Ok fn
             | None => Err Undefined
             end;
  do s <- run_callbacks (all_symbols_read backend hook) s;
  (* Remove IR object files *)
  do c <- mark_ir_dead (objs (ctx s)) (ctx s);
  do l <- erase_if_lto_obj c (objs c);
  Ok (set_ctx (set_objs l c) s).

Definition lto_cleanup (s : State) : Res State :=
  match cleanup_hook s with
  | Some fn => run_callbacks (cleanup backend fn) s
  | None => Ok s
  end.

(** *** Runs of the session *)

Definition step (op : Op) (s : State) : Res State :=
  match op with
  | OpReadLtoObject mf0 => do '(s', _) <- read_lto_object mf0 s; Ok s'
  | OpDoLto => do_lto s
  | OpLtoCleanup => lto_cleanup s
  | OpLinker f => Ok (set_ctx (f (ctx s)) s)
  end.

Fixpoint run (ops : list Op) (s : State) : Res State :=
  match ops with
  | [] => Ok s
  | op :: rest => do s' <- step op s; run rest s'
  end.

End Session.

(** ** Predicates used in the statements *)

(** The object at [p] is flagged is_lto_obj. *)
Definition is_ir (c : Context) (p : ptr) : bool :=
  match files c !! p with
  | Some (InputObject o) => is_lto_obj o
  | _ => false
  end.

(** What a callback from the backend can change: it leaves phase, once-flag,
    loader log and configuration alone, never lowers the priority counter,
    only appends to the active set, and keeps every object in memory. *)
Definition callback_frame (s s' : State) : Prop :=
  phase s' = phase s ∧ flag s' = flag s ∧ loader_log s' = loader_log s ∧
  arg (ctx s') = arg (ctx s) ∧
  file_priority s ≤ file_priority s' ∧
  (∃ added, objs (ctx s') = objs (ctx s) ++ added) ∧
  (∀ p f, files (ctx s) !! p = Some f → files (ctx s') !! p = Some f).

(** What the first loop of [do_lto] does to one object in memory. *)
Definition mark_file (dead : bool) (f : InputFile) : InputFile :=
  match f with
  | InputObject o =>
      if dead && is_lto_obj o then InputObject (set_is_alive false o) else f
  | InputShared _ => f
  end.

(** What [plugin_symbols] holds after a sequence of callbacks: the records
    of the last [add_symbols] among them. *)
Definition delivered (cbs : list Callback) (before : list PluginSymbol)
  : list PluginSymbol :=
  foldl (λ acc cb,
           match cb with
           | CbAddSymbols _ nsyms psyms => take (Z.to_nat nsyms) psyms
           | _ => acc
           end) before cbs.

(** The loader's sequence, for a configuration. *)
Definition three_events (a : Args) : list LoaderEvent :=
  [EvDlopen (plugin a); EvDlsym "onload"; EvOnload (plugin_table a)].

(** The loader has not run, or it has run once. *)
Definition loader_inv (s : State) : Prop :=
  (flag s = false ∧ phase s = 0 ∧ loader_log s = []) ∨
  (flag s = true ∧ (phase s = 1 ∨ phase s = 2) ∧
   ∃ a, loader_log s = three_events a).

(** ** A small link, used to run the definitions

    Two IR objects: a.o defines [foo], b.o refers to it. The backend
    registers its three hooks, enumerates one symbol per claimed file, and
    hands back one compiled object, c.o, which defines [foo] and [bar]. *)

Definition psym_foo (k : PluginSymbolKind) : PluginSymbol :=
  {| name := "foo"; def := k; symbol_type := LDST_FUNCTION;
     visibility := LDPV_DEFAULT; size := 8; resolution := LDPR_UNKNOWN |}.

(** A record whose size needs more than 32 bits. *)
Definition psym_wide (k : PluginSymbolKind) : PluginSymbol :=
  {| name := "wide"; def := k; symbol_type := LDST_VARIABLE;
     visibility := LDPV_HIDDEN; size := 2 ^ 32 + 5; resolution := LDPR_UNKNOWN |}.

(** The record that agrees with [psym_wide LDPK_DEF] in everything but the
    bits of the size above the 32nd. *)
Definition psym_narrow : PluginSymbol :=
  {| name := "wide"; def := LDPK_DEF; symbol_type := LDST_VARIABLE;
     visibility := LDPV_HIDDEN; size := 5; resolution := LDPR_UNKNOWN |}.

(** A record that differs from [psym_foo LDPK_COMMON] in name and
    resolution only. *)
Definition psym_bar : PluginSymbol :=
  {| name := "bar"; def := LDPK_COMMON; symbol_type := LDST_FUNCTION;
     visibility := LDPV_DEFAULT; size := 8; resolution := LDPR_UNDEF |}.

Definition owned_by (p : ptr) (n : string) (m : gmap string Symbol)
  : gmap string Symbol :=
  <[n := {| file := Some p |}]> m.

Definition demo_compiled : ObjectFile :=
  {| symbols := [SymNew; SymNamed "foo"; SymNamed "bar"]; first_global := 1;
     is_lto_obj := false; mf := None; elf_syms := []; sym_fragments := [];
     symvers := []; priority := 0; is_alive := false |}.

Definition demo_sys : System :=
  {| target := X86_64;
     dlopen := fun path =>
       if decide (path = "plugin.so") then Some 7%nat else None;
     dlsym_onload := fun _ => true;
     open_file := fun _ => Some 3;
     create_object := fun path =>
       if decide (path = "c.o") then Some demo_compiled else None;
     resolve_symbols := fun p o m => owned_by p "foo" (owned_by p "bar" m);
     new_priority := 0;
     new_is_alive := false |}.

Definition demo_backend : Backend :=
  {| onload := fun _ =>
       [CbRegisterClaimFileHook 1%nat; CbRegisterAllSymbolsReadHook 2%nat;
        CbRegisterCleanupHook 3%nat];
     claim_file := fun _ f =>
       ([CbAddSymbols (pif_handle f) 1
           [psym_foo (if decide (pif_name f = "a.o")
                      then LDPK_DEF else LDPK_UNDEF)]],
        true, LDPS_OK);
     all_symbols_read := fun _ => [CbAddInputFile "c.o"];
     cleanup := fun _ => [] |}.

Definition demo_args : Args :=
  {| plugin := "plugin.so"; shared := false; pie := false;
     plugin_opt := ["-O2"]; output := "a.out" |}.

Definition demo_ctx : Context :=
  {| arg := demo_args; objs := []; obj_pool := []; symbol_map := ∅;
     files := ∅ |}.

Definition mf_a : MappedFile :=
  {| mf_name := "a.o"; mf_parent := None; mf_offset := 0; mf_size := 10 |}.

Definition mf_b : MappedFile :=
  {| mf_name := "b.o"; mf_parent := None; mf_offset := 0; mf_size := 10 |}.

(** [file->is_alive = true], done by the reader of the command line. *)
Definition revive (f : InputFile) : InputFile :=
  match f with
  | InputObject o => InputObject (set_is_alive true o)
  | InputShared _ => f
  end.

(** The linker's share after ingestion: both objects enter the active set
    alive, and ordinary resolution makes a.o (at address 0) the owner of
    [foo]. *)
Definition demo_adopt (c : Context) : Context :=
  set_files (alter revive 0%nat (alter revive 1%nat (files c)))
    (set_symbol_map (owned_by 0%nat "foo" (symbol_map c))
       (set_objs [0%nat; 1%nat] c)).

(** An IR object as ingestion leaves it, with [n] as its only named symbol. *)
Definition ir_object (n : string) (alive : bool) : ObjectFile :=
  {| symbols := [SymNew; SymNamed n]; first_global := 1; is_lto_obj := true;
     mf := None; elf_syms := [esym_zero; esym_zero];
     sym_fragments := [(None, 0); (None, 0)]; symvers := [None; None];
     priority := 0; is_alive := alive |}.

(** A regular object that defines [baz] and [qux], a shared object, and two
    live IR objects, of which the one at address 0 owns [foo]; [foo], [baz]
    and [qux] are owned, [nobody] is not. *)
Definition mixed_ctx : Context :=
  {| arg := demo_args; objs := [0%nat; 1%nat; 2%nat]; obj_pool := [];
     symbol_map :=
       owned_by 0%nat "foo" (owned_by 2%nat "baz" (owned_by 3%nat "qux"
         (<["nobody" := {| file := None |}]> ∅)));
     files :=
       <[0%nat := InputObject (ir_object "foo" true)]>
       (<[1%nat := InputObject
            {| symbols := [SymNew; SymNamed "foo"; SymNamed "baz";
                           SymNamed "qux"; SymNamed "nobody"];
               first_global := 1; is_lto_obj := true; mf := None;
               elf_syms := []; sym_fragments := []; symvers := [];
               priority := 0; is_alive := true |}]>
       (<[2%nat := InputObject demo_compiled]>
       (<[3%nat := InputShared "libc.so"]>
       (<[4%nat := InputObject (ir_object "foo" false)]> ∅)))) |}.

(** The small link, run: the states after the two ingestions, after the
    linker adopted the objects, and after compilation. *)
Definition state_of (r : Res State) (d : State) : State :=
  match r with Ok s => s | Err _ => d end.

Definition demo_collected : State := Eval vm_compute in
    state_of (run demo_sys demo_backend
                [OpReadLtoObject mf_a; OpReadLtoObject mf_b; OpLinker demo_adopt]
                (initial_state demo_ctx))
             (initial_state demo_ctx).

Definition demo_linked : State := Eval vm_compute in
    state_of (do_lto demo_sys demo_backend demo_collected) demo_collected.

Definition demo_ingested_a : State := Eval vm_compute in
    state_of (run demo_sys demo_backend [OpReadLtoObject mf_a]
                (initial_state demo_ctx))
             (initial_state demo_ctx).

Definition demo_ingested_ab : State := Eval vm_compute in
    state_of (run demo_sys demo_backend [OpReadLtoObject mf_b] demo_ingested_a)
             demo_ingested_a.

Definition demo_handed_back : State := Eval vm_compute in
    state_of (run_callbacks demo_sys [CbAddInputFile "c.o"] demo_collected)
             demo_collected.

(** The small link with a regular object between the two IR objects. *)
Definition demo_adopt_regular (c : Context) : Context :=
  set_files (<[5%nat := InputObject demo_compiled]>
               (alter revive 0%nat (alter revive 1%nat (files c))))
    (set_symbol_map (owned_by 0%nat "foo" (symbol_map c))
       (set_objs [0%nat; 5%nat; 1%nat] c)).

Definition demo_mixed_collected : State := Eval vm_compute in
    state_of (run demo_sys demo_backend
                [OpReadLtoObject mf_a; OpReadLtoObject mf_b;
                 OpLinker demo_adopt_regular]
                (initial_state demo_ctx))
             (initial_state demo_ctx).

Definition demo_mixed_linked : State := Eval vm_compute in
    state_of (do_lto demo_sys demo_backend demo_mixed_collected)
             demo_mixed_collected.

(** ** Further predicates and inputs *)

(** The paths that a sequence of callbacks hands back, in order. *)
Definition handoff_paths (cbs : list Callback) : list string :=
  omap (λ cb, match cb with CbAddInputFile path => Some path | _ => None end) cbs.

(** Every member of the active set points to a file in memory. *)
Definition objs_in_memory (c : Context) : Prop :=
  ∀ q, q ∈ objs c → is_Some (files c !! q).

(** The object of [read_lto_object] before the claim hook is called. *)
Definition new_ir_object (sys : System) (mf0 : MappedFile) : ObjectFile :=
  {| symbols := [SymNew]; first_global := 1; is_lto_obj := true;
     mf := Some mf0; elf_syms := []; sym_fragments := []; symvers := [];
     priority := new_priority sys; is_alive := new_is_alive sys |}.

(** The PluginInputFile that [read_lto_object] passes to the claim hook. *)
Definition offered_file (mf0 : MappedFile) (fd : Z) (p : ptr) : PluginInputFile :=
  {| pif_name := default (mf_name mf0) (mf_parent mf0); pif_fd := fd;
     pif_offset := mf_offset mf0; pif_filesize := mf_size mf0;
     pif_handle := p |}.

Global Instance PluginTag_eq_dec : EqDecision PluginTag.
Proof. solve_decision. Defined.

(** The option strings of a table, in order. *)
Definition table_options (tv : list PluginTagValue) : list string :=
  omap (λ e, match e with
             | (LDPT_OPTION, TvString opt) => Some opt
             | _ => None
             end) tv.

(** The statics hold the library that the loader opened. *)
Definition library_recorded (sys : System) (s : State) : Prop :=
  gctx s = true ∧
  ∃ a h, loader_log s = three_events a ∧ plugin a ≠ "" ∧
         dlopen sys (plugin a) = Some h ∧ dlsym_onload sys h = true ∧
         dlopen_handle s = Some h.


(** The small link without a plugin on the command line. *)
Definition no_plugin_ctx : Context :=
  {| arg := {| plugin := ""; shared := false; pie := false;
               plugin_opt := []; output := "a.out" |};
     objs := []; obj_pool := []; symbol_map := ∅; files := ∅ |}.


(** A member of an archive. *)
Definition mf_member : MappedFile :=
  {| mf_name := "m.o"; mf_parent := Some "lib.a"; mf_offset := 64;
     mf_size := 10 |}.

(** The small link while the all-symbols-read hook has handed back c.o. *)
Definition demo_compiling : State := Eval vm_compute in
    state_of (run_callbacks demo_sys [CbAddInputFile "c.o"]
                (set_phase 2 demo_collected))
             demo_collected.

(** A backend whose claim hook claims b.o without enumerating its symbols. *)
Definition silent_backend : Backend :=
  {| onload := onload demo_backend;
     claim_file := fun fn f =>
       if decide (pif_name f = "b.o") then ([], true, LDPS_OK)
       else claim_file demo_backend fn f;
     all_symbols_read := all_symbols_read demo_backend;
     cleanup := cleanup demo_backend |}.

(** The small link with that backend: after a.o was ingested and compiled,
    and after b.o was ingested then. *)
Definition demo_silent_linked : State := Eval vm_compute in
    state_of (run demo_sys silent_backend [OpReadLtoObject mf_a; OpDoLto]
                (initial_state demo_ctx))
             (initial_state demo_ctx).

Definition demo_silent_late : State := Eval vm_compute in
    state_of (run demo_sys silent_backend [OpReadLtoObject mf_b]
                demo_silent_linked)
             demo_silent_linked.






(** ** The handoffs of a run *)

Section Handoffs.

Variable sys : System.
Variable backend : Backend.





End Handoffs.

(** * Properties *)

(** ** Properties of the result monad *)

Lemma bind_ok {A B} (m : Res A) (k : A → Res B) (b : B) :
  bind m k = Ok b → ∃ a, m = Ok a ∧ k a = Ok b.
Proof. destruct m as [a|e]; simpl; [eauto | discriminate]. Qed.

Lemma assert_ok (b : bool) : assert b = Ok tt → b = true.
Proof. destruct b; [done | discriminate]. Qed.

(** ** The resolution bridge *)

Lemma preempt_loop_spec (n : nat) :
  ∀ (i : nat) (psyms : list PluginSymbol),
    (i + n ≤ length psyms)%nat →
    ∃ psyms', preempt_loop n i psyms = Ok psyms' ∧
      length psyms' = length psyms ∧
      ∀ j : nat, psyms' !! j =
        if decide (i ≤ j < i + n)%nat
        then set_resolution LDPR_PREEMPTED_REG <$> psyms !! j
        else psyms !! j.
Proof.
  induction n as [|n IH]; intros i psyms Hlen; simpl.
  - exists psyms. split_and!; [done..|]. intros j. case_decide; [lia | done].
  - destruct (lookup_lt_is_Some_2 psyms i) as [psym Hi]; [lia|].
    rewrite Hi.
    destruct (IH (S i) (<[i:=set_resolution LDPR_PREEMPTED_REG psym]> psyms))
      as (psyms' & Hrun & Hl & Hj).
    { rewrite length_insert. lia. }
    exists psyms'. split_and!; [done | by rewrite Hl, length_insert |].
    intros j. rewrite Hj.
    destruct (decide (j = i)) as [->|Hne].
    + rewrite list_lookup_insert_eq by lia. rewrite Hi.
      repeat case_decide; try lia; done.
    + rewrite list_lookup_insert_ne by done.
      repeat case_decide; try lia; done.
Qed.

Lemma preempt_loop_err (n : nat) :
  ∀ i psyms e, preempt_loop n i psyms = Err e → e = Undefined.
Proof.
  induction n as [|n IH]; intros i psyms e; simpl; [discriminate|].
  destruct (psyms !! i); [apply IH | congruence].
Qed.

Lemma deref_sym_err c sp e : deref_sym c sp = Err e → e = Undefined.
Proof.
  destruct sp as [|n]; simpl; [discriminate|].
  destruct (symbol_map c !! n); congruence.
Qed.

Lemma get_resolution_err c handle psym sym e :
  get_resolution c handle psym sym = Err e → e = Undefined.
Proof.
  unfold get_resolution. destruct (file sym) as [q|]; [|discriminate].
  case_decide; [discriminate|].
  destruct (files c !! q) as [[o|so]|]; [destruct (is_lto_obj o)|..]; congruence.
Qed.

Lemma lookup_obj_err c p e : lookup_obj c p = Err e → e = Undefined.
Proof.
  unfold lookup_obj. destruct (files c !! p) as [[o|so]|]; congruence.
Qed.

Lemma lookup_obj_ok c p o :
  lookup_obj c p = Ok o ↔ files c !! p = Some (InputObject o).
Proof.
  unfold lookup_obj. destruct (files c !! p) as [[o'|so]|]; split; congruence.
Qed.

Lemma resolve_loop_err c handle syms (n : nat) :
  ∀ i psyms e, resolve_loop c handle syms n i psyms = Err e → e = Undefined.
Proof.
  induction n as [|n IH]; intros i psyms e; simpl; [discriminate|].
  destruct (psyms !! i) as [psym|]; [|congruence].
  destruct (syms !! (i + 1)%nat) as [sp|]; [|congruence].
  destruct (deref_sym c sp) as [sym|e'] eqn:Hd; simpl.
  - destruct (get_resolution c handle psym sym) as [r|e''] eqn:Hr; simpl.
    + apply IH.
    + intros [= <-]. eauto using get_resolution_err.
  - intros [= <-]. eauto using deref_sym_err.
Qed.

Lemma get_resolution_ok c handle psym sym :
  (∀ q, file sym = Some q → is_Some (files c !! q)) →
  ∃ r, get_resolution c handle psym sym = Ok r.
Proof.
  intros Hq. unfold get_resolution. destruct (file sym) as [q|]; [|eauto].
  case_decide; [eauto|].
  destruct (Hq q eq_refl) as [[o|so] ->]; [destruct (is_lto_obj o)|]; eauto.
Qed.

Lemma resolve_loop_spec c handle syms (n : nat) :
  ∀ (i : nat) (psyms : list PluginSymbol),
    ((0 < n)%nat → (i + n + 1 ≤ length syms)%nat) →
    (i + n ≤ length psyms)%nat →
    (∀ (j : nat) sp, (i < j ≤ i + n)%nat → syms !! j = Some sp → owner_known c sp) →
    ∃ psyms', resolve_loop c handle syms n i psyms = Ok psyms' ∧
      length psyms' = length psyms ∧
      (∀ j : nat, ¬ (i ≤ j < i + n)%nat → psyms' !! j = psyms !! j) ∧
      (∀ j : nat, (i ≤ j < i + n)%nat →
         ∃ psym sp sym r,
           psyms !! j = Some psym ∧ syms !! (j + 1)%nat = Some sp ∧
           deref_sym c sp = Ok sym ∧
           get_resolution c handle psym sym = Ok r ∧
           psyms' !! j = Some (set_resolution r psym)).
Proof.
  induction n as [|n IH]; intros i psyms Hs Hp Hown; simpl.
  - exists psyms. split_and!; [done..|]. intros j ?; lia.
  - destruct (lookup_lt_is_Some_2 psyms i) as [psym Hi]; [lia|].
    destruct (lookup_lt_is_Some_2 syms (i + 1)) as [sp Hsp]; [lia|].
    rewrite Hi, Hsp.
    destruct (Hown (i + 1)%nat sp) as (sym & Hd & Hq); [lia | done |].
    rewrite Hd; simpl.
    destruct (get_resolution_ok c handle psym sym Hq) as [r Hr].
    rewrite Hr; simpl.
    destruct (IH (S i) (<[i:=set_resolution r psym]> psyms))
      as (psyms' & Hrun & Hl & Hout & Hin).
    { lia. } { rewrite length_insert. lia. }
    { intros j sp' ? ?. apply (Hown j); [lia | done]. }
    exists psyms'. split_and!; [done | by rewrite Hl, length_insert | |].
    + intros j Hj. rewrite Hout by lia.
      apply list_lookup_insert_ne. lia.
    + intros j Hj. destruct (decide (j = i)) as [->|Hne].
      * exists psym, sp, sym, r. split_and!; [done..|].
        rewrite Hout by lia. apply list_lookup_insert_eq. lia.
      * destruct (Hin j) as (psym' & sp' & sym' & r' & H1 & H2 & H3 & H4 & H5);
          [lia|].
        rewrite list_lookup_insert_ne in H1 by done.
        exists psym', sp', sym', r'. done.
Qed.

Lemma resolve_loop_overrun c handle syms (n : nat) :
  ∀ (i : nat) (psyms : list PluginSymbol),
    (0 < n)%nat → (length syms < i + n + 1)%nat →
    resolve_loop c handle syms n i psyms = Err Undefined.
Proof.
  induction n as [|n IH]; intros i psyms Hn Hs; [lia|]. simpl.
  destruct (psyms !! i) as [psym|]; [|done].
  destruct (syms !! (i + 1)%nat) as [sp|] eqn:Hsp; [|done].
  apply lookup_lt_Some in Hsp.
  destruct (deref_sym c sp) as [sym|e] eqn:Hd; simpl;
    [|by rewrite (deref_sym_err _ _ _ Hd)].
  destruct (get_resolution c handle psym sym) as [r|e] eqn:Hr; simpl;
    [|by rewrite (get_resolution_err _ _ _ _ _ Hr)].
  apply IH; lia.
Qed.

Lemma get_symbols_err c handle nsyms psyms e :
  get_symbols c handle nsyms psyms = Err e → e = Undefined.
Proof.
  unfold get_symbols.
  destruct (lookup_obj c handle) as [o|e'] eqn:Ho; simpl;
    [|intros [= <-]; eauto using lookup_obj_err].
  destruct (is_alive o); simpl.
  - destruct (resolve_loop _ _ _ _ _ _) eqn:Hr; simpl; [discriminate|].
    intros [= <-]. eauto using resolve_loop_err.
  - destruct (preempt_loop _ _ _) eqn:Hr; simpl; [discriminate|].
    intros [= <-]. eauto using preempt_loop_err.
Qed.


(** C4, as stated, fails: on the I386 instantiation [st_size] has 32 bits,
    and a record of size 2^32 + 5 gets an ELF symbol of size 5. *)
Lemma C4_counterexample :
  size (psym_wide LDPK_DEF) = 2 ^ 32 + 5 ∧
  st_size (to_elf_sym I386 (psym_wide LDPK_DEF)) = 5 ∧
  st_size (to_elf_sym I386 (psym_wide LDPK_DEF)) ≠ size (psym_wide LDPK_DEF).
Proof. split_and!; [reflexivity | reflexivity | discriminate]. Qed.

(** C4, amended: [to_elf_sym] maps the definition kind to the section index
    and the binding (absolute, undefined or common index; weak exactly for
    the two weak kinds), the symbol type unknown, function, variable to
    none, function, object, and the visibility to the ELF visibility of the
    same name, on every target; the size is stored in the width of the
    target's [st_size], that is modulo 2^32 on I386 and modulo 2^64 on the
    other targets: it is copied as it is exactly when it is below that
    bound, so always on the 64-bit targets (the record's size is a u64),
    and on I386 for the sizes below 2^32 only. *)
Theorem C4_to_elf_sym_mapping (E : Target) (psym : PluginSymbol) :
  let esym := to_elf_sym E psym in
  match def psym with
  | LDPK_DEF =>
      st_shndx esym = SHN_ABS ∧ (st_bind esym =? STB_WEAK) = false
  | LDPK_WEAKDEF =>
      st_shndx esym = SHN_ABS ∧ st_bind esym = STB_WEAK
  | LDPK_UNDEF =>
      st_shndx esym = SHN_UNDEF ∧ (st_bind esym =? STB_WEAK) = false
  | LDPK_WEAKUNDEF =>
      st_shndx esym = SHN_UNDEF ∧ st_bind esym = STB_WEAK
  | LDPK_COMMON =>
      st_shndx esym = SHN_COMMON ∧ (st_bind esym =? STB_WEAK) = false
  end
  ∧ st_type esym =
      match symbol_type psym with
      | LDST_UNKNOWN => STT_NOTYPE
      | LDST_FUNCTION => STT_FUNC
      | LDST_VARIABLE => STT_OBJECT
      end
  ∧ st_visibility esym =
      match visibility psym with
      | LDPV_DEFAULT => STV_DEFAULT
      | LDPV_PROTECTED => STV_PROTECTED
      | LDPV_INTERNAL => STV_INTERNAL
      | LDPV_HIDDEN => STV_HIDDEN
      end
  ∧ st_size esym = size psym mod 2 ^ st_size_bits E
  ∧ (0 ≤ size psym < 2 ^ 64 →
     (st_size esym = size psym ↔ size psym < 2 ^ st_size_bits E))
  ∧ (E ≠ I386 → 0 ≤ size psym < 2 ^ 64 → st_size esym = size psym)
  ∧ (E = I386 → 0 ≤ size psym < 2 ^ 32 → st_size esym = size psym).
Proof.
  assert (Hsz : st_size (to_elf_sym E psym) = size psym mod 2 ^ st_size_bits E).
  { destruct psym as [n d t v sz r]; unfold to_elf_sym; simpl.
    destruct d, t, v; reflexivity. }
  assert (Hbits : 0 < 2 ^ st_size_bits E) by (destruct E; simpl; lia).
  cbv zeta. rewrite Hsz. split_and!.
  - destruct psym as [n d t v sz r]; unfold to_elf_sym; simpl.
    destruct d, t, v; simpl; auto.
  - destruct psym as [n d t v sz r]; unfold to_elf_sym; simpl.
    destruct d, t, v; reflexivity.
  - destruct psym as [n d t v sz r]; unfold to_elf_sym; simpl.
    destruct d, t, v; reflexivity.
  - reflexivity.
  - intros Hr. split.
    + intros Heq. rewrite <- Heq. apply Z.mod_pos_bound. exact Hbits.
    + intros Hlt. apply Z.mod_small. lia.
  - intros HE Hr. apply Z.mod_small. destruct E; simpl; done || lia.
  - intros -> Hr. apply Z.mod_small. simpl. lia.
Qed.

Lemma C4_witness :
  st_size (to_elf_sym X86_64 (psym_wide LDPK_DEF)) = 2 ^ 32 + 5 ∧
  st_size (to_elf_sym I386 (psym_foo LDPK_DEF)) = 8 ∧
  ¬ (st_size (to_elf_sym I386 (psym_wide LDPK_DEF)) = size (psym_wide LDPK_DEF)).
Proof.
  pose proof (C4_to_elf_sym_mapping X86_64 (psym_wide LDPK_DEF))
    as (_ & _ & _ & _ & _ & H64 & _).
  pose proof (C4_to_elf_sym_mapping I386 (psym_foo LDPK_DEF))
    as (_ & _ & _ & _ & _ & _ & H32).
  pose proof (C4_to_elf_sym_mapping I386 (psym_wide LDPK_DEF))
    as (_ & _ & _ & _ & Hiff & _).
  split_and!.
  - apply H64; [discriminate | vm_compute; split; [discriminate | reflexivity]].
  - apply (H32 eq_refl). vm_compute; split; [discriminate | reflexivity].
  - intros Heq.
    apply Hiff in Heq; [|vm_compute; split; [discriminate | reflexivity]].
    vm_compute in Heq. discriminate.
Defined.

(** C2: a query on an object whose is_alive flag is false writes
    LDPR_PREEMPTED_REG into the resolution of every requested record,
    changes nothing else of them, and returns LDPS_NO_SYMS;
    [get_symbols_v2] turns exactly that status into LDPS_OK and returns
    every other status as it is; [get_symbols_v3] returns what
    [get_symbols] returns. *)
Theorem C2_retired_object_is_preempted (c : Context) (handle : ptr)
    (nsyms : Z) (psyms : list PluginSymbol) :
  (∀ o, lookup_obj c handle = Ok o → is_alive o = false →
        nsyms ≤ Z.of_nat (length psyms) →
        ∃ psyms',
          get_symbols c handle nsyms psyms = Ok (psyms', LDPS_NO_SYMS) ∧
          get_symbols_v2 c handle nsyms psyms = Ok (psyms', LDPS_OK) ∧
          get_symbols_v3 c handle nsyms psyms = Ok (psyms', LDPS_NO_SYMS) ∧
          length psyms' = length psyms ∧
          (∀ i : nat, Z.of_nat i < nsyms →
             ∃ psym psym',
               psyms !! i = Some psym ∧ psyms' !! i = Some psym' ∧
               resolution psym' = LDPR_PREEMPTED_REG ∧
               name psym' = name psym ∧ def psym' = def psym ∧
               symbol_type psym' = symbol_type psym ∧
               visibility psym' = visibility psym ∧ size psym' = size psym) ∧
          (∀ i : nat, nsyms ≤ Z.of_nat i → psyms' !! i = psyms !! i))
  ∧ get_symbols_v3 c handle nsyms psyms = get_symbols c handle nsyms psyms
  ∧ (∀ psyms' st, get_symbols c handle nsyms psyms = Ok (psyms', st) →
       get_symbols_v2 c handle nsyms psyms =
         Ok (psyms', match st with LDPS_NO_SYMS => LDPS_OK | _ => st end))
  ∧ (∀ e, get_symbols c handle nsyms psyms = Err e →
       get_symbols_v2 c handle nsyms psyms = Err e).
Proof.
  split_and!.
  - intros o Ho Hdead Hn.
    destruct (preempt_loop_spec (Z.to_nat nsyms) 0 psyms)
      as (psyms' & Hrun & Hl & Hj); [lia|].
    assert (Hg : get_symbols c handle nsyms psyms = Ok (psyms', LDPS_NO_SYMS)).
    { unfold get_symbols. rewrite Ho; simpl. rewrite Hdead; simpl.
      by rewrite Hrun. }
    exists psyms'. unfold get_symbols_v2, get_symbols_v3. rewrite Hg; simpl.
    split_and!; try done.
    + intros i Hi.
      destruct (lookup_lt_is_Some_2 psyms i) as [psym Hp]; [lia|].
      exists psym, (set_resolution LDPR_PREEMPTED_REG psym).
      split_and!; try done.
      rewrite Hj, Hp. case_decide; [done | lia].
    + intros i Hi. rewrite Hj. case_decide; [lia | done].
  - done.
  - intros psyms' st Hg. unfold get_symbols_v2. rewrite Hg; simpl.
    by destruct st.
  - intros e Hg. unfold get_symbols_v2. by rewrite Hg.
Qed.

Lemma C2_witness :
  lookup_obj mixed_ctx 4%nat = Ok (ir_object "foo" false) ∧
  is_alive (ir_object "foo" false) = false ∧
  2 ≤ Z.of_nat (length [psym_foo LDPK_DEF; psym_foo LDPK_UNDEF]) ∧
  ∃ psyms',
    get_symbols mixed_ctx 4%nat 2 [psym_foo LDPK_DEF; psym_foo LDPK_UNDEF]
      = Ok (psyms', LDPS_NO_SYMS) ∧
    get_symbols_v2 mixed_ctx 4%nat 2 [psym_foo LDPK_DEF; psym_foo LDPK_UNDEF]
      = Ok (psyms', LDPS_OK) ∧
    get_symbols_v3 mixed_ctx 4%nat 2 [psym_foo LDPK_DEF; psym_foo LDPK_UNDEF]
      = Ok (psyms', LDPS_NO_SYMS) ∧
    resolution <$> psyms' = [LDPR_PREEMPTED_REG; LDPR_PREEMPTED_REG] ∧
    def <$> psyms' = [LDPK_DEF; LDPK_UNDEF].
Proof.
  split_and!; [reflexivity | reflexivity | simpl; lia |].
  destruct (proj1 (C2_retired_object_is_preempted mixed_ctx 4%nat 2
                     [psym_foo LDPK_DEF; psym_foo LDPK_UNDEF])
              (ir_object "foo" false))
    as (psyms' & Hg & Hv2 & Hv3 & Hl & Hin & _);
    [reflexivity | reflexivity | simpl; lia |].
  exists psyms'. split_and!; [exact Hg | exact Hv2 | exact Hv3 | |].
  - destruct (Hin 0%nat) as (x0 & y0 & _ & Hy0 & Hr0 & _); [lia|].
    destruct (Hin 1%nat) as (x1 & y1 & _ & Hy1 & Hr1 & _); [lia|].
    destruct psyms' as [|a [|b [|? ?]]]; try discriminate Hl.
    simpl in Hy0, Hy1. injection Hy0 as ->. injection Hy1 as ->.
    simpl. rewrite Hr0, Hr1. reflexivity.
  - destruct (Hin 0%nat) as (x0 & y0 & Hx0 & Hy0 & _ & _ & Hd0 & _); [lia|].
    destruct (Hin 1%nat) as (x1 & y1 & Hx1 & Hy1 & _ & _ & Hd1 & _); [lia|].
    destruct psyms' as [|a [|b [|? ?]]]; try discriminate Hl.
    simpl in Hx0, Hx1, Hy0, Hy1.
    injection Hy0 as ->. injection Hy1 as ->.
    injection Hx0 as <-. injection Hx1 as <-.
    simpl. rewrite Hd0, Hd1. reflexivity.
Defined.

(** C1: a query on a live object classifies each requested record [i] from
    the owner that the link-wide symbol table holds for the object's symbol
    [i + 1], and writes the class into the record's resolution, changing
    nothing else of it: no owner, LDPR_UNDEF; the queried object itself,
    LDPR_PREVAILING_DEF; a shared object, LDPR_RESOLVED_DYN; another IR
    object, LDPR_RESOLVED_IR; any other object, LDPR_RESOLVED_EXEC; and it
    returns LDPS_OK. *)
Theorem C1_live_query_classifies_by_owner (c : Context) (handle : ptr)
    (o : ObjectFile) (nsyms : Z) (psyms : list PluginSymbol) :
  lookup_obj c handle = Ok o →
  is_alive o = true →
  nsyms + 1 ≤ Z.of_nat (length (symbols o)) →
  nsyms ≤ Z.of_nat (length psyms) →
  (∀ (j : nat) n, (0 < j)%nat → Z.of_nat j ≤ nsyms →
     symbols o !! j = Some (SymNamed n) →
     ∃ sym, symbol_map c !! n = Some sym ∧
            ∀ q, file sym = Some q → is_Some (files c !! q)) →
  ∃ psyms',
    get_symbols c handle nsyms psyms = Ok (psyms', LDPS_OK) ∧
    length psyms' = length psyms ∧
    (∀ i : nat, nsyms ≤ Z.of_nat i → psyms' !! i = psyms !! i) ∧
    ∀ i : nat, Z.of_nat i < nsyms →
      ∃ psym psym' sp,
        psyms !! i = Some psym ∧ psyms' !! i = Some psym' ∧
        symbols o !! (i + 1)%nat = Some sp ∧
        (name psym' = name psym ∧ def psym' = def psym ∧
         symbol_type psym' = symbol_type psym ∧
         visibility psym' = visibility psym ∧ size psym' = size psym) ∧
        match sp with
        | SymNew => resolution psym' = LDPR_UNDEF
        | SymNamed n =>
            ∃ sym, symbol_map c !! n = Some sym ∧
              (file sym = None → resolution psym' = LDPR_UNDEF) ∧
              (file sym = Some handle → resolution psym' = LDPR_PREVAILING_DEF) ∧
              (∀ q so, file sym = Some q → q ≠ handle →
                 files c !! q = Some (InputShared so) →
                 resolution psym' = LDPR_RESOLVED_DYN) ∧
              (∀ q o', file sym = Some q → q ≠ handle →
                 files c !! q = Some (InputObject o') → is_lto_obj o' = true →
                 resolution psym' = LDPR_RESOLVED_IR) ∧
              (∀ q o', file sym = Some q → q ≠ handle →
                 files c !! q = Some (InputObject o') → is_lto_obj o' = false →
                 resolution psym' = LDPR_RESOLVED_EXEC)
        end.
Proof.
  intros Ho Halive Hs Hp Hown.
  destruct (resolve_loop_spec c handle (symbols o) (Z.to_nat nsyms) 0 psyms)
    as (psyms' & Hrun & Hl & Hout & Hin); [lia | lia | |].
  { intros j [|n] Hj Hsp.
    - exists {| file := None |}. split; [done | discriminate].
    - destruct (Hown j n) as (sym & Hsym & Hq); [lia | lia | done |].
      exists sym. split; [|done]. simpl. by rewrite Hsym. }
  exists psyms'. split_and!; [|done| |].
  { unfold get_symbols. rewrite Ho; simpl. rewrite Halive; simpl.
    by rewrite Hrun. }
  { intros i Hi. apply Hout. lia. }
  intros i Hi.
  destruct (Hin i) as (psym & sp & sym & r & H1 & H2 & H3 & H4 & H5); [lia|].
  exists psym, (set_resolution r psym), sp. split_and!; try done.
  unfold get_resolution in H4. destruct sp as [|n]; simpl in H3.
  - injection H3 as <-. simpl in *. congruence.
  - destruct (symbol_map c !! n) as [sym'|] eqn:Hn; [|discriminate].
    injection H3 as ->. exists sym. split; [done|]. simpl. split_and!.
    + intros Hf. rewrite Hf in H4. congruence.
    + intros Hf. rewrite Hf in H4. rewrite decide_True in H4 by done.
      congruence.
    + intros q so Hf Hne Hq. rewrite Hf in H4.
      rewrite decide_False, Hq in H4 by done. congruence.
    + intros q o' Hf Hne Hq Hir. rewrite Hf in H4.
      rewrite decide_False, Hq, Hir in H4 by done. congruence.
    + intros q o' Hf Hne Hq Hir. rewrite Hf in H4.
      rewrite decide_False, Hq, Hir in H4 by done. congruence.
Qed.

Lemma mixed_ctx_owner_known (j : nat) (sp : SymPtr) :
  symbols (ir_object "foo" true) !! j = Some sp ∨
  [SymNew; SymNamed "foo"; SymNamed "baz"; SymNamed "qux"; SymNamed "nobody"]
    !! j = Some sp →
  owner_known mixed_ctx sp.
Proof.
  intros [H|H];
    repeat (destruct j as [|j]; simpl in H; [injection H as <-|]);
    try discriminate;
    (eexists; split; [vm_compute; reflexivity|]);
    intros q Hq; simpl in Hq; try discriminate;
    injection Hq as <-; eexists; vm_compute; reflexivity.
Defined.

(** The owners that the table of the small link holds, each at an object in
    memory. *)
Lemma mixed_ctx_table (j : nat) (n : string) :
  [SymNew; SymNamed "foo"; SymNamed "baz"; SymNamed "qux"; SymNamed "nobody"]
    !! j = Some (SymNamed n) ∨
  symbols (ir_object "foo" true) !! j = Some (SymNamed n) →
  ∃ sym, symbol_map mixed_ctx !! n = Some sym ∧
         ∀ q, file sym = Some q → is_Some (files mixed_ctx !! q).
Proof.
  intros [H|H];
    repeat (destruct j as [|j]; simpl in H; [try discriminate H; injection H as <-|]);
    try discriminate H;
    (eexists; split; [vm_compute; reflexivity|]);
    intros q Hq; simpl in Hq; try discriminate Hq;
    injection Hq as <-; eexists; vm_compute; reflexivity.
Defined.

Lemma C1_witness :
  lookup_obj mixed_ctx 1%nat =
    Ok {| symbols := [SymNew; SymNamed "foo"; SymNamed "baz"; SymNamed "qux";
                      SymNamed "nobody"];
          first_global := 1; is_lto_obj := true; mf := None; elf_syms := [];
          sym_fragments := []; symvers := []; priority := 0;
          is_alive := true |} ∧
  lookup_obj mixed_ctx 0%nat = Ok (ir_object "foo" true) ∧
  symbol_map mixed_ctx !! "foo" = Some {| file := Some 0%nat |} ∧
  symbol_map mixed_ctx !! "baz" = Some {| file := Some 2%nat |} ∧
  symbol_map mixed_ctx !! "qux" = Some {| file := Some 3%nat |} ∧
  symbol_map mixed_ctx !! "nobody" = Some {| file := None |} ∧
  (∃ psyms',
     get_symbols mixed_ctx 1%nat 4
       [psym_foo LDPK_UNDEF; psym_foo LDPK_UNDEF; psym_foo LDPK_UNDEF;
        psym_foo LDPK_UNDEF] = Ok (psyms', LDPS_OK) ∧
     resolution <$> psyms'
     = [LDPR_RESOLVED_IR; LDPR_RESOLVED_EXEC; LDPR_RESOLVED_DYN; LDPR_UNDEF]) ∧
  (∃ psyms',
     get_symbols mixed_ctx 0%nat 1 [psym_foo LDPK_DEF] = Ok (psyms', LDPS_OK) ∧
     resolution <$> psyms' = [LDPR_PREVAILING_DEF]).
Proof.
  split_and!; try (vm_compute; reflexivity).
  - destruct (C1_live_query_classifies_by_owner mixed_ctx 1%nat _ 4
                [psym_foo LDPK_UNDEF; psym_foo LDPK_UNDEF; psym_foo LDPK_UNDEF;
                 psym_foo LDPK_UNDEF] eq_refl)
      as (psyms' & Hg & Hl & _ & Hin).
    + reflexivity.
    + simpl; lia.
    + simpl; lia.
    + intros j n _ _ Hsp. apply (mixed_ctx_table j). left. exact Hsp.
    + exists psyms'. split; [exact Hg|].
      destruct (Hin 0%nat) as (x0 & y0 & sp0 & _ & Hy0 & Hs0 & _ & Hc0); [lia|].
      destruct (Hin 1%nat) as (x1 & y1 & sp1 & _ & Hy1 & Hs1 & _ & Hc1); [lia|].
      destruct (Hin 2%nat) as (x2 & y2 & sp2 & _ & Hy2 & Hs2 & _ & Hc2); [lia|].
      destruct (Hin 3%nat) as (x3 & y3 & sp3 & _ & Hy3 & Hs3 & _ & Hc3); [lia|].
      simpl in Hs0, Hs1, Hs2, Hs3.
      injection Hs0 as <-. injection Hs1 as <-.
      injection Hs2 as <-. injection Hs3 as <-.
      destruct Hc0 as (sym0 & Hsym0 & _ & _ & _ & Hir & _).
      destruct Hc1 as (sym1 & Hsym1 & _ & _ & _ & _ & Hexec).
      destruct Hc2 as (sym2 & Hsym2 & _ & _ & Hdyn & _).
      destruct Hc3 as (sym3 & Hsym3 & Hundef & _).
      vm_compute in Hsym0, Hsym1, Hsym2, Hsym3.
      injection Hsym0 as <-. injection Hsym1 as <-.
      injection Hsym2 as <-. injection Hsym3 as <-.
      specialize (Hir 0%nat (ir_object "foo" true) eq_refl
                    ltac:(discriminate) eq_refl eq_refl).
      specialize (Hexec 2%nat demo_compiled eq_refl
                    ltac:(discriminate) eq_refl eq_refl).
      specialize (Hdyn 3%nat "libc.so" eq_refl ltac:(discriminate) eq_refl).
      specialize (Hundef eq_refl).
      destruct psyms' as [|a [|b [|d [|e [|? ?]]]]]; try discriminate Hl.
      simpl in Hy0, Hy1, Hy2, Hy3.
      injection Hy0 as ->. injection Hy1 as ->.
      injection Hy2 as ->. injection Hy3 as ->.
      simpl. rewrite Hir, Hexec, Hdyn, Hundef. reflexivity.
  - destruct (C1_live_query_classifies_by_owner mixed_ctx 0%nat _ 1
                [psym_foo LDPK_DEF] eq_refl)
      as (psyms' & Hg & Hl & _ & Hin).
    + reflexivity.
    + simpl; lia.
    + simpl; lia.
    + intros j n _ _ Hsp. apply (mixed_ctx_table j). right. exact Hsp.
    + exists psyms'. split; [exact Hg|].
      destruct (Hin 0%nat) as (x0 & y0 & sp0 & _ & Hy0 & Hs0 & _ & Hc0); [lia|].
      simpl in Hs0. injection Hs0 as <-.
      destruct Hc0 as (sym0 & Hsym0 & _ & Hprev & _).
      vm_compute in Hsym0. injection Hsym0 as <-.
      specialize (Hprev eq_refl).
      destruct psyms' as [|a [|? ?]]; try discriminate Hl.
      simpl in Hy0. injection Hy0 as ->.
      simpl. rewrite Hprev. reflexivity.
Defined.

(** The five classes on the small link: queried through the object at
    address 1, [foo] belongs to another IR object, [baz] to a regular
    object, [qux] to a shared object and [nobody] to no file; queried
    through the object at address 0, [foo] is its own. *)
Example resolution_classes :
  get_symbols mixed_ctx 1%nat 4
    [psym_foo LDPK_UNDEF; psym_foo LDPK_UNDEF; psym_foo LDPK_UNDEF;
     psym_foo LDPK_UNDEF]
  = Ok ([set_resolution LDPR_RESOLVED_IR (psym_foo LDPK_UNDEF);
         set_resolution LDPR_RESOLVED_EXEC (psym_foo LDPK_UNDEF);
         set_resolution LDPR_RESOLVED_DYN (psym_foo LDPK_UNDEF);
         set_resolution LDPR_UNDEF (psym_foo LDPK_UNDEF)], LDPS_OK)
  ∧ get_symbols mixed_ctx 0%nat 1 [psym_foo LDPK_DEF]
  = Ok ([set_resolution LDPR_PREVAILING_DEF (psym_foo LDPK_DEF)], LDPS_OK).
Proof. split; vm_compute; reflexivity. Qed.

(** A symbol defined in one live IR object and referred to from another:
    the query through the defining object answers prevailing, the query
    through the other answers resolved-to-other-IR. *)
Lemma defining_and_referencing (c : Context) (a b : ptr) (oa ob : ObjectFile)
    (n : string) (psym : PluginSymbol) :
  a ≠ b →
  files c !! a = Some (InputObject oa) →
  files c !! b = Some (InputObject ob) →
  is_lto_obj oa = true → is_alive oa = true → is_alive ob = true →
  symbols oa !! 1%nat = Some (SymNamed n) →
  symbols ob !! 1%nat = Some (SymNamed n) →
  symbol_map c !! n = Some {| file := Some a |} →
  get_symbols c a 1 [psym]
    = Ok ([set_resolution LDPR_PREVAILING_DEF psym], LDPS_OK) ∧
  get_symbols c b 1 [psym]
    = Ok ([set_resolution LDPR_RESOLVED_IR psym], LDPS_OK).
Proof.
  intros Hne Ha Hb Hir Hla Hlb Hsa Hsb Hn.
  unfold get_symbols, lookup_obj. rewrite Ha, Hb; simpl.
  rewrite Hla, Hlb; simpl. rewrite Hsa, Hsb; simpl. rewrite Hn; simpl.
  unfold get_resolution; simpl.
  rewrite decide_True by done. rewrite decide_False by done.
  rewrite Ha, Hir. done.
Qed.

(** C7, as stated, fails: the object at address 1 recorded four symbols at
    claim time; a query for one symbol succeeds with LDPS_OK, and a query
    for five indexes the symbol list past its end. Neither fails an
    assertion. *)
Lemma C7_counterexample :
  (∃ o, lookup_obj mixed_ctx 1%nat = Ok o ∧ is_alive o = true ∧
        length (symbols o) = 5%nat) ∧
  get_symbols mixed_ctx 1%nat 1 [psym_foo LDPK_UNDEF]
    = Ok ([set_resolution LDPR_RESOLVED_IR (psym_foo LDPK_UNDEF)], LDPS_OK) ∧
  get_symbols mixed_ctx 1%nat 5 (replicate 5 (psym_foo LDPK_UNDEF))
    = Err Undefined ∧
  ¬ (∀ nsyms psyms, nsyms ≠ 4 →
       get_symbols mixed_ctx 1%nat nsyms psyms = Err AssertFail).
Proof.
  split_and!; [eexists; split_and!; reflexivity | | |];
    try (vm_compute; reflexivity).
  intros H. specialize (H 1 [psym_foo LDPK_UNDEF] ltac:(lia)).
  vm_compute in H. discriminate.
Qed.

(** C7, amended: [get_symbols] does not compare the requested count with
    the count recorded at claim time, and no query ends in a failed
    assertion. On a live object a query reads the entries 1 to nsyms of the
    object's symbol list: when nsyms is at most the recorded count it returns
    LDPS_OK, also when it is smaller; when nsyms is positive and larger than
    the recorded count the index leaves the list, which is undefined
    behaviour. *)
Theorem C7_no_check_of_the_count (c : Context) (handle : ptr) (nsyms : Z)
    (psyms : list PluginSymbol) :
  get_symbols c handle nsyms psyms ≠ Err AssertFail
  ∧ (∀ o, lookup_obj c handle = Ok o → is_alive o = true →
       nsyms ≤ Z.of_nat (length (symbols o)) - 1 →
       nsyms ≤ Z.of_nat (length psyms) →
       (∀ (j : nat) sp, (0 < j)%nat → Z.of_nat j ≤ nsyms →
          symbols o !! j = Some sp → owner_known c sp) →
       ∃ psyms', get_symbols c handle nsyms psyms = Ok (psyms', LDPS_OK))
  ∧ (∀ o, lookup_obj c handle = Ok o → is_alive o = true →
       0 < nsyms → Z.of_nat (length (symbols o)) - 1 < nsyms →
       get_symbols c handle nsyms psyms = Err Undefined).
Proof.
  split_and!.
  - intros H. apply get_symbols_err in H. discriminate.
  - intros o Ho Halive Hs Hp Hown.
    destruct (resolve_loop_spec c handle (symbols o) (Z.to_nat nsyms) 0 psyms)
      as (psyms' & Hrun & _); [lia | lia | |].
    { intros j sp Hj Hsp. apply (Hown j sp); [lia | lia | done]. }
    exists psyms'. unfold get_symbols. rewrite Ho; simpl.
    rewrite Halive; simpl. by rewrite Hrun.
  - intros o Ho Halive Hn Hs. unfold get_symbols. rewrite Ho; simpl.
    rewrite Halive; simpl.
    rewrite (resolve_loop_overrun c handle (symbols o) (Z.to_nat nsyms) 0 psyms);
      [done | lia | lia].
Qed.

Lemma C7_witness :
  (∃ o, lookup_obj mixed_ctx 1%nat = Ok o ∧ is_alive o = true ∧
        Z.of_nat (length (symbols o)) - 1 = 4) ∧
  (∃ psyms', get_symbols mixed_ctx 1%nat 2 (replicate 2 (psym_foo LDPK_UNDEF))
             = Ok (psyms', LDPS_OK)) ∧
  get_symbols mixed_ctx 1%nat 5 (replicate 5 (psym_foo LDPK_UNDEF))
    = Err Undefined.
Proof.
  split_and!.
  - eexists. split_and!; reflexivity.
  - eapply (proj1 (proj2 (C7_no_check_of_the_count mixed_ctx 1%nat 2
                             (replicate 2 (psym_foo LDPK_UNDEF))))).
    + reflexivity.
    + reflexivity.
    + simpl; lia.
    + simpl; lia.
    + intros j sp _ _ Hsp. apply (mixed_ctx_owner_known j). right. exact Hsp.
  - eapply (proj2 (proj2 (C7_no_check_of_the_count mixed_ctx 1%nat 5
                             (replicate 5 (psym_foo LDPK_UNDEF))))).
    + reflexivity.
    + reflexivity.
    + lia.
    + simpl; lia.
Defined.

(** ** The two loops of the driver *)

Lemma mark_file_twice (b1 b2 : bool) (f : InputFile) :
  mark_file b1 (mark_file b2 f) = mark_file (b2 || b1) f.
Proof.
  destruct f as [o|so]; [|done]. simpl.
  destruct b2, b1, (is_lto_obj o) eqn:Hir; simpl; rewrite ?Hir; done.
Qed.

Lemma mark_ir_dead_spec (l : list ptr) :
  ∀ c c', mark_ir_dead l c = Ok c' →
    objs c' = objs c ∧ arg c' = arg c ∧ symbol_map c' = symbol_map c ∧
    obj_pool c' = obj_pool c ∧
    (∀ p, p ∈ l → ∃ o, files c !! p = Some (InputObject o)) ∧
    (∀ p, files c' !! p = mark_file (bool_decide (p ∈ l)) <$> files c !! p).
Proof.
  induction l as [|p0 l IH]; intros c c'; simpl.
  - intros [= <-]. split_and!; try done.
    + intros p Hp. by apply elem_of_nil in Hp.
    + intros p. destruct (files c !! p) as [[o|so]|]; done.
  - destruct (lookup_obj c p0) as [o|] eqn:Ho; simpl; [|discriminate].
    apply lookup_obj_ok in Ho. intros Hrun.
    apply IH in Hrun as (H1 & H2 & H3 & H4 & H5 & H6).
    assert (Hc1 : ∀ p,
      files (if is_lto_obj o
             then set_files (<[p0:=InputObject (set_is_alive false o)]> (files c)) c
             else c) !! p
      = mark_file (bool_decide (p = p0)) <$> files c !! p).
    { intros p. destruct (is_lto_obj o) eqn:Hir; simpl.
      - destruct (decide (p = p0)) as [->|Hne].
        + rewrite lookup_insert_eq, Ho, bool_decide_eq_true_2 by done.
          simpl. by rewrite Hir.
        + rewrite lookup_insert_ne, bool_decide_eq_false_2 by done.
          destruct (files c !! p) as [[o'|so]|]; done.
      - destruct (decide (p = p0)) as [->|Hne].
        + rewrite Ho, bool_decide_eq_true_2 by done. simpl. by rewrite Hir.
        + rewrite bool_decide_eq_false_2 by done.
          destruct (files c !! p) as [[o'|so]|]; done. }
    split_and!.
    + rewrite H1. by destruct (is_lto_obj o).
    + rewrite H2. by destruct (is_lto_obj o).
    + rewrite H3. by destruct (is_lto_obj o).
    + rewrite H4. by destruct (is_lto_obj o).
    + intros p [->|Hp]%elem_of_cons; [eauto|].
      destruct (H5 p Hp) as [o1 Ho1]. rewrite Hc1 in Ho1.
      destruct (files c !! p) as [[o'|so]|]; simpl in Ho1; try discriminate.
      eauto.
    + intros p. rewrite H6, Hc1.
      destruct (files c !! p) as [f|]; simpl; [|done].
      rewrite mark_file_twice, <- bool_decide_or.
      do 2 f_equal. apply bool_decide_ext. by rewrite elem_of_cons.
Qed.

Lemma mark_ir_dead_returns (l : list ptr) :
  ∀ c, (∀ p, p ∈ l → ∃ o, files c !! p = Some (InputObject o)) →
       ∃ c', mark_ir_dead l c = Ok c'.
Proof.
  induction l as [|p0 l IH]; intros c Hl; simpl; [eauto|].
  destruct (Hl p0) as [o Ho]; [apply elem_of_cons; auto|].
  apply lookup_obj_ok in Ho as Ho'. rewrite Ho'; simpl.
  apply IH. intros p Hp.
  destruct (Hl p) as [o' Ho'']; [apply elem_of_cons; auto|].
  destruct (is_lto_obj o); [|eauto]. simpl.
  destruct (decide (p = p0)) as [->|Hne].
  - rewrite lookup_insert_eq. eauto.
  - rewrite lookup_insert_ne by done. eauto.
Qed.

Lemma erase_if_lto_obj_spec (c : Context) (l : list ptr) :
  ∀ l', erase_if_lto_obj c l = Ok l' →
        l' = filter (λ p, is_ir c p = false) l.
Proof.
  induction l as [|p l IH]; intros l'; simpl.
  - by intros [= <-].
  - destruct (lookup_obj c p) as [o|] eqn:Ho; simpl; [|discriminate].
    apply lookup_obj_ok in Ho.
    destruct (erase_if_lto_obj c l) as [l1|]; simpl; [|discriminate].
    intros [= <-].
    assert (Hir : is_ir c p = is_lto_obj o) by (unfold is_ir; by rewrite Ho).
    rewrite filter_cons, <- (IH l1 eq_refl).
    case_decide; destruct (is_lto_obj o); congruence.
Qed.

Lemma erase_if_lto_obj_returns (c : Context) (l : list ptr) :
  (∀ p, p ∈ l → ∃ o, files c !! p = Some (InputObject o)) →
  ∃ l', erase_if_lto_obj c l = Ok l'.
Proof.
  induction l as [|p l IH]; intros Hl; simpl; [eauto|].
  destruct (Hl p) as [o Ho]; [apply elem_of_cons; auto|].
  apply lookup_obj_ok in Ho. rewrite Ho; simpl.
  destruct IH as [l1 ->]; [|simpl; eauto].
  intros q Hq. apply Hl, elem_of_cons. auto.
Qed.

Section SessionProperties.

Variable sys : System.
Variable backend : Backend.

Ltac solve_frame :=
  unfold callback_frame; simpl; split_and!; try done; try lia;
  try (exists []; by rewrite app_nil_r).

Lemma callback_frame_refl s : callback_frame s s.
Proof. solve_frame. Qed.

Lemma callback_frame_trans s1 s2 s3 :
  callback_frame s1 s2 → callback_frame s2 s3 → callback_frame s1 s3.
Proof.
  intros (H1 & H2 & H3 & H4 & H5 & [a1 H6] & H7)
         (K1 & K2 & K3 & K4 & K5 & [a2 K6] & K7).
  unfold callback_frame. split_and!; try congruence; try lia; [|auto].
  exists (a1 ++ a2). by rewrite K6, H6, app_assoc.
Qed.

Lemma add_input_file_ok path s s' st :
  add_input_file sys path s = Ok (s', st) →
  ∃ o, create_object sys path = Some o ∧
    let p := fresh (dom (files (ctx s))) in
    let o' := set_is_alive true (set_priority (file_priority s) o) in
    st = LDPS_OK ∧
    files (ctx s) !! p = None ∧
    objs (ctx s') = objs (ctx s) ++ [p] ∧
    files (ctx s') = <[p := InputObject o']> (files (ctx s)) ∧
    file_priority s' = file_priority s + 1 ∧
    phase s' = phase s ∧ flag s' = flag s ∧ loader_log s' = loader_log s ∧
    arg (ctx s') = arg (ctx s) ∧ plugin_symbols s' = plugin_symbols s ∧
    claim_file_hook s' = claim_file_hook s ∧
    all_symbols_read_hook s' = all_symbols_read_hook s ∧
    cleanup_hook s' = cleanup_hook s.
Proof.
  unfold add_input_file. destruct (gctx s); simpl; [|discriminate].
  destruct (create_object sys path) as [o|]; simpl; [|discriminate].
  destruct (file_priority s <? 2 ^ 63 - 1); simpl; [|discriminate].
  intros [= <- <-]. exists o. split; [done|]. simpl.
  split_and!; try done.
  apply not_elem_of_dom, is_fresh.
Qed.

Lemma run_callback_frame cb s s' :
  run_callback sys cb s = Ok s' → callback_frame s s'.
Proof.
  destruct cb; simpl.
  all: try (intros [= <-]; solve_frame).
  - (* add_symbols *)
    unfold add_symbols. destruct (phase s =? 1); simpl; [|discriminate].
    destruct (_ && _); simpl; [|discriminate].
    intros [= <-]. solve_frame.
  - (* add_input_file *)
    destruct (add_input_file sys path s) as [[s1 st]|] eqn:Ha; simpl;
      [|discriminate].
    intros [= <-]. apply add_input_file_ok in Ha as (o & _ & Ha). simpl in Ha.
    destruct Ha as (_ & Hfresh & Hobjs & Hfiles & Hprio & ? & ? & ? & ? & _).
    unfold callback_frame. split_and!; try done; try lia; [eauto|].
    intros p f Hp. rewrite Hfiles. rewrite lookup_insert_ne; [done|].
    intros <-. congruence.
  - (* get_view *)
    unfold get_view. destruct (lookup_obj _ _) as [o|]; simpl; [|discriminate].
    destruct (mf o); simpl; [|discriminate].
    intros [= <-]. solve_frame.
  - destruct (get_symbols_v2 _ _ _ _); simpl; [|discriminate].
    intros [= <-]. solve_frame.
  - destruct (get_symbols_v3 _ _ _ _); simpl; [|discriminate].
    intros [= <-]. solve_frame.
Qed.

Lemma run_callbacks_frame cbs :
  ∀ s s', run_callbacks sys cbs s = Ok s' → callback_frame s s'.
Proof.
  induction cbs as [|cb cbs IH]; intros s s'; simpl.
  - intros [= <-]. solve_frame.
  - destruct (run_callback sys cb s) as [s1|] eqn:H1; simpl; [|discriminate].
    intros H2. eapply callback_frame_trans; eauto using run_callback_frame.
Qed.


(** ** The compilation driver *)

Lemma do_lto_ok s s' :
  do_lto sys backend s = Ok s' →
  phase s = 1 ∧ phase s' = 2 ∧
  ∃ fn s1 c,
    all_symbols_read_hook s = Some fn ∧
    run_callbacks sys (all_symbols_read backend fn) (set_phase 2 s) = Ok s1 ∧
    mark_ir_dead (objs (ctx s1)) (ctx s1) = Ok c ∧
    erase_if_lto_obj c (objs c) = Ok (objs (ctx s')) ∧
    files (ctx s') = files c ∧
    flag s' = flag s ∧ loader_log s' = loader_log s ∧
    file_priority s ≤ file_priority s'.
Proof.
  unfold do_lto. destruct (phase s =? 1) eqn:Hph; simpl; [|discriminate].
  destruct (all_symbols_read_hook s) as [fn|]; simpl; [|discriminate].
  destruct (run_callbacks _ _ _) as [s1|] eqn:Hcb; simpl; [|discriminate].
  destruct (mark_ir_dead _ _) as [c|] eqn:Hm; simpl; [|discriminate].
  destruct (erase_if_lto_obj _ _) as [l|] eqn:He; simpl; [|discriminate].
  intros [= <-]. apply run_callbacks_frame in Hcb as Hfr.
  destruct Hfr as (K1 & K2 & K3 & _ & K5 & _). simpl in *.
  split_and!; [lia | by rewrite K1 |].
  exists fn, s1, c. split_and!; done.
Qed.

Lemma do_lto_returns s fn s1 :
  phase s = 1 →
  all_symbols_read_hook s = Some fn →
  run_callbacks sys (all_symbols_read backend fn) (set_phase 2 s) = Ok s1 →
  (∀ p, p ∈ objs (ctx s1) → ∃ o, files (ctx s1) !! p = Some (InputObject o)) →
  ∃ s', do_lto sys backend s = Ok s'.
Proof.
  intros Hph Hfn Hcb Hvalid. unfold do_lto.
  rewrite Hph; simpl. rewrite Hfn; simpl. rewrite Hcb; simpl.
  destruct (mark_ir_dead_returns _ _ Hvalid) as [c Hm]. rewrite Hm; simpl.
  apply mark_ir_dead_spec in Hm as (H1 & _ & _ & _ & _ & H6).
  destruct (erase_if_lto_obj_returns c (objs c)) as [l ->]; [|simpl; eauto].
  intros p Hp. rewrite H1 in Hp. destruct (Hvalid p Hp) as [o Ho].
  rewrite H6, Ho. simpl. destruct (_ && _); eauto.
Qed.


(** C10: the objects of the active set that are not flagged is_lto_obj stay
    in the set with their records, is_alive included, as they were; shared
    objects in memory are untouched; and the set on return is the set on
    entry, followed by the objects added during compilation, with the IR
    objects filtered out, so the order of the others is kept. *)
Theorem C10_do_lto_keeps_other_objects (s s' : State) :
  do_lto sys backend s = Ok s' →
  (∀ p o, p ∈ objs (ctx s) →
     files (ctx s) !! p = Some (InputObject o) → is_lto_obj o = false →
     p ∈ objs (ctx s') ∧ files (ctx s') !! p = Some (InputObject o))
  ∧ (∀ p so, files (ctx s) !! p = Some (InputShared so) →
       files (ctx s') !! p = Some (InputShared so))
  ∧ (∃ added, objs (ctx s') =
       filter (λ p, is_ir (ctx s') p = false) (objs (ctx s) ++ added)).
Proof.
  intros (_ & _ & fn & s1 & c & _ & Hcb & Hm & He & Hfiles & _)%do_lto_ok.
  apply run_callbacks_frame in Hcb as (_ & _ & _ & _ & _ & [added Hobjs] & Hkeep).
  simpl in Hobjs, Hkeep.
  apply mark_ir_dead_spec in Hm as (H1 & _ & _ & _ & H5 & H6).
  apply erase_if_lto_obj_spec in He as He'.
  split_and!.
  - intros p o Hp Ho Hir. apply Hkeep in Ho.
    assert (Hc : files c !! p = Some (InputObject o)).
    { rewrite H6, Ho. simpl. by rewrite Hir, andb_false_r. }
    split; [|by rewrite Hfiles].
    rewrite He'. apply list_elem_of_filter. split.
    + unfold is_ir. by rewrite Hc.
    + rewrite H1, Hobjs. apply elem_of_app; auto.
  - intros p so Ho. apply Hkeep in Ho. by rewrite Hfiles, H6, Ho.
  - exists added. rewrite He', H1, Hobjs. apply list_filter_iff.
    intros p. unfold is_ir. by rewrite Hfiles.
Qed.

Lemma read_symbols_spec (E : Target) (psyms : list PluginSymbol) :
  ∀ c esyms syms c' esyms' syms',
    read_symbols E psyms c esyms syms = (c', esyms', syms') →
    esyms' = esyms ++ map (to_elf_sym E) psyms ∧
    syms' = syms ++ map (λ psym, SymNamed (name psym)) psyms ∧
    files c' = files c ∧ objs c' = objs c ∧ arg c' = arg c.
Proof.
  induction psyms as [|psym psyms IH]; intros c esyms syms c' esyms' syms'; simpl.
  - intros [= <- <- <-]. by rewrite !app_nil_r.
  - destruct (get_symbol (name psym) c) as [c1 sp] eqn:Hg.
    intros (-> & -> & H3 & H4 & H5)%IH.
    unfold get_symbol in Hg.
    destruct (symbol_map c !! name psym); injection Hg as <- <-; simpl in *;
      rewrite <- !app_assoc; done.
Qed.


Lemma run_callback_plugin_symbols cb s s' :
  run_callback sys cb s = Ok s' →
  plugin_symbols s' = delivered [cb] (plugin_symbols s).
Proof.
  destruct cb; simpl; try (by intros [= <-]).
  - unfold add_symbols. destruct (phase s =? 1); simpl; [|discriminate].
    destruct (_ && _); simpl; [|discriminate]. by intros [= <-].
  - destruct (add_input_file sys path s) as [[s1 st]|] eqn:Ha; simpl;
      [|discriminate].
    intros [= <-]. apply add_input_file_ok in Ha as (o & _ & Ha). simpl in Ha.
    by destruct Ha as (_ & _ & _ & _ & _ & _ & _ & _ & _ & -> & _).
  - unfold get_view. destruct (lookup_obj _ _) as [o|]; simpl; [|discriminate].
    destruct (mf o); simpl; [|discriminate]. by intros [= <-].
  - destruct (get_symbols_v2 _ _ _ _); simpl; [|discriminate]. by intros [= <-].
  - destruct (get_symbols_v3 _ _ _ _); simpl; [|discriminate]. by intros [= <-].
Qed.

Lemma run_callbacks_plugin_symbols cbs :
  ∀ s s', run_callbacks sys cbs s = Ok s' →
          plugin_symbols s' = delivered cbs (plugin_symbols s).
Proof.
  induction cbs as [|cb cbs IH]; intros s s'; simpl.
  - by intros [= <-].
  - destruct (run_callback sys cb s) as [s1|] eqn:H1; simpl; [|discriminate].
    intros H2%IH. apply run_callback_plugin_symbols in H1.
    rewrite H2, H1. done.
Qed.

(** Enumerating symbols outside phase 1 stops the run of the callbacks. *)
Lemma run_callbacks_add_symbols_phase cbs :
  ∀ s, phase s ≠ 1 →
       (∃ handle nsyms psyms, CbAddSymbols handle nsyms psyms ∈ cbs) →
       is_ok (run_callbacks sys cbs s) = false.
Proof.
  induction cbs as [|cb cbs IH]; intros s Hph (h & n & ps & Hin).
  - by apply elem_of_nil in Hin.
  - simpl. destruct (run_callback sys cb s) as [s1|] eqn:H1; simpl; [|done].
    apply elem_of_cons in Hin as [<-|Hin].
    + simpl in H1. unfold add_symbols in H1.
      destruct (phase s =? 1) eqn:Hp; [lia|]. simpl in H1. discriminate.
    + apply IH; [|eauto].
      apply run_callback_frame in H1 as (-> & _). done.
Qed.

(** ** The loader *)

Lemma load_plugin_ok s s' :
  load_plugin sys backend s = Ok s' →
  phase s = 0 ∧ phase s' = 1 ∧ flag s' = flag s ∧
  loader_log s' = loader_log s ++ three_events (arg (ctx s)) ∧
  arg (ctx s') = arg (ctx s) ∧
  file_priority s ≤ file_priority s' ∧
  (∃ added, objs (ctx s') = objs (ctx s) ++ added) ∧
  (∀ p f, files (ctx s) !! p = Some f → files (ctx s') !! p = Some f).
Proof.
  unfold load_plugin. destruct (phase s =? 0) eqn:Hph; simpl; [|discriminate].
  destruct (dlopen sys _) as [h|]; [|discriminate].
  destruct (dlsym_onload sys h); simpl; [|discriminate].
  intros (K1 & K2 & K3 & K4 & K5 & K6 & K7)%run_callbacks_frame.
  simpl in *. split_and!; try done; try lia.
  rewrite K3, <- !app_assoc. done.
Qed.

Lemma call_once_load_plugin_ok s s' :
  call_once_load_plugin sys backend s = Ok s' →
  flag s' = true ∧
  arg (ctx s') = arg (ctx s) ∧
  file_priority s ≤ file_priority s' ∧
  (∃ added, objs (ctx s') = objs (ctx s) ++ added) ∧
  (∀ p f, files (ctx s) !! p = Some f → files (ctx s') !! p = Some f) ∧
  ((flag s = true ∧ s' = s) ∨
   (flag s = false ∧ phase s = 0 ∧ phase s' = 1 ∧
    loader_log s' = loader_log s ++ three_events (arg (ctx s)))).
Proof.
  unfold call_once_load_plugin. destruct (flag s) eqn:Hf.
  - intros [= <-]. split_and!; try done; try lia; [|by left].
    exists []. by rewrite app_nil_r.
  - destruct (load_plugin sys backend s) as [s1|] eqn:Hl; simpl; [|discriminate].
    intros [= <-]. apply load_plugin_ok in Hl as (?&?&?&?&?&?&?&?). simpl.
    split_and!; try done. right. done.
Qed.


(** ** Ingestion *)

(** The object as [read_lto_object] makes it before the claim. *)
Lemma read_lto_object_claim_ok mf0 s s1 p :
  read_lto_object_claim sys backend mf0 s = Ok (s1, p) →
  ∃ s0,
    call_once_load_plugin sys backend s = Ok s0 ∧
    files (ctx s0) !! p = None ∧
    phase s1 = phase s0 ∧ flag s1 = flag s0 ∧ loader_log s1 = loader_log s0 ∧
    file_priority s0 ≤ file_priority s1 ∧
    (∃ added, objs (ctx s1) = objs (ctx s0) ++ added) ∧
    (∀ q f, files (ctx s0) !! q = Some f → files (ctx s1) !! q = Some f) ∧
    files (ctx s1) !! p =
      Some (InputObject
              {| symbols := [SymNew]; first_global := 1; is_lto_obj := true;
                 mf := Some mf0; elf_syms := []; sym_fragments := [];
                 symvers := []; priority := new_priority sys;
                 is_alive := new_is_alive sys |}) ∧
    ∃ fn file cbs st,
      claim_file_hook s0 = Some fn ∧ pif_handle file = p ∧
      claim_file backend fn file = (cbs, true, st) ∧
      is_ok (run_callbacks sys cbs
               (set_ctx (set_files (<[p := InputObject
                   {| symbols := [SymNew]; first_global := 1; is_lto_obj := true;
                      mf := Some mf0; elf_syms := []; sym_fragments := [];
                      symvers := []; priority := new_priority sys;
                      is_alive := new_is_alive sys |}]> (files (ctx s0)))
                  (ctx s0)) s0)) = true ∧
      plugin_symbols s1 = delivered cbs (plugin_symbols s0).
Proof.
  unfold read_lto_object_claim. case_decide; [discriminate|].
  destruct (call_once_load_plugin sys backend s) as [s0|] eqn:Hc; simpl;
    [|discriminate].
  destruct (open_file sys _) as [fd|]; simpl; [|discriminate].
  destruct (claim_file_hook s0) as [fn|] eqn:Hfn; simpl; [|discriminate].
  destruct (claim_file backend fn _) as [[cbs claimed] st] eqn:Hcl.
  destruct (run_callbacks sys cbs _) as [s2|] eqn:Hrun; simpl; [|discriminate].
  destruct claimed; simpl; [|discriminate].
  intros [= <- <-]. exists s0.
  apply run_callbacks_frame in Hrun as Hfr.
  apply run_callbacks_plugin_symbols in Hrun as Hps.
  destruct Hfr as (K1 & K2 & K3 & K4 & K5 & K6 & K7). simpl in *.
  assert (Hfresh : files (ctx s0) !! fresh (dom (files (ctx s0))) = None)
    by apply not_elem_of_dom, is_fresh.
  split_and!; try done.
  - intros q f Hq. apply K7. rewrite lookup_insert_ne; [done|].
    intros <-. congruence.
  - apply K7. by rewrite lookup_insert_eq.
  - eexists fn, _, cbs, st. split_and!; [done | | exact Hcl | by rewrite Hrun | done].
    done.
Qed.

Lemma read_lto_object_symbols_ok p s s' p' :
  read_lto_object_symbols sys p s = Ok (s', p') →
  p' = p ∧
  ∃ o, files (ctx s) !! p = Some (InputObject o) ∧
    files (ctx s') =
      <[p := InputObject
          {| symbols := symbols o
                        ++ map (λ psym, SymNamed (name psym)) (plugin_symbols s);
             first_global := first_global o; is_lto_obj := is_lto_obj o;
             mf := mf o;
             elf_syms :=
               esym_zero :: map (to_elf_sym (target sys)) (plugin_symbols s);
             sym_fragments :=
               resize (S (length (plugin_symbols s))) (None, 0) (sym_fragments o);
             symvers := resize (S (length (plugin_symbols s))) None (symvers o);
             priority := priority o; is_alive := is_alive o |}]>
        (files (ctx s)) ∧
    objs (ctx s') = objs (ctx s) ∧ arg (ctx s') = arg (ctx s) ∧
    phase s' = phase s ∧ flag s' = flag s ∧ loader_log s' = loader_log s ∧
    file_priority s' = file_priority s ∧ plugin_symbols s' = [].
Proof.
  unfold read_lto_object_symbols.
  destruct (lookup_obj (ctx s) p) as [o|] eqn:Ho; simpl; [|discriminate].
  apply lookup_obj_ok in Ho.
  destruct (read_symbols _ _ _ _ _) as [[c esyms] syms] eqn:Hr.
  apply read_symbols_spec in Hr as (-> & -> & H3 & H4 & H5).
  intros [= <- <-]. split; [done|]. exists o. simpl.
  rewrite H3, length_map. split_and!; done.
Qed.

Lemma read_lto_object_ok mf0 s s' p :
  read_lto_object sys backend mf0 s = Ok (s', p) →
  ∃ s1, read_lto_object_claim sys backend mf0 s = Ok (s1, p) ∧
        read_lto_object_symbols sys p s1 = Ok (s', p).
Proof.
  unfold read_lto_object.
  destruct (read_lto_object_claim sys backend mf0 s) as [[s1 p1]|] eqn:Hc;
    simpl; [|discriminate].
  intros H. apply read_lto_object_symbols_ok in H as Hp. destruct Hp as [-> _].
  eauto.
Qed.

Lemma read_lto_object_result mf0 s s' p :
  read_lto_object sys backend mf0 s = Ok (s', p) →
  ∃ s1 o,
    read_lto_object_claim sys backend mf0 s = Ok (s1, p) ∧
    files (ctx s') !! p = Some (InputObject o) ∧
    is_lto_obj o = true ∧
    symbols o = SymNew :: map (λ psym, SymNamed (name psym)) (plugin_symbols s1) ∧
    elf_syms o = esym_zero :: map (to_elf_sym (target sys)) (plugin_symbols s1) ∧
    sym_fragments o = replicate (S (length (plugin_symbols s1))) (None, 0) ∧
    symvers o = replicate (S (length (plugin_symbols s1))) None ∧
    priority o = new_priority sys ∧ is_alive o = new_is_alive sys.
Proof.
  intros (s1 & Hc & Hs)%read_lto_object_ok. exists s1.
  apply read_lto_object_claim_ok in Hc as Hc'.
  destruct Hc' as (s0 & _ & _ & _ & _ & _ & _ & _ & _ & Hp & _).
  apply read_lto_object_symbols_ok in Hs as (_ & o & Ho & Hfiles & _).
  rewrite Hp in Ho. injection Ho as <-. simpl in Hfiles.
  eexists. rewrite Hfiles, lookup_insert_eq. split_and!; done.
Qed.



(** ** Runs of the session *)

Lemma read_lto_object_session mf0 s s' p :
  read_lto_object sys backend mf0 s = Ok (s', p) →
  flag s' = true ∧ file_priority s ≤ file_priority s' ∧
  ((flag s = true ∧ phase s' = phase s ∧ loader_log s' = loader_log s) ∨
   (flag s = false ∧ phase s = 0 ∧ phase s' = 1 ∧
    loader_log s' = loader_log s ++ three_events (arg (ctx s)))).
Proof.
  intros (s1 & Hc & Hs)%read_lto_object_ok.
  apply read_lto_object_claim_ok in Hc
    as (s0 & Hc & _ & K1 & K2 & K3 & K4 & _).
  apply read_lto_object_symbols_ok in Hs
    as (_ & o & _ & _ & _ & _ & J1 & J2 & J3 & J4 & _).
  apply call_once_load_plugin_ok in Hc as (L1 & _ & L3 & _ & _ & L6).
  split_and!; [congruence | lia |].
  destruct L6 as [[Hf ->]|(Hf & H0 & H1 & Hlog)].
  - left. split_and!; congruence.
  - right. split_and!; congruence.
Qed.

Lemma step_session op s s' :
  step sys backend op s = Ok s' →
  file_priority s ≤ file_priority s' ∧
  (∀ mf0, op = OpReadLtoObject mf0 → flag s' = true) ∧
  ((phase s' = phase s ∧ flag s' = flag s ∧ loader_log s' = loader_log s) ∨
   ((∃ mf0, op = OpReadLtoObject mf0) ∧ flag s = false ∧ flag s' = true ∧
    phase s = 0 ∧ phase s' = 1 ∧
    loader_log s' = loader_log s ++ three_events (arg (ctx s))) ∨
   (op = OpDoLto ∧ phase s = 1 ∧ phase s' = 2 ∧ flag s' = flag s ∧
    loader_log s' = loader_log s)).
Proof.
  destruct op as [mf0| | |f]; simpl.
  - destruct (read_lto_object sys backend mf0 s) as [[s1 p]|] eqn:Hr; simpl;
      [|discriminate].
    intros [= <-].
    apply read_lto_object_session in Hr as (H1 & H2 & [(?&?&?)|(?&?&?&?)]).
    + split_and!; [done | done |]. left. split_and!; congruence.
    + split_and!; [done | done |]. right; left. split_and!; eauto.
  - intros (H1 & H2 & fn & s1 & c & _ & _ & _ & _ & _ & H3 & H4 & H5)%do_lto_ok.
    split_and!; [done | discriminate |]. right; right. done.
  - unfold lto_cleanup. destruct (cleanup_hook s) as [fn|].
    + intros (K1 & K2 & K3 & _ & K5 & _)%run_callbacks_frame.
      split_and!; [done | discriminate |]. left. done.
    + intros [= <-]. split_and!; [lia | discriminate |]. left. done.
  - intros [= <-]. simpl. split_and!; [lia | discriminate |]. left. done.
Qed.

Lemma run_session ops :
  ∀ s s', run sys backend ops s = Ok s' →
    phase s ≤ phase s' ∧ file_priority s ≤ file_priority s' ∧
    (flag s = true → flag s' = true) ∧
    (loader_inv s → loader_inv s') ∧
    ((∃ mf0, OpReadLtoObject mf0 ∈ ops) → flag s' = true) ∧
    ((∀ mf0, OpReadLtoObject mf0 ∉ ops) → flag s' = flag s).
Proof.
  induction ops as [|op ops IH]; intros s s'; simpl.
  - intros [= <-]. split_and!; try done; try lia.
    intros (mf0 & H). by apply elem_of_nil in H.
  - destruct (step sys backend op s) as [s1|] eqn:Hst; simpl; [|discriminate].
    intros (I1 & I2 & I3 & I4 & I5 & I6)%IH.
    apply step_session in Hst as (S1 & S2 & S3).
    assert (Hph : phase s ≤ phase s1) by
      (destruct S3 as [(?&?&?)|[(?&?&?&?&?&?)|(?&?&?&?&?)]]; lia).
    assert (Hfl : flag s = true → flag s1 = true) by
      (destruct S3 as [(?&?&?)|[(?&?&?&?&?&?)|(?&?&?&?&?)]]; congruence).
    split_and!; [lia | lia | auto | | |].
    + intros Hinv. apply I4.
      destruct S3 as [(E1&E2&E3)|[(_&E1&E2&E3&E4&E5)|(_&E1&E2&E3&E4)]];
        unfold loader_inv in *; rewrite ?E1, ?E2, ?E3, ?E4, ?E5.
      * done.
      * destruct Hinv as [(_&_&Hl)|(?&_)]; [|congruence].
        right. rewrite Hl. split_and!; [done | by left | by eexists].
      * destruct Hinv as [(?&?&?)|(?&?&?)]; [lia|]. right. split_and!; auto.
    + intros (mf0 & [<-|Hin]%elem_of_cons); [|eauto].
      apply I3, (S2 mf0). done.
    + intros Hno. rewrite I6.
      * destruct S3 as [(?&?&?)|[([mf0 ->]&_)|(?&?&?&?&?)]]; try done.
        exfalso. apply (Hno mf0), elem_of_cons. auto.
      * intros mf0 Hin. apply (Hno mf0), elem_of_cons. auto.
Qed.

(** C8: in every run of the session that starts from the initial statics,
    the loader's sequence (dlopen of the plugin, dlsym of onload, the call
    of onload with the table) has happened exactly once as soon as one IR
    object has been ingested, however many follow, and not at all before. *)
Theorem C8_loader_runs_once (c : Context) (ops : list Op) (s' : State) :
  run sys backend ops (initial_state c) = Ok s' →
  ((∃ mf0, OpReadLtoObject mf0 ∈ ops) →
   ∃ a, loader_log s' =
          [EvDlopen (plugin a); EvDlsym "onload"; EvOnload (plugin_table a)])
  ∧ ((∀ mf0, OpReadLtoObject mf0 ∉ ops) → loader_log s' = []).
Proof.
  intros (_ & _ & _ & Hinv & Hsome & Hnone)%run_session.
  assert (Hi : loader_inv s') by (apply Hinv; left; done).
  split.
  - intros Hf%Hsome. destruct Hi as [(?&_)|(_&_&a&Ha)]; [congruence|].
    exists a. exact Ha.
  - intros Hf%Hnone. simpl in Hf.
    destruct Hi as [(_&_&Hl)|(?&_)]; [done | congruence].
Qed.


(** C6, amended: a top-level call changes the phase only from 0 to 1 (an
    ingestion, through the loader) or from 1 to 2 ([do_lto]); along a run
    the phase never decreases, so each of the two changes happens at most
    once; the loader outside phase 0, [do_lto] outside phase 1 and
    [add_symbols] outside phase 1 fail their assertion. [read_lto_object]
    itself does not look at the phase: once the phase is 2, an ingestion
    whose claim hook enumerates symbols does not return, and ends in the
    failed assertion when the enumeration is the first thing the hook does;
    an ingestion whose claim hook claims the file and makes only callbacks
    that succeed, none of which can be [add_symbols], returns a new object
    and leaves the phase at 2. *)
Theorem C6_phase_transitions :
  (∀ op s s', step sys backend op s = Ok s' →
     phase s' = phase s
     ∨ (phase s = 0 ∧ phase s' = 1 ∧ ∃ mf0, op = OpReadLtoObject mf0)
     ∨ (phase s = 1 ∧ phase s' = 2 ∧ op = OpDoLto))
  ∧ (∀ ops s s', run sys backend ops s = Ok s' → phase s ≤ phase s')
  ∧ (∀ c ops s', run sys backend ops (initial_state c) = Ok s' →
       phase s' = 0 ∨ phase s' = 1 ∨ phase s' = 2)
  ∧ (∀ op1 s s1 ops s2 op2 s3,
       step sys backend op1 s = Ok s1 → phase s1 ≠ phase s →
       run sys backend ops s1 = Ok s2 →
       step sys backend op2 s2 = Ok s3 → phase s3 ≠ phase s2 →
       phase s = 0 ∧ phase s1 = 1 ∧ phase s2 = 1 ∧ phase s3 = 2)
  ∧ (∀ s, phase s ≠ 0 → load_plugin sys backend s = Err AssertFail)
  ∧ (∀ s, phase s ≠ 1 → do_lto sys backend s = Err AssertFail)
  ∧ (∀ handle nsyms psyms s, phase s ≠ 1 →
       add_symbols handle nsyms psyms s = Err AssertFail)
  ∧ (∀ mf0 s, phase s = 2 →
       (∀ fn file, ∃ handle nsyms psyms,
          CbAddSymbols handle nsyms psyms ∈ (claim_file backend fn file).1.1) →
       is_ok (read_lto_object sys backend mf0 s) = false)
  ∧ (∀ mf0 s fn fd, phase s = 2 → flag s = true →
       plugin (arg (ctx s)) ≠ "" →
       open_file sys (default (mf_name mf0) (mf_parent mf0)) = Some fd →
       claim_file_hook s = Some fn →
       (∀ file, ∃ handle nsyms psyms,
          head (claim_file backend fn file).1.1
          = Some (CbAddSymbols handle nsyms psyms)) →
       read_lto_object sys backend mf0 s = Err AssertFail)
  ∧ (∀ mf0 s fn fd cbs st s1, phase s = 2 → flag s = true →
       plugin (arg (ctx s)) ≠ "" →
       open_file sys (default (mf_name mf0) (mf_parent mf0)) = Some fd →
       claim_file_hook s = Some fn →
       claim_file backend fn
         (offered_file mf0 fd (fresh (dom (files (ctx s))))) = (cbs, true, st) →
       run_callbacks sys cbs
         (set_ctx (set_files
                     (<[fresh (dom (files (ctx s))) :=
                          InputObject (new_ir_object sys mf0)]>
                        (files (ctx s))) (ctx s)) s) = Ok s1 →
       (∀ handle nsyms psyms, CbAddSymbols handle nsyms psyms ∉ cbs) ∧
       ∃ s' o,
         read_lto_object sys backend mf0 s
         = Ok (s', fresh (dom (files (ctx s)))) ∧
         phase s' = 2 ∧
         files (ctx s') !! fresh (dom (files (ctx s))) = Some (InputObject o) ∧
         is_lto_obj o = true ∧
         symbols o
         = SymNew :: map (λ psym, SymNamed (name psym)) (plugin_symbols s)).
Proof.
  assert (Hstep : ∀ op s s', step sys backend op s = Ok s' →
     phase s' = phase s
     ∨ (phase s = 0 ∧ phase s' = 1 ∧ ∃ mf0, op = OpReadLtoObject mf0)
     ∨ (phase s = 1 ∧ phase s' = 2 ∧ op = OpDoLto)).
  { intros op s s' (_ & _ & [(?&_)|[(?&_&_&?&?&_)|(?&?&?&_)]])%step_session;
      auto. }
  split_and!.
  - exact Hstep.
  - intros ops s s' H%run_session. tauto.
  - intros c ops s' (_ & _ & _ & Hinv & _)%run_session.
    destruct Hinv as [(_&?&_)|(_&?&_)]; [by left | tauto | tauto].
  - intros op1 s s1 ops s2 op2 s3 H1%Hstep Hne1 (H2 & _)%run_session H3%Hstep Hne2.
    destruct H1 as [?|[(?&?&_)|(?&?&_)]], H3 as [?|[(?&?&_)|(?&?&_)]]; lia.
  - intros s Hph. unfold load_plugin.
    destruct (phase s =? 0) eqn:E; [lia | done].
  - intros s Hph. unfold do_lto. destruct (phase s =? 1) eqn:E; [lia | done].
  - intros h n ps s Hph. unfold add_symbols.
    destruct (phase s =? 1) eqn:E; [lia | done].
  - intros mf0 s Hph Henum. unfold read_lto_object, read_lto_object_claim.
    case_decide; [done|].
    destruct (call_once_load_plugin sys backend s) as [s0|] eqn:Hc; simpl;
      [|done].
    apply call_once_load_plugin_ok in Hc as (_&_&_&_&_&[[_ ->]|(_&?&_)]);
      [|lia].
    destruct (open_file sys _) as [fd|]; simpl; [|done].
    destruct (claim_file_hook s) as [fn|]; simpl; [|done].
    specialize (Henum fn
      {| pif_name := default (mf_name mf0) (mf_parent mf0); pif_fd := fd;
         pif_offset := mf_offset mf0; pif_filesize := mf_size mf0;
         pif_handle := fresh (dom (files (ctx s))) |}).
    destruct (claim_file backend fn _) as [[cbs claimed] st]. simpl in Henum.
    destruct (run_callbacks sys cbs _) as [s2|] eqn:Hrun; simpl; [|done].
    exfalso.
    match type of Hrun with
    | run_callbacks _ _ ?s0 = _ =>
        assert (Hno : is_ok (run_callbacks sys cbs s0) = false)
          by (apply run_callbacks_add_symbols_phase; [simpl; lia | done])
    end.
    rewrite Hrun in Hno. discriminate.
  - intros mf0 s fn fd Hph Hfl Hpl Hopen Hfn Hfirst.
    unfold read_lto_object, read_lto_object_claim, call_once_load_plugin.
    rewrite decide_False by done. rewrite Hfl; simpl. rewrite Hopen; simpl.
    rewrite Hfn; simpl.
    specialize (Hfirst
      {| pif_name := default (mf_name mf0) (mf_parent mf0); pif_fd := fd;
         pif_offset := mf_offset mf0; pif_filesize := mf_size mf0;
         pif_handle := fresh (dom (files (ctx s))) |}).
    destruct (claim_file backend fn _) as [[cbs claimed] st].
    destruct Hfirst as (h & n & ps & Hhd). simpl in Hhd.
    destruct cbs as [|cb cbs]; [discriminate|]. injection Hhd as ->.
    simpl. unfold add_symbols; simpl.
    destruct (phase s =? 1) eqn:E; [lia | done].
  - intros mf0 s fn fd cbs st s1 Hph Hfl Hpl Hopen Hfn Hcl Hrun.
    assert (Hnone : ∀ handle nsyms psyms, CbAddSymbols handle nsyms psyms ∉ cbs).
    { intros h n ps Hin.
      match type of Hrun with
      | run_callbacks _ _ ?s0 = _ =>
          assert (Hno : is_ok (run_callbacks sys cbs s0) = false)
            by (apply run_callbacks_add_symbols_phase; [simpl; lia | eauto])
      end.
      rewrite Hrun in Hno. discriminate. }
    split; [exact Hnone|].
    pose proof (run_callbacks_frame _ _ _ Hrun) as (K1 & _ & _ & _ & _ & _ & K7).
    pose proof (run_callbacks_plugin_symbols _ _ _ Hrun) as Hps.
    assert (Hobj : files (ctx s1) !! fresh (dom (files (ctx s)))
                   = Some (InputObject (new_ir_object sys mf0)))
      by (apply K7; apply lookup_insert_eq).
    assert (Hclaim : read_lto_object_claim sys backend mf0 s
                     = Ok (s1, fresh (dom (files (ctx s))))).
    { unfold read_lto_object_claim, call_once_load_plugin.
      rewrite decide_False by done. rewrite Hfl; simpl.
      rewrite Hopen; simpl. rewrite Hfn; simpl.
      unfold offered_file in Hcl. rewrite Hcl.
      unfold new_ir_object in Hrun. simpl in Hrun |- *. rewrite Hrun.
      reflexivity. }
    unfold read_lto_object. rewrite Hclaim. cbn [bind].
    unfold read_lto_object_symbols.
    rewrite (proj2 (lookup_obj_ok _ _ _) Hobj). cbn [bind].
    destruct (read_symbols _ _ _ _ _) as [[c esyms] syms] eqn:Hr.
    apply read_symbols_spec in Hr as (-> & -> & H3 & H4 & H5).
    assert (Hempty : plugin_symbols s1 = plugin_symbols s).
    { rewrite Hps. simpl. clear -Hnone.
      induction cbs as [|cb cbs IH] using rev_ind; [done|].
      unfold delivered. rewrite foldl_app. simpl.
      destruct cb; try (apply IH; intros h n ps Hin;
                        apply (Hnone h n ps), elem_of_app; auto).
      exfalso. apply (Hnone handle nsyms psyms), elem_of_app. right.
      apply list_elem_of_here. }
    eexists _, _. split; [reflexivity|]. simpl.
    split_and!; [simpl in K1; lia | apply lookup_insert_eq | done |].
    simpl. by rewrite Hempty.
Qed.

End SessionProperties.

(** ** The small link, run *)

Lemma demo_run_collects :
  run demo_sys demo_backend
    [OpReadLtoObject mf_a; OpReadLtoObject mf_b; OpLinker demo_adopt]
    (initial_state demo_ctx) = Ok demo_collected.
Proof. vm_compute. reflexivity. Defined.

Lemma demo_do_lto : do_lto demo_sys demo_backend demo_collected = Ok demo_linked.
Proof. vm_compute. reflexivity. Defined.

Lemma demo_read_a :
  read_lto_object demo_sys demo_backend mf_a (initial_state demo_ctx)
  = Ok (demo_ingested_a, 0%nat).
Proof. vm_compute. reflexivity. Defined.

Lemma demo_read_b :
  read_lto_object demo_sys demo_backend mf_b demo_ingested_a
  = Ok (demo_ingested_ab, 1%nat).
Proof. vm_compute. reflexivity. Defined.


(** The end-to-end scenario: after compilation the active set is the
    compiled object alone, which owns [foo] and [bar]; the two IR objects
    are still in memory, dead. *)
Example demo_end_to_end :
  objs (ctx demo_linked) = [2%nat] ∧
  symbol_map (ctx demo_linked) !! "foo" = Some {| file := Some 2%nat |} ∧
  symbol_map (ctx demo_linked) !! "bar" = Some {| file := Some 2%nat |} ∧
  (do o <- lookup_obj (ctx demo_linked) 0%nat; Ok (is_lto_obj o, is_alive o))
    = Ok (true, false) ∧
  (do o <- lookup_obj (ctx demo_linked) 1%nat; Ok (is_lto_obj o, is_alive o))
    = Ok (true, false) ∧
  get_symbols_v2 (ctx demo_linked) 0%nat 1 [psym_foo LDPK_DEF]
    = Ok ([set_resolution LDPR_PREEMPTED_REG (psym_foo LDPK_DEF)], LDPS_OK) ∧
  get_symbols_v3 (ctx demo_linked) 0%nat 1 [psym_foo LDPK_DEF]
    = Ok ([set_resolution LDPR_PREEMPTED_REG (psym_foo LDPK_DEF)], LDPS_NO_SYMS).
Proof. split_and!; vm_compute; reflexivity. Qed.

(** On the small link, before compilation: [foo] prevails in a.o and is
    resolved to another IR object for b.o. *)
Example demo_resolution :
  get_symbols (ctx demo_collected) 0%nat 1 [psym_foo LDPK_DEF]
    = Ok ([set_resolution LDPR_PREVAILING_DEF (psym_foo LDPK_DEF)], LDPS_OK) ∧
  get_symbols (ctx demo_collected) 1%nat 1 [psym_foo LDPK_UNDEF]
    = Ok ([set_resolution LDPR_RESOLVED_IR (psym_foo LDPK_UNDEF)], LDPS_OK).
Proof. split; vm_compute; reflexivity. Qed.

(** Ingesting after compilation has started fails the assertion of
    [add_symbols]; compiling before anything was ingested fails the one of
    [do_lto]. *)
Example demo_out_of_order :
  run demo_sys demo_backend [OpReadLtoObject mf_a; OpDoLto; OpReadLtoObject mf_b]
    (initial_state demo_ctx) = Err AssertFail ∧
  run demo_sys demo_backend [OpDoLto] (initial_state demo_ctx) = Err AssertFail ∧
  run demo_sys demo_backend [OpReadLtoObject mf_a; OpDoLto; OpDoLto]
    (initial_state demo_ctx) = Err AssertFail.
Proof. split_and!; vm_compute; reflexivity. Qed.



Lemma demo_mixed_do_lto :
  do_lto demo_sys demo_backend demo_mixed_collected = Ok demo_mixed_linked.
Proof. vm_compute. reflexivity. Defined.

Lemma C10_witness :
  do_lto demo_sys demo_backend demo_mixed_collected = Ok demo_mixed_linked ∧
  5%nat ∈ objs (ctx demo_mixed_linked) ∧
  files (ctx demo_mixed_linked) !! 5%nat = Some (InputObject demo_compiled) ∧
  ∃ added, objs (ctx demo_mixed_linked) =
    filter (λ p, is_ir (ctx demo_mixed_linked) p = false)
      (objs (ctx demo_mixed_collected) ++ added).
Proof.
  split; [exact demo_mixed_do_lto|].
  pose proof (C10_do_lto_keeps_other_objects demo_sys demo_backend
                demo_mixed_collected demo_mixed_linked demo_mixed_do_lto)
    as (H1 & _ & H3).
  destruct (H1 5%nat demo_compiled
              (list_elem_of_further _ 0%nat _ (list_elem_of_here 5%nat [1%nat]))
              eq_refl eq_refl) as [H4 H5].
  split; [exact H4|]. split; [exact H5 | exact H3].
Defined.

(** C6, as stated, fails: with a claim hook that claims b.o without
    enumerating its symbols, the ingestion of b.o after compilation returns
    a new IR object, in phase 2: the whole run a.o, compile, b.o returns. *)
Lemma C6_counterexample :
  run demo_sys silent_backend [OpReadLtoObject mf_a; OpDoLto]
    (initial_state demo_ctx) = Ok demo_silent_linked ∧
  phase demo_silent_linked = 2 ∧
  claim_file silent_backend 1%nat (offered_file mf_b 3 2%nat)
    = ([], true, LDPS_OK) ∧
  read_lto_object demo_sys silent_backend mf_b demo_silent_linked
    = Ok (demo_silent_late, 2%nat) ∧
  phase demo_silent_late = 2 ∧
  (do o <- lookup_obj (ctx demo_silent_late) 2%nat;
   Ok (is_lto_obj o, mf o, symbols o)) = Ok (true, Some mf_b, [SymNew]) ∧
  run demo_sys silent_backend
    [OpReadLtoObject mf_a; OpDoLto; OpReadLtoObject mf_b]
    (initial_state demo_ctx) = Ok demo_silent_late ∧
  ¬ (∀ backend mf0 s, phase s = 2 →
       is_ok (read_lto_object demo_sys backend mf0 s) = false).
Proof.
  assert (Hneg : ¬ (∀ backend mf0 s, phase s = 2 →
                      is_ok (read_lto_object demo_sys backend mf0 s) = false)).
  { intros H. specialize (H silent_backend mf_b demo_silent_linked eq_refl).
    vm_compute in H. discriminate. }
  split_and!; [vm_compute; reflexivity..|exact Hneg].
Qed.

Lemma C6_witness :
  phase (initial_state demo_ctx) ≠ 1 ∧
  do_lto demo_sys demo_backend (initial_state demo_ctx) = Err AssertFail ∧
  step demo_sys demo_backend OpDoLto demo_collected = Ok demo_linked ∧
  phase demo_collected = 1 ∧ phase demo_linked = 2 ∧
  is_ok (read_lto_object demo_sys demo_backend mf_b demo_linked) = false ∧
  phase demo_silent_linked = 2 ∧
  ∃ s' o,
    read_lto_object demo_sys silent_backend mf_b demo_silent_linked
    = Ok (s', 2%nat) ∧
    phase s' = 2 ∧
    files (ctx s') !! 2%nat = Some (InputObject o) ∧
    is_lto_obj o = true ∧ symbols o = [SymNew].
Proof.
  pose proof (C6_phase_transitions demo_sys demo_backend)
    as (H1 & _ & _ & _ & _ & H6 & _ & H8 & _).
  pose proof (C6_phase_transitions demo_sys silent_backend)
    as (_ & _ & _ & _ & _ & _ & _ & _ & _ & H10).
  assert (Hph : phase (initial_state demo_ctx) ≠ 1) by (simpl; lia).
  split; [exact Hph|]. split; [exact (H6 _ Hph)|].
  split; [exact demo_do_lto|]. split; [reflexivity|]. split; [reflexivity|].
  split.
  { apply H8; [reflexivity|].
    intros fn f. eexists _, _, _. apply list_elem_of_here. }
  split; [reflexivity|].
  destruct (H10 mf_b demo_silent_linked 1%nat 3 [] LDPS_OK _
              eq_refl eq_refl ltac:(discriminate) eq_refl eq_refl eq_refl
              eq_refl) as (_ & s' & o & Hr & Hph' & Ho & Hir & Hsyms).
  exists s', o. split; [exact Hr|]. split; [exact Hph'|].
  split; [exact Ho|]. split; [exact Hir | exact Hsyms].
Defined.

Lemma C8_witness :
  run demo_sys demo_backend
    [OpReadLtoObject mf_a; OpReadLtoObject mf_b; OpLinker demo_adopt]
    (initial_state demo_ctx) = Ok demo_collected ∧
  ∃ a, loader_log demo_collected =
         [EvDlopen (plugin a); EvDlsym "onload"; EvOnload (plugin_table a)].
Proof.
  split; [exact demo_run_collects|].
  apply (proj1 (C8_loader_runs_once demo_sys demo_backend demo_ctx _ _
                  demo_run_collects)).
  exists mf_a. apply list_elem_of_here.
Defined.


(** On the small link the claim hook of a.o delivers one record, so the
    object has two symbols. *)
Example demo_symbol_count :
  (do o <- lookup_obj (ctx demo_ingested_a) 0%nat;
   Ok (symbols o, length (elf_syms o), length (sym_fragments o),
       length (symvers o)))
  = Ok ([SymNew; SymNamed "foo"], 2%nat, 2%nat, 2%nat).
Proof. vm_compute. reflexivity. Qed.

(** * Further properties of the code *)

(** ** The resolution bridge: what a query writes *)

Lemma preempt_loop_bound (n : nat) :
  ∀ i psyms psyms', preempt_loop n i psyms = Ok psyms' →
                    n = 0%nat ∨ (i + n ≤ length psyms)%nat.
Proof.
  induction n as [|n IH]; intros i psyms psyms'; simpl; [auto|].
  destruct (psyms !! i) as [psym|] eqn:Hi; [|discriminate].
  apply lookup_lt_Some in Hi. intros [->|H]%IH; right; [lia|].
  rewrite length_insert in H. lia.
Qed.

Lemma resolve_loop_inv c handle syms (n : nat) :
  ∀ (i : nat) (psyms psyms' : list PluginSymbol),
    resolve_loop c handle syms n i psyms = Ok psyms' →
    length psyms' = length psyms ∧
    (∀ j : nat, ¬ (i ≤ j < i + n)%nat → psyms' !! j = psyms !! j) ∧
    (∀ j : nat, (i ≤ j < i + n)%nat →
       ∃ psym sp sym r,
         psyms !! j = Some psym ∧ syms !! (j + 1)%nat = Some sp ∧
         deref_sym c sp = Ok sym ∧
         get_resolution c handle psym sym = Ok r ∧
         psyms' !! j = Some (set_resolution r psym)).
Proof.
  induction n as [|n IH]; intros i psyms psyms'; simpl.
  - intros [= <-]. split_and!; [done..|]. intros j ?; lia.
  - destruct (psyms !! i) as [psym|] eqn:Hi; [|discriminate].
    destruct (syms !! (i + 1)%nat) as [sp|] eqn:Hsp; [|discriminate].
    destruct (deref_sym c sp) as [sym|] eqn:Hd; simpl; [|discriminate].
    destruct (get_resolution c handle psym sym) as [r|] eqn:Hr; simpl;
      [|discriminate].
    intros (Hl & Hout & Hin)%IH. rewrite length_insert in Hl.
    apply lookup_lt_Some in Hi as Hlt.
    split_and!; [done | |].
    + intros j Hj. rewrite Hout by lia. apply list_lookup_insert_ne. lia.
    + intros j Hj. destruct (decide (j = i)) as [->|Hne].
      * exists psym, sp, sym, r. split_and!; [done..|].
        rewrite Hout by lia. apply list_lookup_insert_eq. lia.
      * destruct (Hin j) as (psym' & sp' & sym' & r' & H1 & H2 & H3 & H4 & H5);
          [lia|].
        rewrite list_lookup_insert_ne in H1 by done.
        exists psym', sp', sym', r'. done.
Qed.

Lemma resolve_loop_returns c handle syms (n : nat) :
  ∀ (i : nat) (psyms : list PluginSymbol),
    (i + n ≤ length psyms)%nat →
    (∀ j : nat, (i ≤ j < i + n)%nat →
       ∃ sp sym r, syms !! (j + 1)%nat = Some sp ∧ deref_sym c sp = Ok sym ∧
                   ∀ psym, get_resolution c handle psym sym = Ok r) →
    ∃ psyms', resolve_loop c handle syms n i psyms = Ok psyms'.
Proof.
  induction n as [|n IH]; intros i psyms Hlen Hall; simpl; [eauto|].
  destruct (lookup_lt_is_Some_2 psyms i) as [psym Hi]; [lia|]. rewrite Hi.
  destruct (Hall i) as (sp & sym & r & -> & -> & Hr); [lia|]. simpl.
  rewrite Hr; simpl. apply IH.
  - rewrite length_insert. lia.
  - intros j Hj. apply Hall. lia.
Qed.

Lemma set_resolution_twice r1 r2 psym :
  set_resolution r1 (set_resolution r2 psym) = set_resolution r1 psym.
Proof. done. Qed.

Lemma get_symbols_inv c handle nsyms psyms psyms' st :
  get_symbols c handle nsyms psyms = Ok (psyms', st) →
  ∃ o, lookup_obj c handle = Ok o ∧
    st = (if is_alive o then LDPS_OK else LDPS_NO_SYMS) ∧
    length psyms' = length psyms ∧
    (∀ j : nat, nsyms ≤ Z.of_nat j → psyms' !! j = psyms !! j) ∧
    (∀ j : nat, Z.of_nat j < nsyms →
       ∃ psym r, psyms !! j = Some psym ∧
                 psyms' !! j = Some (set_resolution r psym)).
Proof.
  unfold get_symbols.
  destruct (lookup_obj c handle) as [o|] eqn:Ho; simpl; [|discriminate].
  intros H. exists o. split; [done|]. destruct (is_alive o); simpl in *.
  - destruct (resolve_loop _ _ _ _ _ _) as [l|] eqn:Hr; simpl in *;
      [|discriminate].
    injection H as <- <-.
    apply resolve_loop_inv in Hr as (Hl & Hout & Hin).
    split_and!; [done | done | |].
    + intros j Hj. apply Hout. lia.
    + intros j Hj. destruct (Hin j) as (psym & _ & _ & r & H1 & _ & _ & _ & H5);
        [lia|]. eauto.
  - destruct (preempt_loop _ _ _) as [l|] eqn:Hr; simpl in *; [|discriminate].
    injection H as <- <-.
    apply preempt_loop_bound in Hr as Hb.
    destruct Hb as [Hz|Hb].
    + rewrite Hz in Hr. simpl in Hr. injection Hr as <-.
      split_and!; [done | done | done |]. intros j Hj. lia.
    + destruct (preempt_loop_spec (Z.to_nat nsyms) 0 psyms Hb)
        as (l' & Hr' & Hl & Hj).
      rewrite Hr in Hr'. injection Hr' as <-.
      split_and!; [done | done | |].
      * intros j Hlt. rewrite Hj. case_decide; [lia | done].
      * intros j Hlt. rewrite Hj. case_decide; [|lia].
        destruct (lookup_lt_is_Some_2 psyms j) as [psym Hp]; [lia|].
        rewrite Hp. eauto.
Qed.

(** X1: a query writes nothing but the resolution of the first nsyms records
    of the caller's array: the array keeps its length, the records from
    nsyms on are as they were, and every record keeps its name, kind, type,
    visibility and size. *)
Theorem get_symbols_writes_only_resolutions (c : Context) (handle : ptr)
    (nsyms : Z) (psyms psyms' : list PluginSymbol) (st : PluginStatus) :
  get_symbols c handle nsyms psyms = Ok (psyms', st) →
  length psyms' = length psyms ∧
  (∀ j : nat, nsyms ≤ Z.of_nat j → psyms' !! j = psyms !! j) ∧
  set_resolution LDPR_UNKNOWN <$> psyms'
    = set_resolution LDPR_UNKNOWN <$> psyms.
Proof.
  intros (o & _ & _ & Hl & Hout & Hin)%get_symbols_inv.
  split_and!; [done | done |].
  apply list_eq. intros j. rewrite !list_lookup_fmap.
  destruct (decide (Z.of_nat j < nsyms)) as [Hj|Hj].
  - destruct (Hin j Hj) as (psym & r & -> & ->). done.
  - rewrite Hout by lia. done.
Qed.

(** X2: the status of a query tells whether the object is alive:
    [get_symbols] returns LDPS_OK for a live object and LDPS_NO_SYMS for a
    retired one, and nothing else; [get_symbols_v2] returns LDPS_OK whenever
    it returns. A query for no symbols (nsyms at most 0) returns the array
    as it was, whatever the object's symbol list holds. *)
Theorem get_symbols_status (c : Context) (handle : ptr) (nsyms : Z)
    (psyms : list PluginSymbol) :
  (∀ psyms' st, get_symbols c handle nsyms psyms = Ok (psyms', st) →
     ∃ o, lookup_obj c handle = Ok o ∧
          (is_alive o = true ∧ st = LDPS_OK ∨
           is_alive o = false ∧ st = LDPS_NO_SYMS))
  ∧ (∀ psyms' st, get_symbols_v2 c handle nsyms psyms = Ok (psyms', st) →
       st = LDPS_OK)
  ∧ (∀ o, lookup_obj c handle = Ok o → nsyms ≤ 0 →
       get_symbols c handle nsyms psyms
       = Ok (psyms, if is_alive o then LDPS_OK else LDPS_NO_SYMS)).
Proof.
  split_and!.
  - intros psyms' st (o & Ho & -> & _)%get_symbols_inv. exists o.
    split; [done|]. destruct (is_alive o); auto.
  - intros psyms' st. unfold get_symbols_v2.
    destruct (get_symbols c handle nsyms psyms) as [[l st0]|] eqn:Hg; simpl;
      [|discriminate].
    intros [= <- <-]. apply get_symbols_inv in Hg as (o & _ & -> & _).
    by destruct (is_alive o).
  - intros o Ho Hn. unfold get_symbols. rewrite Ho; simpl.
    replace (Z.to_nat nsyms) with 0%nat by lia. by destruct (is_alive o).
Qed.

(** X3: asking again gives the same answer: a query that succeeded,
    repeated on the array it returned against the same context, returns
    that array and that status. *)
Theorem get_symbols_idempotent (c : Context) (handle : ptr) (nsyms : Z)
    (psyms psyms' : list PluginSymbol) (st : PluginStatus) :
  get_symbols c handle nsyms psyms = Ok (psyms', st) →
  get_symbols c handle nsyms psyms' = Ok (psyms', st).
Proof.
  unfold get_symbols.
  destruct (lookup_obj c handle) as [o|] eqn:Ho; simpl; [|discriminate].
  destruct (is_alive o); simpl.
  - destruct (resolve_loop _ _ _ _ _ psyms) as [l|] eqn:Hr; simpl;
      [|discriminate].
    intros [= <- <-].
    apply resolve_loop_inv in Hr as (Hl & Hout & Hin).
    destruct (resolve_loop_returns c handle (symbols o) (Z.to_nat nsyms) 0 l)
      as [l2 Hr2].
    { destruct (Z.to_nat nsyms) as [|n] eqn:Hn; [simpl; lia|].
      destruct (Hin n) as (psym & _ & _ & _ & H1 & _); [lia|].
      apply lookup_lt_Some in H1. lia. }
    { intros j Hj.
      destruct (Hin j Hj) as (psym & sp & sym & r & _ & H2 & H3 & H4 & _).
      exists sp, sym, r. split_and!; [done | done |]. intros psym'. exact H4. }
    rewrite Hr2; simpl. do 2 f_equal.
    apply resolve_loop_inv in Hr2 as (Hl2 & Hout2 & Hin2).
    apply list_eq. intros j.
    destruct (decide (0 ≤ j < 0 + Z.to_nat nsyms)%nat) as [Hj|Hj].
    + destruct (Hin j Hj) as (psym & sp & sym & r & H1 & H2 & H3 & H4 & H5).
      destruct (Hin2 j Hj) as (psym2 & sp2 & sym2 & r2 & K1 & K2 & K3 & K4 & K5).
      rewrite K5, H5. rewrite H5 in K1. injection K1 as <-.
      rewrite H2 in K2. injection K2 as <-. rewrite H3 in K3. injection K3 as <-.
      assert (r2 = r) as -> by (unfold get_resolution in *; congruence).
      done.
    + by rewrite Hout2.
  - destruct (preempt_loop _ _ psyms) as [l|] eqn:Hr; simpl; [|discriminate].
    intros [= <- <-].
    apply preempt_loop_bound in Hr as Hb.
    destruct Hb as [Hz|Hb].
    { rewrite Hz in *. simpl in *. by injection Hr as <-. }
    destruct (preempt_loop_spec (Z.to_nat nsyms) 0 psyms Hb)
      as (l' & Hr' & Hl & Hj).
    rewrite Hr in Hr'. injection Hr' as <-.
    destruct (preempt_loop_spec (Z.to_nat nsyms) 0 l) as (l2 & Hr2 & Hl2 & Hj2);
      [lia|].
    rewrite Hr2; simpl. do 2 f_equal. apply list_eq. intros j.
    rewrite Hj2, Hj. case_decide; [|done].
    by destruct (psyms !! j).
Qed.

Section CallbackProperties.

Variable sys : System.
Variable backend : Backend.

(** ** What the callbacks do to the session *)

Lemma add_input_file_effect path s s' st :
  add_input_file sys path s = Ok (s', st) →
  ∃ o, create_object sys path = Some o ∧ gctx s = true ∧
    file_priority s < 2 ^ 63 - 1 ∧
    s' = set_ctx
           (set_symbol_map
              (resolve_symbols sys (fresh (dom (files (ctx s))))
                 (set_is_alive true (set_priority (file_priority s) o))
                 (symbol_map (ctx s)))
              (set_files
                 (<[fresh (dom (files (ctx s))) :=
                      InputObject
                        (set_is_alive true (set_priority (file_priority s) o))]>
                    (files (ctx s)))
                 (set_objs (objs (ctx s) ++ [fresh (dom (files (ctx s)))])
                    (set_obj_pool
                       (obj_pool (ctx s) ++ [fresh (dom (files (ctx s)))])
                       (ctx s)))))
           (set_file_priority (file_priority s + 1) s).
Proof.
  unfold add_input_file. destruct (gctx s); simpl; [|discriminate].
  destruct (create_object sys path) as [o|]; simpl; [|discriminate].
  destruct (file_priority s <? 2 ^ 63 - 1) eqn:E; simpl; [|discriminate].
  intros [= <- <-]. exists o. split_and!; [done | done | lia | done].
Qed.

Lemma run_callback_statics cb s s' :
  run_callback sys cb s = Ok s' →
  gctx s' = gctx s ∧ dlopen_handle s' = dlopen_handle s ∧
  (handoff_paths [cb] = [] →
   ctx s' = ctx s ∧ file_priority s' = file_priority s).
Proof.
  destruct cb; simpl; try (by intros [= <-]).
  - unfold add_symbols. destruct (phase s =? 1); simpl; [|discriminate].
    destruct (_ && _); simpl; [|discriminate]. by intros [= <-].
  - destruct (add_input_file sys path s) as [[s1 st]|] eqn:Ha; simpl;
      [|discriminate].
    intros [= <-]. apply add_input_file_effect in Ha as (o & _ & _ & _ & ->).
    done.
  - unfold get_view. destruct (lookup_obj _ _) as [o|]; simpl; [|discriminate].
    destruct (mf o); simpl; [|discriminate]. by intros [= <-].
  - destruct (get_symbols_v2 _ _ _ _); simpl; [|discriminate]. by intros [= <-].
  - destruct (get_symbols_v3 _ _ _ _); simpl; [|discriminate]. by intros [= <-].
Qed.

Lemma handoff_paths_cons cb cbs :
  handoff_paths (cb :: cbs) = handoff_paths [cb] ++ handoff_paths cbs.
Proof. unfold handoff_paths. simpl. by destruct cb. Qed.

Lemma run_callbacks_added cbs :
  ∀ s s', run_callbacks sys cbs s = Ok s' →
    gctx s' = gctx s ∧ dlopen_handle s' = dlopen_handle s ∧
    ∃ added,
      objs (ctx s') = objs (ctx s) ++ added ∧
      obj_pool (ctx s') = obj_pool (ctx s) ++ added ∧
      length added = length (handoff_paths cbs) ∧
      file_priority s' = file_priority s + Z.of_nat (length added) ∧
      NoDup added ∧
      ∀ (i : nat) p, added !! i = Some p →
        files (ctx s) !! p = None ∧
        ∃ path o, handoff_paths cbs !! i = Some path ∧
          create_object sys path = Some o ∧
          files (ctx s') !! p
          = Some (InputObject
                    (set_is_alive true
                       (set_priority (file_priority s + Z.of_nat i) o))).
Proof.
  induction cbs as [|cb cbs IH]; intros s s'; cbn [run_callbacks].
  - intros [= <-]. split_and!; [done..|]. exists [].
    rewrite !app_nil_r. split_and!; try done; [simpl; lia | constructor].
  - destruct (run_callback sys cb s) as [s1|] eqn:H1; cbn [bind];
      [|discriminate].
    intros Hrest.
    destruct (IH _ _ Hrest) as (G1 & G2 & added & A1 & A2 & A3 & A4 & A5 & A6).
    apply run_callback_statics in H1 as Hst. destruct Hst as (S1 & S2 & S3).
    split_and!; [congruence | congruence |].
    rewrite handoff_paths_cons.
    destruct (handoff_paths [cb]) as [|path0 l0] eqn:Hcb.
    + destruct (S3 eq_refl) as [Hctx Hfp]. exists added.
      rewrite <- Hctx, <- Hfp. done.
    + destruct cb; try discriminate. injection Hcb as <- <-.
      simpl in H1.
      destruct (add_input_file sys path s) as [[s1' st]|] eqn:Ha; simpl in H1;
        [|discriminate].
      injection H1 as ->. apply add_input_file_ok in Ha as Hok.
      destruct Hok as (o & Hcr & Hok). simpl in Hok.
      destruct Hok as (_ & Hfresh & Hobjs & Hfiles & Hprio & _).
      apply add_input_file_effect in Ha as (o' & Hcr' & _ & _ & Heq).
      rewrite Hcr in Hcr'. injection Hcr' as <-.
      assert (Hpool : obj_pool (ctx s1)
                      = obj_pool (ctx s) ++ [fresh (dom (files (ctx s)))])
        by (rewrite Heq; done).
      set (p := fresh (dom (files (ctx s)))) in *.
      assert (Hp1 : files (ctx s1) !! p
                    = Some (InputObject
                              (set_is_alive true
                                 (set_priority (file_priority s) o))))
        by (rewrite Hfiles; apply lookup_insert_eq).
      assert (Hnotin : p ∉ added).
      { intros (i & Hi)%list_elem_of_lookup. destruct (A6 i p Hi) as [Hn _].
        congruence. }
      exists (p :: added). split_and!.
      * rewrite A1, Hobjs, <- app_assoc. done.
      * rewrite A2, Hpool, <- app_assoc. done.
      * simpl. by rewrite A3.
      * rewrite A4, Hprio. simpl length. lia.
      * by constructor.
      * intros [|i] q Hq; simpl in Hq.
        -- injection Hq as <-. split; [done|].
           exists path, o. split_and!; [done | done |].
           rewrite Z.add_0_r.
           apply run_callbacks_frame in Hrest.
           destruct Hrest as (_ & _ & _ & _ & _ & _ & Hkeep). by apply Hkeep.
        -- destruct (A6 i q Hq) as (Hn & path' & o' & B1 & B2 & B3). split.
           ++ rewrite Hfiles in Hn.
              destruct (decide (p = q)) as [->|Hne];
                [by rewrite lookup_insert_eq in Hn|].
              by rewrite lookup_insert_ne in Hn.
           ++ exists path', o'. split_and!; [done | done |].
              rewrite B3, Hprio. do 4 f_equal. lia.
Qed.


Lemma run_callbacks_app cbs1 cbs2 s :
  run_callbacks sys (cbs1 ++ cbs2) s
  = (do s1 <- run_callbacks sys cbs1 s; run_callbacks sys cbs2 s1).
Proof.
  revert s. induction cbs1 as [|cb cbs1 IH]; intros s; simpl; [done|].
  destruct (run_callback sys cb s); simpl; [apply IH | done].
Qed.

Lemma run_callbacks_no_handoff cbs :
  ∀ s s', run_callbacks sys cbs s = Ok s' → handoff_paths cbs = [] →
          ctx s' = ctx s ∧ file_priority s' = file_priority s.
Proof.
  induction cbs as [|cb cbs IH]; intros s s'; cbn [run_callbacks].
  - by intros [= <-].
  - destruct (run_callback sys cb s) as [s1|] eqn:H1; cbn [bind];
      [|discriminate].
    intros Hrest. rewrite handoff_paths_cons. intros [Hcb Hcbs]%app_eq_nil.
    apply run_callback_statics in H1 as (_ & _ & H1).
    destruct (H1 Hcb) as [<- <-]. by apply IH.
Qed.

(** X4: a sequence of callbacks from the backend leaves the phase, the
    once-flag, the loader's log, the context pointer, the library handle and
    the configuration as they were, keeps every object in memory and every
    member of the active set; and unless one of the callbacks is
    [add_input_file], the whole context and the priority counter are
    untouched. *)
Theorem callbacks_leave_the_session (cbs : list Callback) (s s' : State) :
  run_callbacks sys cbs s = Ok s' →
  phase s' = phase s ∧ flag s' = flag s ∧ loader_log s' = loader_log s ∧
  gctx s' = gctx s ∧ dlopen_handle s' = dlopen_handle s ∧
  arg (ctx s') = arg (ctx s) ∧
  (∀ p f, files (ctx s) !! p = Some f → files (ctx s') !! p = Some f) ∧
  (∀ p, p ∈ objs (ctx s) → p ∈ objs (ctx s')) ∧
  (handoff_paths cbs = [] →
   ctx s' = ctx s ∧ file_priority s' = file_priority s).
Proof.
  intros Hrun.
  pose proof (run_callbacks_frame sys cbs s s' Hrun)
    as (F1 & F2 & F3 & F4 & _ & [added F6] & F7).
  pose proof (run_callbacks_added cbs s s' Hrun) as (G1 & G2 & _).
  split_and!; try done.
  - intros p Hp. rewrite F6. apply elem_of_app. auto.
  - by apply run_callbacks_no_handoff.
Qed.


(** X6: a handed-back path that cannot be opened ends the link: when the
    callbacks before it succeed, the sequence stops there with a Fatal
    diagnostic, and the callbacks after it are not run. Before the loader
    has set the context pointer the call is undefined. *)
Theorem handoff_of_a_missing_file (pre post : list Callback) (path : string)
    (s s1 : State) :
  run_callbacks sys pre s = Ok s1 →
  create_object sys path = None →
  ∃ e, run_callbacks sys (pre ++ CbAddInputFile path :: post) s = Err e ∧
       if gctx s then ∃ msg, e = Fatal msg else e = Undefined.
Proof.
  intros Hpre Hcr. rewrite run_callbacks_app, Hpre. simpl.
  apply run_callbacks_added in Hpre as (Hg & _).
  unfold add_input_file. rewrite Hg. destruct (gctx s); simpl; [|eauto].
  rewrite Hcr. simpl. eauto.
Qed.

(** X7: variant 1 of the query is in the table the backend receives, and
    calling it stops the link: no sequence of callbacks that contains it
    returns. *)
Theorem get_symbols_v1_stops_the_link (a : Args) (cbs : list Callback)
    (s : State) :
  (LDPT_GET_SYMBOLS, TvFn FnGetSymbolsV1) ∈ plugin_table a ∧
  ((∃ handle nsyms psyms, CbGetSymbolsV1 handle nsyms psyms ∈ cbs) →
   is_ok (run_callbacks sys cbs s) = false) ∧
  (∀ pre post handle nsyms psyms s1,
     cbs = pre ++ CbGetSymbolsV1 handle nsyms psyms :: post →
     run_callbacks sys pre s = Ok s1 →
     run_callbacks sys cbs s = Err AssertFail).
Proof.
  split_and!.
  - unfold plugin_table. rewrite !elem_of_app. right; right; right.
    rewrite !elem_of_cons. auto 10.
  - revert s. induction cbs as [|cb cbs IH]; intros s (h & n & ps & Hin).
    + by apply elem_of_nil in Hin.
    + simpl. destruct (run_callback sys cb s) as [s1|] eqn:H1; simpl; [|done].
      apply elem_of_cons in Hin as [<-|Hin]; [discriminate|].
      apply IH. eauto.
  - intros pre post h n ps s1 -> Hpre.
    rewrite run_callbacks_app, Hpre. done.
Qed.

(** ** The driver *)

(** X8: [do_lto] can be used once: after it has returned, a second call
    fails the assertion on the phase, and so does every later
    [add_symbols]. *)
Theorem do_lto_is_single_use (s s' : State) :
  do_lto sys backend s = Ok s' →
  do_lto sys backend s' = Err AssertFail ∧
  (∀ handle nsyms psyms, add_symbols handle nsyms psyms s' = Err AssertFail) ∧
  (∀ ops s'', run sys backend ops s' = Ok s'' → OpDoLto ∉ ops).
Proof.
  intros (_ & Hph & _)%do_lto_ok.
  assert (Hd : ∀ s0, phase s0 = 2 → do_lto sys backend s0 = Err AssertFail).
  { intros s0 H0. unfold do_lto. rewrite H0. done. }
  split_and!.
  - by apply Hd.
  - intros h n ps. unfold add_symbols. rewrite Hph. done.
  - intros ops. revert s' Hph.
    induction ops as [|op ops IH]; intros s1 Hph s''; simpl.
    + intros _ Hin. by apply elem_of_nil in Hin.
    + destruct (step sys backend op s1) as [s2|] eqn:Hst; simpl; [|discriminate].
      intros Hrun [<-|Hin]%elem_of_cons.
      * simpl in Hst. rewrite Hd in Hst by done. discriminate.
      * assert (Hph2 : phase s2 = 2).
        { apply step_session in Hst
            as (_ & _ & [(-> & _)|[(_ & _ & _ & ? & _)|(_ & ? & _)]]); lia. }
        exact (IH s2 Hph2 s'' Hrun Hin).
Qed.

Lemma do_lto_marks_dead s s' p o :
  do_lto sys backend s = Ok s' →
  p ∈ objs (ctx s) → files (ctx s) !! p = Some (InputObject o) →
  is_lto_obj o = true →
  files (ctx s') !! p = Some (InputObject (set_is_alive false o)).
Proof.
  intros (_ & _ & fn & s1 & c & _ & Hcb & Hm & He & Hfiles & _)%do_lto_ok
         Hp Ho Hir.
  apply run_callbacks_frame in Hcb
    as (_ & _ & _ & _ & _ & [added Hobjs] & Hkeep).
  simpl in Hobjs, Hkeep.
  apply mark_ir_dead_spec in Hm as (_ & _ & _ & _ & _ & H6).
  apply Hkeep in Ho. rewrite Hfiles, H6, Ho. simpl.
  rewrite bool_decide_eq_true_2, Hir; [done|].
  rewrite Hobjs. apply elem_of_app. auto.
Qed.

(** X9: after [do_lto] has returned, a resolution query through any IR
    object that was in the active set answers as for a retired object: the
    resolution of every requested record is LDPR_PREEMPTED_REG, with the
    rest of the record as it was, variant 3 returns LDPS_NO_SYMS and
    variant 2 LDPS_OK. *)
Theorem retired_by_do_lto_answers_preempted (s s' : State) (p : ptr)
    (o : ObjectFile) (nsyms : Z) (psyms : list PluginSymbol) :
  do_lto sys backend s = Ok s' →
  p ∈ objs (ctx s) → files (ctx s) !! p = Some (InputObject o) →
  is_lto_obj o = true →
  nsyms ≤ Z.of_nat (length psyms) →
  ∃ psyms',
    get_symbols_v3 (ctx s') p nsyms psyms = Ok (psyms', LDPS_NO_SYMS) ∧
    get_symbols_v2 (ctx s') p nsyms psyms = Ok (psyms', LDPS_OK) ∧
    length psyms' = length psyms ∧
    (∀ i : nat, Z.of_nat i < nsyms →
       ∃ psym psym',
         psyms !! i = Some psym ∧ psyms' !! i = Some psym' ∧
         resolution psym' = LDPR_PREEMPTED_REG ∧
         name psym' = name psym ∧ def psym' = def psym ∧
         symbol_type psym' = symbol_type psym ∧
         visibility psym' = visibility psym ∧ size psym' = size psym) ∧
    (∀ i : nat, nsyms ≤ Z.of_nat i → psyms' !! i = psyms !! i).
Proof.
  intros Hdo Hp Ho Hir Hn.
  pose proof (do_lto_marks_dead s s' p o Hdo Hp Ho Hir) as Hdead.
  destruct (preempt_loop_spec (Z.to_nat nsyms) 0 psyms)
    as (psyms' & Hrun & Hl & Hj); [lia|].
  exists psyms'. unfold get_symbols_v2, get_symbols_v3, get_symbols, lookup_obj.
  rewrite Hdead; simpl. rewrite Hrun; simpl. split_and!; [done | done | done | |].
  - intros i Hi.
    destruct (lookup_lt_is_Some_2 psyms i) as [psym Hpi]; [lia|].
    exists psym, (set_resolution LDPR_PREEMPTED_REG psym).
    split_and!; try done.
    rewrite Hj, Hpi. case_decide; [done | lia].
  - intros i Hi. rewrite Hj. case_decide; [lia | done].
Qed.

(** X10: [do_lto] returns whenever the phase is 1, the backend has registered
    its all-symbols-read hook, the callbacks that hook makes succeed, and
    every member of the active set is an object in memory. *)
Theorem do_lto_succeeds (s s1 : State) (fn : fnptr) :
  phase s = 1 →
  all_symbols_read_hook s = Some fn →
  run_callbacks sys (all_symbols_read backend fn) (set_phase 2 s) = Ok s1 →
  (∀ p, p ∈ objs (ctx s) → ∃ o, files (ctx s) !! p = Some (InputObject o)) →
  ∃ s', do_lto sys backend s = Ok s'.
Proof.
  intros Hph Hfn Hcb Hvalid.
  apply (do_lto_returns sys backend s fn s1 Hph Hfn Hcb).
  pose proof (run_callbacks_frame sys _ _ _ Hcb) as (_&_&_&_&_&_& Hkeep).
  pose proof (run_callbacks_added _ _ _ Hcb)
    as (_ & _ & added & A1 & _ & _ & _ & _ & A6).
  simpl in *. intros p. rewrite A1. intros [Hp|Hp]%elem_of_app.
  - destruct (Hvalid p Hp) as [o Ho]. exists o. by apply Hkeep.
  - apply list_elem_of_lookup in Hp as [i Hi].
    destruct (A6 i p Hi) as (_ & path & o & _ & _ & Ho). eauto.
Qed.

(** ** Hooks that were never registered *)

(** X11: of the three hooks only the cleanup hook is tested before it is
    called: [lto_cleanup] without a cleanup hook returns with the session
    untouched, while an ingestion without a claim hook and a compilation
    without an all-symbols-read hook call through a null pointer. *)
Theorem only_the_cleanup_hook_is_checked (s : State) :
  (cleanup_hook s = None → lto_cleanup sys backend s = Ok s) ∧
  (all_symbols_read_hook s = None → phase s = 1 →
   do_lto sys backend s = Err Undefined) ∧
  (∀ mf0 fd, claim_file_hook s = None → flag s = true →
     plugin (arg (ctx s)) ≠ "" →
     open_file sys (default (mf_name mf0) (mf_parent mf0)) = Some fd →
     read_lto_object sys backend mf0 s = Err Undefined).
Proof.
  split_and!.
  - intros H. unfold lto_cleanup. by rewrite H.
  - intros H Hph. unfold do_lto. rewrite Hph; simpl. by rewrite H.
  - intros mf0 fd H Hfl Hpl Hopen.
    unfold read_lto_object, read_lto_object_claim, call_once_load_plugin.
    rewrite decide_False by done. rewrite Hfl; simpl. rewrite Hopen; simpl.
    by rewrite H.
Qed.

(** X12: without an ingestion nothing of the session changes: a run from the
    initial statics that contains no [read_lto_object] and returns has not
    compiled either, its statics are the initial ones, and [lto_cleanup]
    at its end returns with the state as it is. *)
Theorem cleanup_without_ingestion (c : Context) (ops : list Op) (s' : State) :
  run sys backend ops (initial_state c) = Ok s' →
  (∀ mf0, OpReadLtoObject mf0 ∉ ops) →
  s' = initial_state (ctx s') ∧ (OpDoLto ∉ ops) ∧
  lto_cleanup sys backend s' = Ok s'.
Proof.
  revert c. induction ops as [|op ops IH]; intros c; simpl.
  - intros [= <-] _. split_and!; [done | | done].
    intros Hin. by apply elem_of_nil in Hin.
  - destruct (step sys backend op (initial_state c)) as [s1|] eqn:Hst; simpl;
      [|discriminate].
    intros Hrun Hno.
    assert (Hs1 : s1 = initial_state (ctx s1) ∧ op ≠ OpDoLto).
    { destruct op as [mf0| | |f]; simpl in Hst.
      - exfalso. apply (Hno mf0), elem_of_cons. auto.
      - discriminate.
      - injection Hst as <-. done.
      - injection Hst as <-. done. }
    destruct Hs1 as [Hs1 Hop]. rewrite Hs1 in Hrun.
    destruct (IH _ Hrun) as (H1 & H2 & H3).
    { intros mf0 Hin. apply (Hno mf0), elem_of_cons. auto. }
    split_and!; [done | | done].
    intros [?|?]%elem_of_cons; done.
Qed.

End CallbackProperties.

Lemma delivered_snoc cbs handle nsyms psyms before :
  delivered (cbs ++ [CbAddSymbols handle nsyms psyms]) before
  = take (Z.to_nat nsyms) psyms.
Proof. unfold delivered. by rewrite foldl_app. Qed.

Lemma read_symbols_symbol_map (E : Target) (psyms : list PluginSymbol) :
  ∀ c esyms syms c' esyms' syms',
    read_symbols E psyms c esyms syms = (c', esyms', syms') →
    (∀ n sym, symbol_map c !! n = Some sym → symbol_map c' !! n = Some sym) ∧
    (∀ psym, psym ∈ psyms → is_Some (symbol_map c' !! name psym)) ∧
    (∀ n sym, symbol_map c' !! n = Some sym →
       symbol_map c !! n = Some sym ∨
       (file sym = None ∧ ∃ psym, psym ∈ psyms ∧ name psym = n)).
Proof.
  induction psyms as [|psym psyms IH]; intros c esyms syms c' esyms' syms'; simpl.
  - intros [= <- <- <-]. split_and!; [done | | auto].
    intros psym Hin. by apply elem_of_nil in Hin.
  - destruct (get_symbol (name psym) c) as [c1 sp] eqn:Hg.
    intros (H1 & H2 & H3)%IH.
    assert (Hc1 : (∀ n sym, symbol_map c !! n = Some sym →
                            symbol_map c1 !! n = Some sym) ∧
                  is_Some (symbol_map c1 !! name psym) ∧
                  (∀ n sym, symbol_map c1 !! n = Some sym →
                     symbol_map c !! n = Some sym ∨
                     (file sym = None ∧ name psym = n))).
    { unfold get_symbol in Hg.
      destruct (symbol_map c !! name psym) as [sym0|] eqn:Hn;
        injection Hg as <- <-; simpl.
      - split_and!; [done | by rewrite Hn | auto].
      - split_and!.
        + intros n sym Hl. rewrite lookup_insert_ne; [done|]. congruence.
        + rewrite lookup_insert_eq. eauto.
        + intros n sym. destruct (decide (name psym = n)) as [<-|Hne].
          * rewrite lookup_insert_eq. intros [= <-]. auto.
          * rewrite lookup_insert_ne by done. auto. }
    destruct Hc1 as (K1 & K2 & K3). split_and!.
    + auto.
    + intros q [->|Hq]%elem_of_cons; [|auto].
      destruct K2 as [sym Hsym]. exists sym. auto.
    + intros n sym [Hl|(Hf & q & Hq & Hn)]%H3.
      * destruct (K3 n sym Hl) as [?|[Hf Hn]]; [auto|].
        right. split; [done|]. exists psym. split; [left | done].
      * right. split; [done|]. exists q. split; [by right | done].
Qed.

Section IngestionProperties.

Variable sys : System.
Variable backend : Backend.

Lemma run_callbacks_objs_in_memory cbs s s' :
  run_callbacks sys cbs s = Ok s' →
  objs_in_memory (ctx s) → objs_in_memory (ctx s').
Proof.
  intros Hrun Hwf q.
  pose proof (run_callbacks_frame sys _ _ _ Hrun) as (_&_&_&_&_&_& Hkeep).
  pose proof (run_callbacks_added sys _ _ _ Hrun)
    as (_ & _ & added & A1 & _ & _ & _ & _ & A6).
  rewrite A1. intros [Hq|Hq]%elem_of_app.
  - destruct (Hwf q Hq) as [f Hf]. exists f. auto.
  - apply list_elem_of_lookup in Hq as [i Hi].
    destruct (A6 i q Hi) as (_ & path & o & _ & _ & Ho). eauto.
Qed.

Lemma load_plugin_effect s s' :
  load_plugin sys backend s = Ok s' →
  ∃ h, dlopen sys (plugin (arg (ctx s))) = Some h ∧
       dlsym_onload sys h = true ∧
       gctx s' = true ∧ dlopen_handle s' = Some h ∧
       (objs_in_memory (ctx s) → objs_in_memory (ctx s')).
Proof.
  unfold load_plugin. destruct (phase s =? 0); simpl; [|discriminate].
  destruct (dlopen sys _) as [h|]; [|discriminate].
  destruct (dlsym_onload sys h) eqn:Hd; simpl; [|discriminate].
  intros Hrun. exists h.
  pose proof (run_callbacks_added sys _ _ _ Hrun) as (G1 & G2 & _).
  split_and!; [done | done | done | done |].
  apply (run_callbacks_objs_in_memory _ _ _ Hrun).
Qed.

Lemma call_once_effect s s0 :
  call_once_load_plugin sys backend s = Ok s0 →
  (objs_in_memory (ctx s) → objs_in_memory (ctx s0)) ∧
  ((flag s = true ∧ s0 = s) ∨
   (flag s = false ∧
    ∃ h, dlopen sys (plugin (arg (ctx s))) = Some h ∧
         dlsym_onload sys h = true ∧
         gctx s0 = true ∧ dlopen_handle s0 = Some h)).
Proof.
  unfold call_once_load_plugin. destruct (flag s) eqn:Hf.
  - intros [= <-]. split; [done | by left].
  - destruct (load_plugin sys backend s) as [s1|] eqn:Hl; simpl; [|discriminate].
    intros [= <-]. apply load_plugin_effect in Hl as (h & ? & ? & ? & ? & ?).
    split; [done|]. right. split; [done|]. exists h. done.
Qed.

Lemma read_lto_object_unfold mf0 s s' p :
  read_lto_object sys backend mf0 s = Ok (s', p) →
  plugin (arg (ctx s)) ≠ "" ∧
  ∃ s0 fd fn cbs st s1,
    call_once_load_plugin sys backend s = Ok s0 ∧
    p = fresh (dom (files (ctx s0))) ∧
    open_file sys (default (mf_name mf0) (mf_parent mf0)) = Some fd ∧
    claim_file_hook s0 = Some fn ∧
    claim_file backend fn (offered_file mf0 fd p) = (cbs, true, st) ∧
    run_callbacks sys cbs
      (set_ctx (set_files (<[p := InputObject (new_ir_object sys mf0)]>
                             (files (ctx s0))) (ctx s0)) s0) = Ok s1 ∧
    read_lto_object_symbols sys p s1 = Ok (s', p).
Proof.
  unfold read_lto_object, read_lto_object_claim.
  case_decide as Hpl; [discriminate|].
  destruct (call_once_load_plugin sys backend s) as [s0|] eqn:Hc; simpl;
    [|discriminate].
  destruct (open_file sys _) as [fd|] eqn:Hopen; simpl; [|discriminate].
  destruct (claim_file_hook s0) as [fn|] eqn:Hfn; simpl; [|discriminate].
  destruct (claim_file backend fn _) as [[cbs claimed] st] eqn:Hcl.
  destruct (run_callbacks sys cbs _) as [s1|] eqn:Hrun; simpl; [|discriminate].
  destruct claimed; simpl; [|discriminate].
  intros Hs. split; [done|].
  exists s0, fd, fn, cbs, st, s1.
  assert (p = fresh (dom (files (ctx s0)))) as ->.
  { unfold read_lto_object_symbols in Hs.
    destruct (lookup_obj _ _); simpl in Hs; [|discriminate].
    destruct (read_symbols _ _ _ _ _) as [[? ?] ?]. by injection Hs. }
  split_and!; done.
Qed.

Lemma read_lto_object_symbols_unfold p s s' :
  read_lto_object_symbols sys p s = Ok (s', p) →
  ∃ o c esyms syms,
    files (ctx s) !! p = Some (InputObject o) ∧
    read_symbols (target sys) (plugin_symbols s) (ctx s) [esym_zero] (symbols o)
      = (c, esyms, syms) ∧
    symbol_map (ctx s') = symbol_map c ∧
    gctx s' = gctx s ∧ dlopen_handle s' = dlopen_handle s ∧
    claim_file_hook s' = claim_file_hook s ∧
    all_symbols_read_hook s' = all_symbols_read_hook s ∧
    cleanup_hook s' = cleanup_hook s ∧ obj_pool (ctx s') = obj_pool (ctx s).
Proof.
  unfold read_lto_object_symbols.
  destruct (lookup_obj (ctx s) p) as [o|] eqn:Ho; simpl; [|discriminate].
  apply lookup_obj_ok in Ho.
  destruct (read_symbols _ _ _ _ _) as [[c esyms] syms] eqn:Hr.
  intros [= <-]. exists o, c, esyms, syms.
  apply read_symbols_spec in Hr as Hr'. simpl.
  split_and!; try done.
  clear Hr'. revert Hr. generalize (symbols o) as l, [esym_zero] as e, (ctx s) as c0.
  induction (plugin_symbols s) as [|psym psyms IH]; intros l e c0; simpl.
  - by intros [= <- _ _].
  - destruct (get_symbol (name psym) c0) as [c1 sp] eqn:Hg.
    intros H%IH. rewrite H. unfold get_symbol in Hg.
    destruct (symbol_map c0 !! name psym); by injection Hg as <- _.
Qed.

(** X13: what the backend is offered and what comes back: when an ingestion
    returns, the claim hook was called once, with the path of the enclosing
    archive if the region is a member of one and the file's own path if not,
    the region's offset and size, and the address of the returned object as
    its handle; the hook claimed the file; and the symbols of the object
    are, after the null entry, the records of the last [add_symbols] the
    hook made, in their order. *)
Theorem ingestion_offers_the_region (mf0 : MappedFile) (s s' : State) (p : ptr) :
  read_lto_object sys backend mf0 s = Ok (s', p) →
  ∃ s0 fd fn cbs st o,
    call_once_load_plugin sys backend s = Ok s0 ∧
    open_file sys (default (mf_name mf0) (mf_parent mf0)) = Some fd ∧
    claim_file_hook s0 = Some fn ∧
    claim_file backend fn
      {| pif_name := default (mf_name mf0) (mf_parent mf0); pif_fd := fd;
         pif_offset := mf_offset mf0; pif_filesize := mf_size mf0;
         pif_handle := p |} = (cbs, true, st) ∧
    files (ctx s') !! p = Some (InputObject o) ∧
    symbols o
    = SymNew :: map (λ psym, SymNamed (name psym))
                  (delivered cbs (plugin_symbols s0)) ∧
    elf_syms o
    = esym_zero :: map (to_elf_sym (target sys))
                    (delivered cbs (plugin_symbols s0)) ∧
    (∀ pre handle nsyms psyms,
       cbs = pre ++ [CbAddSymbols handle nsyms psyms] →
       symbols o
       = SymNew :: map (λ psym, SymNamed (name psym))
                     (take (Z.to_nat nsyms) psyms)).
Proof.
  intros Hr.
  apply read_lto_object_unfold in Hr
    as (_ & s0 & fd & fn & cbs & st & s1 & H1 & _ & H3 & H4 & H5 & H6 & H7).
  apply read_lto_object_symbols_ok in H7 as (_ & o1 & Ho1 & Hfiles & _).
  pose proof (run_callbacks_frame sys _ _ _ H6) as (_&_&_&_&_&_& Hkeep).
  rewrite (Hkeep p (InputObject (new_ir_object sys mf0))) in Ho1
    by apply lookup_insert_eq.
  injection Ho1 as <-.
  apply run_callbacks_plugin_symbols in H6. simpl in H6, Hfiles.
  eexists s0, fd, fn, cbs, st, _. rewrite Hfiles, lookup_insert_eq.
  split_and!; [done | done | done | exact H5 | reflexivity | | |].
  - simpl. by rewrite H6.
  - simpl. by rewrite H6.
  - intros pre h n ps ->. simpl. by rewrite H6, delivered_snoc.
Qed.

(** X14: the object an ingestion returns is a new one, and the active set is
    not told: with every member of the active set in memory on entry, the
    returned address held nothing before and is not a member of the active
    set on return; the object there is flagged is_lto_obj, with first_global
    1, the mapped region as its file and is_alive as the constructor left
    it; every object that was in memory and every member of the active set
    is still there, unchanged; and [plugin_symbols] is empty again. *)
Theorem ingestion_returns_a_new_object (mf0 : MappedFile) (s s' : State)
    (p : ptr) :
  read_lto_object sys backend mf0 s = Ok (s', p) →
  objs_in_memory (ctx s) →
  files (ctx s) !! p = None ∧ (p ∉ objs (ctx s')) ∧
  (∃ o, files (ctx s') !! p = Some (InputObject o) ∧ is_lto_obj o = true ∧
        first_global o = 1 ∧ mf o = Some mf0 ∧
        is_alive o = new_is_alive sys) ∧
  (∀ q f, files (ctx s) !! q = Some f → files (ctx s') !! q = Some f) ∧
  (∀ q, q ∈ objs (ctx s) → q ∈ objs (ctx s')) ∧
  objs_in_memory (ctx s') ∧
  plugin_symbols s' = [].
Proof.
  intros Hr Hwf.
  pose proof (read_lto_object_result sys backend _ _ _ _ Hr)
    as (s1 & o & _ & Ho & Hir & _ & _ & _ & _ & _ & Hal).
  pose proof (read_lto_object_unfold _ _ _ _ Hr)
    as (_ & s0 & fd & fn & cbs & st & s1' & H1 & Hp & _ & _ & _ & H6 & H7).
  apply read_lto_object_symbols_ok in H7 as H7'.
  destruct H7' as (_ & o1 & Ho1 & Hfiles & Hobjs & _ & _ & _ & _ & _ & Hps).
  pose proof (call_once_load_plugin_ok sys backend _ _ H1)
    as (_ & _ & _ & [added0 Hobjs0] & Hkeep0 & _).
  pose proof (call_once_effect _ _ H1) as [Hwf0 _]. specialize (Hwf0 Hwf).
  pose proof (run_callbacks_frame sys _ _ _ H6) as (_&_&_&_&_&_& Hkeep1).
  pose proof (run_callbacks_added sys _ _ _ H6)
    as (_ & _ & added1 & A1 & _ & _ & _ & _ & A6).
  cbn [ctx files objs set_ctx set_files] in Hkeep1, A1, A6.
  assert (Hfresh : files (ctx s0) !! p = None)
    by (rewrite Hp; apply not_elem_of_dom, is_fresh).
  assert (Hne : ∀ q f, files (ctx s0) !! q = Some f → q ≠ p)
    by (intros q f Hq ->; congruence).
  assert (Hkeep : ∀ q f, files (ctx s) !! q = Some f →
                         files (ctx s') !! q = Some f).
  { intros q f Hq. apply Hkeep0 in Hq. rewrite Hfiles.
    rewrite lookup_insert_ne by (symmetry; eauto).
    apply Hkeep1. rewrite lookup_insert_ne by (symmetry; eauto). done. }
  assert (Hobj_new : files (ctx s') !! p = Some (InputObject o)) by done.
  split_and!.
  - destruct (files (ctx s) !! p) as [f|] eqn:Hf; [|done].
    apply Hkeep0 in Hf. congruence.
  - rewrite Hobjs, A1. intros [Hq|Hq]%elem_of_app.
    + destruct (Hwf0 p Hq) as [f Hf]. congruence.
    + apply list_elem_of_lookup in Hq as [i Hi].
      destruct (A6 i p Hi) as [Hn _]. by rewrite lookup_insert_eq in Hn.
  - exists o. rewrite Hfiles, lookup_insert_eq in Ho. injection Ho as <-.
    rewrite Hfiles, lookup_insert_eq. split_and!; try done.
    + rewrite (Hkeep1 p (InputObject (new_ir_object sys mf0))) in Ho1;
        [|apply lookup_insert_eq].
      injection Ho1 as <-. done.
    + rewrite (Hkeep1 p (InputObject (new_ir_object sys mf0))) in Ho1;
        [|apply lookup_insert_eq].
      injection Ho1 as <-. done.
  - done.
  - intros q Hq. rewrite Hobjs, A1, Hobjs0. rewrite !elem_of_app. auto.
  - intros q. rewrite Hobjs. intros Hq.
    assert (Hs1 : objs_in_memory (ctx s1')).
    { apply (run_callbacks_objs_in_memory _ _ _ H6).
      unfold objs_in_memory. cbn [ctx files objs set_ctx set_files].
      intros q' Hq'. destruct (Hwf0 q' Hq') as [f Hf].
      exists f. rewrite lookup_insert_ne; [done|]. symmetry. eauto. }
    destruct (Hs1 q Hq) as [f Hf]. rewrite Hfiles.
    destruct (decide (p = q)) as [->|Hn].
    + rewrite lookup_insert_eq. eauto.
    + rewrite lookup_insert_ne by done. eauto.
  - done.
Qed.

(** X15: every symbol of the returned object can be looked up: each pointer
    of its symbol list leads to a symbol of the table as the ingestion
    leaves it. Interning changes no entry that the table held when the
    claim hook returned, and an entry it adds has no owner and carries the
    name of one of the delivered records. *)
Theorem ingestion_interns_the_symbols (mf0 : MappedFile) (s s' : State)
    (p : ptr) :
  read_lto_object sys backend mf0 s = Ok (s', p) →
  ∃ s1 o,
    read_lto_object_claim sys backend mf0 s = Ok (s1, p) ∧
    files (ctx s') !! p = Some (InputObject o) ∧
    (∀ sp, sp ∈ symbols o → ∃ sym, deref_sym (ctx s') sp = Ok sym) ∧
    (∀ n sym, symbol_map (ctx s1) !! n = Some sym →
              symbol_map (ctx s') !! n = Some sym) ∧
    (∀ n sym, symbol_map (ctx s') !! n = Some sym →
       symbol_map (ctx s1) !! n = Some sym ∨
       (file sym = None ∧
        ∃ psym, psym ∈ plugin_symbols s1 ∧ name psym = n)).
Proof.
  intros Hr.
  pose proof (read_lto_object_result sys backend _ _ _ _ Hr)
    as (s1 & o & Hc & Ho & _ & Hsyms & _).
  apply read_lto_object_ok in Hr as (s1' & Hc' & Hs).
  rewrite Hc in Hc'. injection Hc' as <-.
  apply read_lto_object_symbols_unfold in Hs
    as (o1 & c & esyms & syms & _ & Hrs & Hmap & _).
  apply read_symbols_symbol_map in Hrs as (K1 & K2 & K3).
  exists s1, o. rewrite Hmap. split_and!; [done | done | | done | done].
  intros sp. rewrite Hsyms.
  intros [->|(psym & -> & Hin)%list_elem_of_fmap]%elem_of_cons.
  - simpl. eauto.
  - simpl. rewrite Hmap. destruct (K2 psym Hin) as [sym ->]. eauto.
Qed.

End IngestionProperties.

(** ** The priority counter *)

Section PriorityProperties.

Variable sys : System.
Variable backend : Backend.







End PriorityProperties.




(** ** The table *)

(** X16: the table handed to onload is terminated: its last entry, and no
    other, carries the null tag, so the backend sees every entry. The
    option strings appear in the order of the configuration, the single
    linker-output entry is the second one, "shared" before "pie" before the
    plain executable, and apart from the options no tag appears twice. *)
Theorem plugin_table_is_terminated (a : Args) :
  (∃ front, plugin_table a = front ++ [(LDPT_NULL, TvInt 0)] ∧
            ∀ e, e ∈ front → e.1 ≠ LDPT_NULL)
  ∧ table_options (plugin_table a) = plugin_opt a
  ∧ length (plugin_table a) = (29 + length (plugin_opt a))%nat
  ∧ plugin_table a !! 1%nat
    = Some (LDPT_LINKER_OUTPUT,
            TvOutput (if shared a then LDPO_DYN
                      else if pie a then LDPO_PIE else LDPO_EXEC))
  ∧ NoDup (filter (λ t, t ≠ LDPT_OPTION) (fst <$> plugin_table a)).
Proof.
  assert (Hopts : ∀ l : list string,
    Forall (λ e : PluginTagValue, e.1 = LDPT_OPTION)
      (map (λ opt, (LDPT_OPTION, TvString opt)) l)).
  { intros l. apply Forall_forall. intros e (opt & -> & _)%list_elem_of_fmap.
    done. }
  assert (Hfilter : ∀ l : list string,
    filter (λ t, t ≠ LDPT_OPTION)
      (fst <$> map (λ opt, (LDPT_OPTION, TvString opt)) l) = []).
  { induction l as [|opt l IH]; [done|].
    simpl. rewrite filter_cons. case_decide; [done | exact IH]. }
  split_and!.
  - exists (removelast (plugin_table a)). split.
    + unfold plugin_table. rewrite !app_assoc.
      set (X := (_ ++ _) ++ map _ _).
      rewrite removelast_app by discriminate.
      rewrite <- app_assoc. reflexivity.
    + intros e. unfold plugin_table. rewrite !app_assoc.
      rewrite removelast_app by discriminate.
      rewrite !elem_of_app. intros [[[He|He]|He]|He].
      * apply list_elem_of_singleton in He as ->. done.
      * apply list_elem_of_singleton in He as ->. done.
      * pose proof (Hopts (plugin_opt a)) as Hf.
        rewrite Forall_forall in Hf. rewrite (Hf e He). done.
      * cbn [removelast] in He.
        apply (Forall_forall (λ e : PluginTagValue, e.1 ≠ LDPT_NULL)) in He;
          [done|].
        repeat (constructor; [done|]). constructor.
  - assert (Happ : ∀ l1 l2, table_options (l1 ++ l2)
                             = table_options l1 ++ table_options l2)
      by (intros; apply omap_app).
    assert (Hmap : ∀ l, table_options
                          (map (λ opt, (LDPT_OPTION, TvString opt)) l) = l).
    { induction l as [|opt l IH]; [done|].
      change (opt :: table_options
                       (map (λ opt, (LDPT_OPTION, TvString opt)) l) = opt :: l).
      by rewrite IH. }
    unfold plugin_table. rewrite !Happ, Hmap.
    change (plugin_opt a ++ [] = plugin_opt a). apply app_nil_r.
  - unfold plugin_table. rewrite !length_app, length_map. simpl. lia.
  - done.
  - unfold plugin_table. rewrite !fmap_app, !filter_app, Hfilter.
    match goal with
    | |- NoDup ?l => apply (bool_decide_unpack (NoDup l))
    end. vm_compute. exact I.
Qed.

(** ** The synthesized ELF symbol *)

(** X17: the ELF symbol is an image of four fields: on a target, two
    records give the same ELF symbol exactly when they agree on definition
    kind, symbol type and visibility and their sizes agree in the low bits
    that [st_size] keeps (32 on I386, 64 elsewhere); for sizes that fit the
    field this is agreement on the size. The name and the resolution do not
    enter. *)
Theorem to_elf_sym_determines_the_record (E : Target) (p q : PluginSymbol) :
  (to_elf_sym E p = to_elf_sym E q ↔
   def p = def q ∧ symbol_type p = symbol_type q ∧
   visibility p = visibility q ∧
   size p mod 2 ^ st_size_bits E = size q mod 2 ^ st_size_bits E)
  ∧ (0 ≤ size p < 2 ^ st_size_bits E → 0 ≤ size q < 2 ^ st_size_bits E →
     (to_elf_sym E p = to_elf_sym E q ↔
      def p = def q ∧ symbol_type p = symbol_type q ∧
      visibility p = visibility q ∧ size p = size q)).
Proof.
  assert (Hiff : to_elf_sym E p = to_elf_sym E q ↔
    def p = def q ∧ symbol_type p = symbol_type q ∧
    visibility p = visibility q ∧
    size p mod 2 ^ st_size_bits E = size q mod 2 ^ st_size_bits E).
  { split.
    - intros H.
      assert (H1 : st_shndx (to_elf_sym E p) = st_shndx (to_elf_sym E q))
        by congruence.
      assert (H2 : st_bind (to_elf_sym E p) = st_bind (to_elf_sym E q))
        by congruence.
      assert (H3 : st_type (to_elf_sym E p) = st_type (to_elf_sym E q))
        by congruence.
      assert (H4 : st_visibility (to_elf_sym E p)
                   = st_visibility (to_elf_sym E q)) by congruence.
      assert (H5 : st_size (to_elf_sym E p) = st_size (to_elf_sym E q))
        by congruence.
      clear H. destruct p as [n1 d1 t1 v1 z1 r1], q as [n2 d2 t2 v2 z2 r2].
      unfold to_elf_sym in *.
      cbn [def symbol_type visibility size] in *. split_and!.
      + clear H3 H4 H5.
        destruct d1, t1, v1, d2, t2, v2; vm_compute in H1, H2; congruence.
      + clear H1 H2 H4 H5.
        destruct d1, t1, v1, d2, t2, v2; vm_compute in H3; congruence.
      + clear H1 H2 H3 H5.
        destruct d1, t1, v1, d2, t2, v2; vm_compute in H4; congruence.
      + clear H1 H2 H3 H4.
        destruct d1, t1, v1, d2, t2, v2; exact H5.
    - intros (H1 & H2 & H3 & H4). unfold to_elf_sym.
      by rewrite H1, H2, H3, H4. }
  split; [exact Hiff|].
  intros Hp Hq. rewrite Hiff. rewrite !Z.mod_small by done. done.
Qed.

(** X18: what the ELF symbol never carries: its name index and its value are
    zero, and its binding is the zero value (local) or weak, never global;
    its section index is the undefined one exactly for the two undefined
    kinds. *)
Theorem to_elf_sym_is_never_global (E : Target) (p : PluginSymbol) :
  st_name (to_elf_sym E p) = 0 ∧ st_value (to_elf_sym E p) = 0 ∧
  (st_bind (to_elf_sym E p) = STB_LOCAL ∨ st_bind (to_elf_sym E p) = STB_WEAK) ∧
  (st_bind (to_elf_sym E p) =? STB_GLOBAL) = false ∧
  (st_shndx (to_elf_sym E p) = SHN_UNDEF ↔
   def p = LDPK_UNDEF ∨ def p = LDPK_WEAKUNDEF).
Proof.
  destruct p as [n d t v z r]. unfold to_elf_sym. cbn [def symbol_type visibility].
  destruct d, t, v; cbn;
    repeat split; auto; try discriminate; intros [?|?]; discriminate.
Qed.

Section LoaderProperties.

Variable sys : System.
Variable backend : Backend.

(** ** Fatal conditions of an ingestion *)

(** X19: an ingestion ends the link with a Fatal diagnostic when no plugin is
    configured (checked first, before the loader is tried), when the first
    ingestion cannot dlopen the plugin, when the library has no onload, and
    when the file of the region (the enclosing archive for a member) cannot
    be opened. *)
Theorem ingestion_fatal_conditions (mf0 : MappedFile) (s : State) :
  (plugin (arg (ctx s)) = "" →
   ∃ msg, read_lto_object sys backend mf0 s = Err (Fatal msg))
  ∧ (plugin (arg (ctx s)) ≠ "" → flag s = false → phase s = 0 →
     dlopen sys (plugin (arg (ctx s))) = None →
     ∃ msg, read_lto_object sys backend mf0 s = Err (Fatal msg))
  ∧ (∀ h, plugin (arg (ctx s)) ≠ "" → flag s = false → phase s = 0 →
     dlopen sys (plugin (arg (ctx s))) = Some h →
     dlsym_onload sys h = false →
     ∃ msg, read_lto_object sys backend mf0 s = Err (Fatal msg))
  ∧ (∀ s0, plugin (arg (ctx s)) ≠ "" →
     call_once_load_plugin sys backend s = Ok s0 →
     open_file sys (default (mf_name mf0) (mf_parent mf0)) = None →
     ∃ msg, read_lto_object sys backend mf0 s = Err (Fatal msg)).
Proof.
  unfold read_lto_object, read_lto_object_claim. split_and!.
  - intros H. rewrite decide_True by done. simpl. eauto.
  - intros H Hf Hph Hd. rewrite decide_False by done.
    unfold call_once_load_plugin, load_plugin. rewrite Hf, Hph; simpl.
    rewrite Hd. simpl. eauto.
  - intros h H Hf Hph Hd Hs. rewrite decide_False by done.
    unfold call_once_load_plugin, load_plugin. rewrite Hf, Hph; simpl.
    rewrite Hd, Hs. simpl. eauto.
  - intros s0 H Hc Ho. rewrite decide_False by done. rewrite Hc; simpl.
    rewrite Ho. simpl. eauto.
Qed.

(** ** What the loader leaves in the statics *)

Lemma do_lto_statics s s' :
  do_lto sys backend s = Ok s' →
  gctx s' = gctx s ∧ dlopen_handle s' = dlopen_handle s.
Proof.
  unfold do_lto. destruct (phase s =? 1); simpl; [|discriminate].
  destruct (all_symbols_read_hook s) as [fn|]; simpl; [|discriminate].
  destruct (run_callbacks _ _ _) as [s1|] eqn:Hcb; simpl; [|discriminate].
  destruct (mark_ir_dead _ _) as [c|]; simpl; [|discriminate].
  destruct (erase_if_lto_obj _ _) as [l|]; simpl; [|discriminate].
  intros [= <-]. apply run_callbacks_added in Hcb as (? & ? & _). done.
Qed.

Lemma read_lto_object_statics mf0 s s' p :
  read_lto_object sys backend mf0 s = Ok (s', p) →
  plugin (arg (ctx s)) ≠ "" ∧
  ∃ s0, call_once_load_plugin sys backend s = Ok s0 ∧
        gctx s' = gctx s0 ∧ dlopen_handle s' = dlopen_handle s0.
Proof.
  intros (Hpl & s0 & fd & fn & cbs & st & s1 & H1 & _ & _ & _ & _ & H6 & H7)
           %read_lto_object_unfold.
  split; [done|]. exists s0. split; [done|].
  apply read_lto_object_symbols_unfold in H7
    as (_ & _ & _ & _ & _ & _ & _ & -> & -> & _).
  apply run_callbacks_added in H6 as (? & ? & _). done.
Qed.

Lemma step_library_recorded op s s' :
  step sys backend op s = Ok s' →
  loader_inv s →
  (flag s = true → library_recorded sys s) →
  (flag s' = true → library_recorded sys s').
Proof.
  intros Hst Hinv Hrec Hfl.
  pose proof (step_session sys backend _ _ _ Hst) as (_ & _ & Hses).
  destruct op as [mf0| | |f]; simpl in Hst.
  - destruct (read_lto_object sys backend mf0 s) as [[s1 p]|] eqn:Hr;
      simpl in Hst; [|discriminate].
    injection Hst as <-.
    apply read_lto_object_statics in Hr as (Hpl & s0 & Hc & G1 & G2).
    pose proof (call_once_load_plugin_ok sys backend _ _ Hc)
      as (_ & _ & _ & _ & _ & Hcase).
    apply call_once_effect in Hc as [_ Hc].
    destruct Hc as [[Hf ->]|(Hf & h & D1 & D2 & D3 & D4)].
    + destruct (Hrec Hf) as (R1 & a & h & R2 & R3 & R4 & R5 & R6).
      destruct Hses as [(_ & _ & Hl)|[(_ & ? & _)|(? & _)]];
        [|congruence|discriminate].
      split; [congruence|]. exists a, h. split_and!; congruence.
    + destruct Hses as [(_ & ? & _)|[(_ & _ & _ & _ & _ & Hl)|(? & _)]];
        [congruence| |discriminate].
      destruct Hinv as [(_ & _ & Hlog)|(? & _)]; [|congruence].
      rewrite Hlog in Hl. simpl in Hl.
      split; [congruence|]. exists (arg (ctx s)), h.
      split_and!; [done | done | done | done | congruence].
  - apply do_lto_statics in Hst as Hg. destruct Hg as [G1 G2].
    destruct Hses as [(_ & Hf & Hl)|[([mf0 ?] & _)|(_ & _ & _ & Hf & Hl)]];
      [|discriminate|].
    + rewrite Hf in Hfl. destruct (Hrec Hfl) as (R1 & a & h & R2 & R3 & R4 & R5 & R6).
      split; [congruence|]. exists a, h. split_and!; congruence.
    + rewrite Hf in Hfl. destruct (Hrec Hfl) as (R1 & a & h & R2 & R3 & R4 & R5 & R6).
      split; [congruence|]. exists a, h. split_and!; congruence.
  - unfold lto_cleanup in Hst. destruct (cleanup_hook s) as [fn|].
    + pose proof (run_callbacks_frame sys _ _ _ Hst) as (_ & Hf & Hl & _).
      apply run_callbacks_added in Hst as (G1 & G2 & _).
      rewrite Hf in Hfl. destruct (Hrec Hfl) as (R1 & a & h & R2 & R3 & R4 & R5 & R6).
      split; [congruence|]. exists a, h. split_and!; congruence.
    + injection Hst as <-. auto.
  - injection Hst as <-. simpl in *. exact (Hrec Hfl).
Qed.

(** X20: once an object has been ingested, the session knows its library: in
    a run from the initial statics that contains an ingestion and returns,
    the context pointer is set, the plugin path that was opened is not
    empty, dlopen gave for it the handle that the session holds, and that
    library has the onload entry that was called. *)
Theorem loader_records_the_library (c : Context) (ops : list Op) (s' : State) :
  run sys backend ops (initial_state c) = Ok s' →
  (∃ mf0, OpReadLtoObject mf0 ∈ ops) →
  gctx s' = true ∧
  ∃ a h, loader_log s'
         = [EvDlopen (plugin a); EvDlsym "onload"; EvOnload (plugin_table a)] ∧
         plugin a ≠ "" ∧ dlopen sys (plugin a) = Some h ∧
         dlsym_onload sys h = true ∧ dlopen_handle s' = Some h.
Proof.
  intros Hrun Hin.
  pose proof (run_session sys backend _ _ _ Hrun) as (_ & _ & _ & _ & Hfl & _).
  specialize (Hfl Hin).
  assert (Hgen : ∀ ops s s', run sys backend ops s = Ok s' →
            loader_inv s → (flag s = true → library_recorded sys s) →
            (flag s' = true → library_recorded sys s')).
  { clear. induction ops as [|op ops IH]; intros s s'; simpl.
    - intros [= <-]. auto.
    - destruct (step sys backend op s) as [s1|] eqn:Hst; simpl; [|discriminate].
      intros Hrun Hinv Hrec. apply (IH s1 s' Hrun).
      + pose proof (run_session sys backend [op] s s1) as Hr. simpl in Hr.
        rewrite Hst in Hr. simpl in Hr.
        destruct (Hr eq_refl) as (_ & _ & _ & Hi & _). auto.
      + eapply step_library_recorded; eauto. }
  apply (Hgen _ _ _ Hrun); [by left | discriminate | done].
Qed.

End LoaderProperties.

Section MoreDriverProperties.

Variable sys : System.
Variable backend : Backend.

(** ** Symbol enumeration *)

(** X21: the last enumeration wins: when a sequence of callbacks that ends
    with [add_symbols] returns, [plugin_symbols] holds exactly the nsyms
    records of that call, whatever was delivered before; this needs phase 1
    and a count within the caller's array. In phase 1 a count that is
    negative or larger than the array is undefined behaviour. *)
Theorem add_symbols_last_delivery_wins :
  (∀ cbs handle nsyms psyms s s',
     run_callbacks sys (cbs ++ [CbAddSymbols handle nsyms psyms]) s = Ok s' →
     plugin_symbols s' = take (Z.to_nat nsyms) psyms ∧
     Z.of_nat (length (plugin_symbols s')) = nsyms ∧
     0 ≤ nsyms ≤ Z.of_nat (length psyms) ∧ phase s = 1)
  ∧ (∀ handle nsyms psyms s, phase s = 1 →
       nsyms < 0 ∨ Z.of_nat (length psyms) < nsyms →
       add_symbols handle nsyms psyms s = Err Undefined).
Proof.
  split.
  - intros cbs h n ps s s'. rewrite run_callbacks_app.
    destruct (run_callbacks sys cbs s) as [s1|] eqn:H1; simpl; [|discriminate].
    apply run_callbacks_frame in H1 as (Hph & _).
    unfold add_symbols. destruct (phase s1 =? 1) eqn:E; simpl; [|discriminate].
    destruct (_ && _) eqn:Hb; simpl; [|discriminate].
    intros [= <-]. simpl. apply andb_true_iff in Hb as [Hb1 Hb2].
    split_and!; [done | | lia | lia | lia].
    rewrite length_take. lia.
  - intros h n ps s Hph Hn. unfold add_symbols. rewrite Hph. simpl.
    destruct (_ && _) eqn:Hb; [|done].
    apply andb_true_iff in Hb as [Hb1 Hb2]. lia.
Qed.

(** ** A compilation with nothing to do *)




End MoreDriverProperties.

(** ** The further properties on the small link *)

Lemma demo_query_two_of_four :
  get_symbols mixed_ctx 1%nat 2 (replicate 4 (psym_foo LDPK_UNDEF))
  = Ok ([set_resolution LDPR_RESOLVED_IR (psym_foo LDPK_UNDEF);
         set_resolution LDPR_RESOLVED_EXEC (psym_foo LDPK_UNDEF);
         psym_foo LDPK_UNDEF; psym_foo LDPK_UNDEF], LDPS_OK).
Proof. vm_compute. reflexivity. Defined.

Lemma get_symbols_writes_only_resolutions_witness :
  get_symbols mixed_ctx 1%nat 2 (replicate 4 (psym_foo LDPK_UNDEF))
  = Ok ([set_resolution LDPR_RESOLVED_IR (psym_foo LDPK_UNDEF);
         set_resolution LDPR_RESOLVED_EXEC (psym_foo LDPK_UNDEF);
         psym_foo LDPK_UNDEF; psym_foo LDPK_UNDEF], LDPS_OK) ∧
  length [set_resolution LDPR_RESOLVED_IR (psym_foo LDPK_UNDEF);
          set_resolution LDPR_RESOLVED_EXEC (psym_foo LDPK_UNDEF);
          psym_foo LDPK_UNDEF; psym_foo LDPK_UNDEF]
  = length (replicate 4 (psym_foo LDPK_UNDEF)).
Proof.
  split; [exact demo_query_two_of_four|].
  exact (proj1 (get_symbols_writes_only_resolutions _ _ _ _ _ _
                  demo_query_two_of_four)).
Defined.

Lemma get_symbols_status_witness :
  lookup_obj mixed_ctx 4%nat = Ok (ir_object "foo" false) ∧
  get_symbols mixed_ctx 4%nat 0 [psym_foo LDPK_DEF]
  = Ok ([psym_foo LDPK_DEF], LDPS_NO_SYMS).
Proof.
  split; [reflexivity|].
  apply (proj2 (proj2 (get_symbols_status mixed_ctx 4%nat 0 [psym_foo LDPK_DEF]))
           (ir_object "foo" false)); [reflexivity | lia].
Defined.

Lemma get_symbols_idempotent_witness :
  get_symbols mixed_ctx 1%nat 2 (replicate 4 (psym_foo LDPK_UNDEF))
  = Ok ([set_resolution LDPR_RESOLVED_IR (psym_foo LDPK_UNDEF);
         set_resolution LDPR_RESOLVED_EXEC (psym_foo LDPK_UNDEF);
         psym_foo LDPK_UNDEF; psym_foo LDPK_UNDEF], LDPS_OK) ∧
  get_symbols mixed_ctx 1%nat 2
    [set_resolution LDPR_RESOLVED_IR (psym_foo LDPK_UNDEF);
     set_resolution LDPR_RESOLVED_EXEC (psym_foo LDPK_UNDEF);
     psym_foo LDPK_UNDEF; psym_foo LDPK_UNDEF]
  = Ok ([set_resolution LDPR_RESOLVED_IR (psym_foo LDPK_UNDEF);
         set_resolution LDPR_RESOLVED_EXEC (psym_foo LDPK_UNDEF);
         psym_foo LDPK_UNDEF; psym_foo LDPK_UNDEF], LDPS_OK).
Proof.
  split; [exact demo_query_two_of_four|].
  exact (get_symbols_idempotent _ _ _ _ _ _ demo_query_two_of_four).
Defined.

Lemma demo_hand_back :
  run_callbacks demo_sys [CbAddInputFile "c.o"] demo_collected
  = Ok demo_handed_back.
Proof. vm_compute. reflexivity. Defined.

Lemma callbacks_leave_the_session_witness :
  run_callbacks demo_sys [CbAddInputFile "c.o"] demo_collected
    = Ok demo_handed_back ∧
  phase demo_handed_back = phase demo_collected ∧
  flag demo_handed_back = flag demo_collected.
Proof.
  split; [exact demo_hand_back|].
  pose proof (callbacks_leave_the_session demo_sys _ _ _ demo_hand_back)
    as (H1 & H2 & _).
  split; [exact H1 | exact H2].
Defined.


Lemma handoff_of_a_missing_file_witness :
  run_callbacks demo_sys [] demo_collected = Ok demo_collected ∧
  create_object demo_sys "d.o" = None ∧
  ∃ e, run_callbacks demo_sys ([] ++ CbAddInputFile "d.o" :: [CbAddInputFile "c.o"])
         demo_collected = Err e ∧
       ∃ msg, e = Fatal msg.
Proof.
  split; [reflexivity|]. split; [reflexivity|].
  exact (handoff_of_a_missing_file demo_sys [] [CbAddInputFile "c.o"] "d.o"
           demo_collected demo_collected eq_refl eq_refl).
Defined.

Lemma get_symbols_v1_stops_the_link_witness :
  run_callbacks demo_sys [CbInert get_input_file] demo_collected
    = Ok demo_collected ∧
  run_callbacks demo_sys
    ([CbInert get_input_file] ++ CbGetSymbolsV1 0%nat 1 [psym_foo LDPK_DEF] :: [])
    demo_collected = Err AssertFail.
Proof.
  split; [reflexivity|].
  exact (proj2 (proj2 (get_symbols_v1_stops_the_link demo_sys demo_args _
                         demo_collected))
           [CbInert get_input_file] [] 0%nat 1 [psym_foo LDPK_DEF]
           demo_collected eq_refl eq_refl).
Defined.

Lemma do_lto_is_single_use_witness :
  do_lto demo_sys demo_backend demo_collected = Ok demo_linked ∧
  do_lto demo_sys demo_backend demo_linked = Err AssertFail.
Proof.
  split; [exact demo_do_lto|].
  exact (proj1 (do_lto_is_single_use demo_sys demo_backend _ _ demo_do_lto)).
Defined.

Lemma retired_by_do_lto_answers_preempted_witness :
  do_lto demo_sys demo_backend demo_collected = Ok demo_linked ∧
  get_symbols (ctx demo_collected) 1%nat 1 [psym_foo LDPK_UNDEF]
    = Ok ([{| name := "foo"; def := LDPK_UNDEF; symbol_type := LDST_FUNCTION;
              visibility := LDPV_DEFAULT; size := 8;
              resolution := LDPR_RESOLVED_IR |}], LDPS_OK) ∧
  ∃ psyms',
    get_symbols_v3 (ctx demo_linked) 1%nat 1 [psym_foo LDPK_UNDEF]
      = Ok (psyms', LDPS_NO_SYMS) ∧
    get_symbols_v2 (ctx demo_linked) 1%nat 1 [psym_foo LDPK_UNDEF]
      = Ok (psyms', LDPS_OK) ∧
    resolution <$> psyms' = [LDPR_PREEMPTED_REG] ∧
    def <$> psyms' = [LDPK_UNDEF].
Proof.
  split; [exact demo_do_lto|]. split; [vm_compute; reflexivity|].
  destruct (retired_by_do_lto_answers_preempted demo_sys demo_backend
              demo_collected demo_linked 1%nat _ 1 [psym_foo LDPK_UNDEF]
              demo_do_lto
              (list_elem_of_further _ 0%nat _ (list_elem_of_here 1%nat []))
              eq_refl eq_refl)
    as (psyms' & H1 & H2 & Hl & Hin & _); [simpl; lia|].
  exists psyms'. split; [exact H1|]. split; [exact H2|].
  destruct (Hin 0%nat) as (x0 & y0 & Hx0 & Hy0 & Hr0 & _ & Hd0 & _); [lia|].
  destruct psyms' as [|a [|? ?]]; try discriminate Hl.
  simpl in Hx0, Hy0. injection Hy0 as ->. injection Hx0 as <-.
  simpl. rewrite Hr0, Hd0. split; reflexivity.
Defined.

Lemma do_lto_succeeds_witness :
  phase demo_collected = 1 ∧
  all_symbols_read_hook demo_collected = Some 2%nat ∧
  run_callbacks demo_sys (all_symbols_read demo_backend 2%nat)
    (set_phase 2 demo_collected) = Ok demo_compiling ∧
  ∃ s', do_lto demo_sys demo_backend demo_collected = Ok s'.
Proof.
  assert (Hcb : run_callbacks demo_sys (all_symbols_read demo_backend 2%nat)
                  (set_phase 2 demo_collected) = Ok demo_compiling)
    by (vm_compute; reflexivity).
  split; [reflexivity|]. split; [reflexivity|]. split; [exact Hcb|].
  apply (do_lto_succeeds demo_sys demo_backend demo_collected demo_compiling
           2%nat eq_refl eq_refl Hcb).
  intros p Hp. simpl in Hp.
  apply elem_of_cons in Hp as [->|Hp]; [eexists; reflexivity|].
  apply elem_of_cons in Hp as [->|Hp]; [eexists; reflexivity|].
  by apply elem_of_nil in Hp.
Defined.

Lemma only_the_cleanup_hook_is_checked_witness :
  cleanup_hook (initial_state demo_ctx) = None ∧
  lto_cleanup demo_sys demo_backend (initial_state demo_ctx)
  = Ok (initial_state demo_ctx).
Proof.
  split; [reflexivity|].
  exact (proj1 (only_the_cleanup_hook_is_checked demo_sys demo_backend
                  (initial_state demo_ctx)) eq_refl).
Defined.

Lemma cleanup_without_ingestion_witness :
  run demo_sys demo_backend [OpLtoCleanup; OpLinker demo_adopt; OpLtoCleanup]
    (initial_state demo_ctx) = Ok (initial_state (demo_adopt demo_ctx)) ∧
  lto_cleanup demo_sys demo_backend (initial_state (demo_adopt demo_ctx))
  = Ok (initial_state (demo_adopt demo_ctx)).
Proof.
  split; [reflexivity|].
  refine (proj2 (proj2 (cleanup_without_ingestion demo_sys demo_backend demo_ctx
            [OpLtoCleanup; OpLinker demo_adopt; OpLtoCleanup]
            (initial_state (demo_adopt demo_ctx)) eq_refl _))).
  intros mf0 Hin.
  apply elem_of_cons in Hin as [Hin|Hin]; [discriminate|].
  apply elem_of_cons in Hin as [Hin|Hin]; [discriminate|].
  apply elem_of_cons in Hin as [Hin|Hin]; [discriminate|].
  by apply elem_of_nil in Hin.
Defined.

Lemma ingestion_offers_the_region_witness :
  read_lto_object demo_sys demo_backend mf_a (initial_state demo_ctx)
    = Ok (demo_ingested_a, 0%nat) ∧
  ∃ fd fn cbs st,
    open_file demo_sys "a.o" = Some fd ∧
    claim_file demo_backend fn
      {| pif_name := "a.o"; pif_fd := fd; pif_offset := 0; pif_filesize := 10;
         pif_handle := 0%nat |} = (cbs, true, st).
Proof.
  split; [exact demo_read_a|].
  destruct (ingestion_offers_the_region demo_sys demo_backend mf_a _ _ _
              demo_read_a)
    as (s0 & fd & fn & cbs & st & o & _ & H2 & _ & H4 & _).
  exists fd, fn, cbs, st. split; [exact H2 | exact H4].
Defined.

Lemma ingestion_returns_a_new_object_witness :
  read_lto_object demo_sys demo_backend mf_a (initial_state demo_ctx)
    = Ok (demo_ingested_a, 0%nat) ∧
  objs_in_memory (ctx (initial_state demo_ctx)) ∧
  (0%nat ∉ objs (ctx demo_ingested_a)) ∧
  plugin_symbols demo_ingested_a = [].
Proof.
  assert (Hwf : objs_in_memory (ctx (initial_state demo_ctx))).
  { intros q Hq. simpl in Hq. by apply elem_of_nil in Hq. }
  split; [exact demo_read_a|]. split; [exact Hwf|].
  pose proof (ingestion_returns_a_new_object demo_sys demo_backend mf_a _ _ _
                demo_read_a Hwf) as (_ & H2 & _ & _ & _ & _ & H7).
  split; [exact H2 | exact H7].
Defined.

Lemma ingestion_interns_the_symbols_witness :
  read_lto_object demo_sys demo_backend mf_a (initial_state demo_ctx)
    = Ok (demo_ingested_a, 0%nat) ∧
  ∃ o, files (ctx demo_ingested_a) !! 0%nat = Some (InputObject o) ∧
       ∀ sp, sp ∈ symbols o → ∃ sym, deref_sym (ctx demo_ingested_a) sp = Ok sym.
Proof.
  split; [exact demo_read_a|].
  destruct (ingestion_interns_the_symbols demo_sys demo_backend mf_a _ _ _
              demo_read_a) as (s1 & o & _ & H2 & H3 & _).
  exists o. split; [exact H2 | exact H3].
Defined.

Lemma plugin_table_is_terminated_witness :
  length (plugin_table demo_args) = 30%nat ∧
  table_options (plugin_table demo_args) = ["-O2"].
Proof.
  pose proof (plugin_table_is_terminated demo_args) as (_ & H2 & H3 & _).
  split; [exact H3 | exact H2].
Defined.

Lemma to_elf_sym_determines_the_record_witness :
  to_elf_sym X86_64 (psym_foo LDPK_COMMON) = to_elf_sym X86_64 psym_bar ∧
  size (psym_wide LDPK_DEF) = 2 ^ 32 + 5 ∧ size psym_narrow = 5 ∧
  to_elf_sym I386 (psym_wide LDPK_DEF) = to_elf_sym I386 psym_narrow ∧
  to_elf_sym X86_64 (psym_wide LDPK_DEF) ≠ to_elf_sym X86_64 psym_narrow.
Proof.
  assert (H8 : 0 ≤ 8 < 2 ^ st_size_bits X86_64)
    by (vm_compute; split; [discriminate | reflexivity]).
  assert (H5 : 0 ≤ 5 < 2 ^ st_size_bits X86_64)
    by (vm_compute; split; [discriminate | reflexivity]).
  assert (Hw : 0 ≤ 2 ^ 32 + 5 < 2 ^ st_size_bits X86_64)
    by (vm_compute; split; [discriminate | reflexivity]).
  split_and!.
  - apply (proj2 (proj2 (to_elf_sym_determines_the_record X86_64
                           (psym_foo LDPK_COMMON) psym_bar) H8 H8)).
    split; [reflexivity|]. split; [reflexivity|]. split; reflexivity.
  - reflexivity.
  - reflexivity.
  - apply (proj2 (proj1 (to_elf_sym_determines_the_record I386
                           (psym_wide LDPK_DEF) psym_narrow))).
    split; [reflexivity|]. split; [reflexivity|]. split; reflexivity.
  - intros Heq.
    apply (proj1 (proj2 (to_elf_sym_determines_the_record X86_64
                           (psym_wide LDPK_DEF) psym_narrow) Hw H5)) in Heq.
    destruct Heq as (_ & _ & _ & Heq). discriminate Heq.
Defined.

Lemma to_elf_sym_is_never_global_witness :
  st_shndx (to_elf_sym X86_64 (psym_foo LDPK_WEAKUNDEF)) = SHN_UNDEF.
Proof.
  apply (proj2 (proj2 (proj2 (proj2
           (to_elf_sym_is_never_global X86_64 (psym_foo LDPK_WEAKUNDEF)))))).
  right. reflexivity.
Defined.

Lemma ingestion_fatal_conditions_witness :
  plugin (arg (ctx (initial_state no_plugin_ctx))) = "" ∧
  (∃ msg, read_lto_object demo_sys demo_backend mf_a (initial_state no_plugin_ctx)
          = Err (Fatal msg)) ∧
  (∃ msg, read_lto_object demo_sys demo_backend mf_member
            (initial_state
               {| arg := {| plugin := "other.so"; shared := false; pie := false;
                            plugin_opt := []; output := "a.out" |};
                  objs := []; obj_pool := []; symbol_map := ∅; files := ∅ |})
          = Err (Fatal msg)).
Proof.
  split; [reflexivity|]. split.
  - exact (proj1 (ingestion_fatal_conditions demo_sys demo_backend mf_a
                    (initial_state no_plugin_ctx)) eq_refl).
  - apply (proj1 (proj2 (ingestion_fatal_conditions demo_sys demo_backend
                           mf_member _))); [discriminate | reflexivity..].
Defined.

Lemma loader_records_the_library_witness :
  run demo_sys demo_backend
    [OpReadLtoObject mf_a; OpReadLtoObject mf_b; OpLinker demo_adopt]
    (initial_state demo_ctx) = Ok demo_collected ∧
  gctx demo_collected = true ∧
  ∃ a h, dlopen demo_sys (plugin a) = Some h ∧
         dlopen_handle demo_collected = Some h.
Proof.
  split; [exact demo_run_collects|].
  destruct (loader_records_the_library demo_sys demo_backend demo_ctx _ _
              demo_run_collects)
    as (H1 & a & h & _ & _ & H4 & _ & H6).
  { exists mf_a. apply list_elem_of_here. }
  split; [exact H1|]. exists a, h. split; [exact H4 | exact H6].
Defined.

Lemma add_symbols_last_delivery_wins_witness :
  run_callbacks demo_sys
    ([CbAddSymbols 0%nat 1 [psym_foo LDPK_DEF]]
     ++ [CbAddSymbols 0%nat 2
           [psym_foo LDPK_UNDEF; psym_foo LDPK_COMMON; psym_foo LDPK_DEF]])
    demo_ingested_a
  = Ok (set_plugin_symbols [psym_foo LDPK_UNDEF; psym_foo LDPK_COMMON]
          demo_ingested_a) ∧
  plugin_symbols
    (set_plugin_symbols [psym_foo LDPK_UNDEF; psym_foo LDPK_COMMON]
       demo_ingested_a)
  = take (Z.to_nat 2)
      [psym_foo LDPK_UNDEF; psym_foo LDPK_COMMON; psym_foo LDPK_DEF].
Proof.
  assert (H : run_callbacks demo_sys
    ([CbAddSymbols 0%nat 1 [psym_foo LDPK_DEF]]
     ++ [CbAddSymbols 0%nat 2
           [psym_foo LDPK_UNDEF; psym_foo LDPK_COMMON; psym_foo LDPK_DEF]])
    demo_ingested_a
  = Ok (set_plugin_symbols [psym_foo LDPK_UNDEF; psym_foo LDPK_COMMON]
          demo_ingested_a)) by reflexivity.
  split; [exact H|].
  exact (proj1 (proj1 (add_symbols_last_delivery_wins demo_sys) _ _ _ _ _ _ H)).
Defined.

